(** * Multisig client: address derivation, wire schema and instruction assembly

    Shallow embedding of [client/schema.ts] and [client/multisig.ts]
    (the [MultiSig] class), with the parts of their dependencies that the
    client calls: JavaScript 32-bit integer operators, CryptoJS's SHA-256
    over word arrays, the borsh writer and reader, and web3.js's
    [PublicKey]. *)

From Stdlib Require Import String Ascii ZArith NArith Bool List Lia.
From Stdlib.Strings Require Import Byte.
Import ListNotations.
Local Open Scope Z_scope.

(* ===================================================================== *)
(** ** JavaScript numbers as used by the bit operators *)
(* ===================================================================== *)

Module JS.

(** [x >>> 0]: the unsigned 32-bit reading of a number. *)
Definition toUint32 (x : Z) : Z := x mod 2 ^ 32.

(** [x | 0]: the signed 32-bit reading of a number. *)
Definition toInt32 (x : Z) : Z :=
  let u := toUint32 x in if u <? 2 ^ 31 then u else u - 2 ^ 32.

(** [a << n]: the shift count is taken modulo 32, the result is an int32. *)
Definition shl (a n : Z) : Z := toInt32 (Z.shiftl (toInt32 a) (Z.land n 31)).

(** [a >>> n]: unsigned shift, count modulo 32. *)
Definition ushr (a n : Z) : Z := Z.shiftr (toUint32 a) (Z.land n 31).

(** [a | b], [a & b], [a ^ b], [~a] on int32 operands. *)
Definition or (a b : Z) : Z := toInt32 (Z.lor (toInt32 a) (toInt32 b)).
Definition and (a b : Z) : Z := toInt32 (Z.land (toInt32 a) (toInt32 b)).
Definition xor (a b : Z) : Z := toInt32 (Z.lxor (toInt32 a) (toInt32 b)).
Definition not (a : Z) : Z := toInt32 (Z.lnot (toInt32 a)).

(** Arrays of numbers.  Reading a missing index gives [undefined], which
    every bit operator reads as 0; writing past the end extends the array
    (the holes read as [undefined], hence as 0 too). *)
Definition get (a : list Z) (i : nat) : Z := nth i a 0.

Fixpoint set (a : list Z) (i : nat) (v : Z) : list Z :=
  match i, a with
  | O, [] => [v]
  | O, _ :: t => v :: t
  | S j, [] => 0 :: set [] j v
  | S j, x :: t => x :: set t j v
  end.

End JS.

(** A [Uint8Array] or [Buffer] is a list of bytes. *)
Definition byte_to_Z (b : byte) : Z := Z.of_N (Byte.to_N b).

Definition byte_of_N (n : N) : byte :=
  match Byte.of_N (n mod 256)%N with
  | Some b => b
  | None => x00
  end.

Definition byte_of_Z (z : Z) : byte := byte_of_N (Z.to_N (z mod 256)).

(* ===================================================================== *)
(** ** CryptoJS: word arrays and SHA-256 *)
(* ===================================================================== *)

Module CryptoJS.

(** [CryptoJS.lib.WordArray]: 32-bit words, big-endian, of which the first
    [sigBytes] bytes are significant. *)
Record WordArray : Type := { words : list Z; sigBytes : nat }.

(** The initial hash value and the round constants are computed when the
    library loads: for the first 64 primes [n],
    [getFractionalBits(Math.pow(n, 1 / 2))] (the first eight) and
    [getFractionalBits(Math.pow(n, 1 / 3))], where [getFractionalBits(x)] is
    [((x - (x | 0)) * 0x100000000) | 0], the first 32 bits of the fractional
    part.  The roots are taken exactly here. *)
Definition isPrime (n : Z) : bool :=
  forallb (fun factor => negb (n mod factor =? 0))
          (filter (fun factor => factor * factor <=? n)
                  (map Z.of_nat (seq 2 (Z.to_nat n - 2)))).

Definition primes : list Z :=
  firstn 64 (filter isPrime (map Z.of_nat (seq 2 400))).

(** The integer cube root, bit by bit from bit [k - 1] down. *)
Fixpoint cbrt_from (k : nat) (n r : Z) : Z :=
  match k with
  | O => r
  | S k' =>
      let c := r + 2 ^ Z.of_nat k' in
      cbrt_from k' n (if c * c * c <=? n then c else r)
  end.

Definition fractionalBits_sqrt (n : Z) : Z := JS.toInt32 (Z.sqrt (n * 2 ^ 64)).
Definition fractionalBits_cbrt (n : Z) : Z := JS.toInt32 (cbrt_from 40 (n * 2 ^ 96) 0).

Definition H0 : list Z := Eval vm_compute in map fractionalBits_sqrt (firstn 8 primes).

Definition K : list Z := Eval vm_compute in map fractionalBits_cbrt primes.

(** [(x << (32 - n)) | (x >>> n)] *)
Definition rotr (x n : Z) : Z := JS.or (JS.shl x (32 - n)) (JS.ushr x n).

(** The message schedule: [W[i]] for [i >= 16], given the sixteen most
    recent entries with the newest first.  The sum is kept as an int32;
    every later use reads it modulo 2^32. *)
Definition schedule_next (recent : list Z) : Z :=
  let gamma0x := JS.get recent 14 in
  let gamma0 := JS.xor (JS.xor (rotr gamma0x 7) (rotr gamma0x 18))
                       (JS.ushr gamma0x 3) in
  let gamma1x := JS.get recent 1 in
  let gamma1 := JS.xor (JS.xor (rotr gamma1x 17) (rotr gamma1x 19))
                       (JS.ushr gamma1x 10) in
  JS.toInt32 (gamma0 + JS.get recent 6 + gamma1 + JS.get recent 15).

Record Regs : Type :=
  { ra : Z; rb : Z; rc : Z; rd : Z; re : Z; rf : Z; rg : Z; rh : Z }.

(** One round of [_doProcessBlock]. *)
Definition round (r : Regs) (k w : Z) : Regs :=
  let ch := JS.xor (JS.and (re r) (rf r)) (JS.and (JS.not (re r)) (rg r)) in
  let maj := JS.xor (JS.xor (JS.and (ra r) (rb r)) (JS.and (ra r) (rc r)))
                    (JS.and (rb r) (rc r)) in
  let sigma0 := JS.xor (JS.xor (rotr (ra r) 2) (rotr (ra r) 13))
                       (rotr (ra r) 22) in
  let sigma1 := JS.xor (JS.xor (rotr (re r) 6) (rotr (re r) 11))
                       (rotr (re r) 25) in
  let t1 := rh r + sigma1 + ch + k + w in
  let t2 := sigma0 + maj in
  {| ra := JS.toInt32 (t1 + t2); rb := ra r; rc := rb r; rd := rc r;
     re := JS.toInt32 (rd r + t1); rf := re r; rg := rf r; rh := rg r |}.

(** Rounds [i = 64 - length ks .. 63]; [recent] holds the schedule so far,
    newest first, and [M] the block words not yet consumed. *)
Fixpoint rounds (ks : list Z) (M : list Z) (recent : list Z) (r : Regs) : Regs :=
  match ks with
  | [] => r
  | k :: ks' =>
      let w := match M with
               | m :: _ => JS.toInt32 m
               | [] => schedule_next recent
               end in
      rounds ks' (tl M) (w :: firstn 15 recent) (round r k w)
  end.

Definition doProcessBlock (H : list Z) (M : list Z) : list Z :=
  let r0 := {| ra := JS.get H 0; rb := JS.get H 1; rc := JS.get H 2;
               rd := JS.get H 3; re := JS.get H 4; rf := JS.get H 5;
               rg := JS.get H 6; rh := JS.get H 7 |} in
  let r := rounds K M [] r0 in
  [JS.toInt32 (JS.get H 0 + ra r); JS.toInt32 (JS.get H 1 + rb r);
   JS.toInt32 (JS.get H 2 + rc r); JS.toInt32 (JS.get H 3 + rd r);
   JS.toInt32 (JS.get H 4 + re r); JS.toInt32 (JS.get H 5 + rf r);
   JS.toInt32 (JS.get H 6 + rg r); JS.toInt32 (JS.get H 7 + rh r)].

(** The sixteen words of the block at [offset]. *)
Definition block (dataWords : list Z) (offset : nat) : list Z :=
  map (fun i => JS.get dataWords (offset + i)) (seq 0 16).

Fixpoint process (nBlocks : nat) (dataWords : list Z) (offset : nat)
                 (H : list Z) : list Z :=
  match nBlocks with
  | O => H
  | S n => process n dataWords (offset + 16)
                   (doProcessBlock H (block dataWords offset))
  end.

(** [_doFinalize]: padding, the bit length in the last two words of the
    last block, then all blocks are processed. *)
Definition SHA256 (message : WordArray) : WordArray :=
  let nBitsTotal := Z.of_nat (sigBytes message) * 8 in
  let nBitsLeft := nBitsTotal in
  let w1 := JS.set (words message) (Z.to_nat (nBitsLeft / 32))
              (JS.or (JS.get (words message) (Z.to_nat (nBitsLeft / 32)))
                     (JS.shl 0x80 (24 - nBitsLeft mod 32))) in
  let last := Z.to_nat ((nBitsLeft + 64) / 512 * 16) in
  let w2 := JS.set w1 (last + 14)%nat (nBitsTotal / 0x100000000) in
  let w3 := JS.set w2 (last + 15)%nat nBitsTotal in
  {| words := process (Nat.div (length w3 + 15) 16) w3 0 H0;
     sigBytes := 32 |}.

(** The bytes of a word array: byte [i] is
    [(words[i >>> 2] >>> (24 - (i % 4) * 8)) & 0xff]. *)
Definition byteAt (wa : WordArray) (i : nat) : byte :=
  byte_of_Z (Z.land (JS.ushr (JS.get (words wa) (Nat.div i 4))
                             (24 - Z.of_nat (Nat.modulo i 4) * 8)) 0xff).

Definition bytes (wa : WordArray) : list byte :=
  map (byteAt wa) (seq 0 (sigBytes wa)).

(** [n.toString(16)] for [0 <= n < 16]. *)
Definition hexChar (n : Z) : ascii :=
  if n <? 10 then ascii_of_N (Z.to_N (48 + n)) else ascii_of_N (Z.to_N (87 + n)).

(** [wordArray.toString()], the Hex encoder: two characters per
    significant byte, [(bite >>> 4).toString(16)] then
    [(bite & 0x0f).toString(16)]. *)
Definition toString (wa : WordArray) : string :=
  fold_right
    (fun i rest =>
       let bite := byte_to_Z (byteAt wa i) in
       String (hexChar (JS.ushr bite 4)) (String (hexChar (JS.and bite 0x0f)) rest))
    EmptyString (seq 0 (sigBytes wa)).

End CryptoJS.

(* ===================================================================== *)
(** ** multisig.ts: module-level helpers *)
(* ===================================================================== *)

(** [wa[(i / 4) | 0] |= ba[i] << (24 - 8 * i)] for [i = 0 .. ba.length - 1]. *)
Fixpoint byteArrayToWordArray_loop (ba : list byte) (i : Z) (wa : list Z) : list Z :=
  match ba with
  | [] => wa
  | b :: rest =>
      let idx := Z.to_nat (i / 4) in
      byteArrayToWordArray_loop rest (i + 1)
        (JS.set wa idx (JS.or (JS.get wa idx) (JS.shl (byte_to_Z b) (24 - 8 * i))))
  end.

Definition byteArrayToWordArray (ba : list byte) : CryptoJS.WordArray :=
  {| CryptoJS.words := byteArrayToWordArray_loop ba 0 [];
     CryptoJS.sigBytes := length ba |}.

(** Bytes packed into big-endian 32-bit words: the first byte of each group
    of four in the top eight bits; a last, partial word is filled with
    zero bits. *)
Definition word_be (b0 b1 b2 b3 : Z) : Z :=
  JS.or (JS.or (JS.or (JS.shl b0 24) (JS.shl b1 16)) (JS.shl b2 8)) (JS.shl b3 0).

Fixpoint pack_be (data : list byte) : list Z :=
  match data with
  | [] => []
  | [b0] => [word_be (byte_to_Z b0) 0 0 0]
  | [b0; b1] => [word_be (byte_to_Z b0) (byte_to_Z b1) 0 0]
  | [b0; b1; b2] => [word_be (byte_to_Z b0) (byte_to_Z b1) (byte_to_Z b2) 0]
  | b0 :: b1 :: b2 :: b3 :: rest =>
      word_be (byte_to_Z b0) (byte_to_Z b1) (byte_to_Z b2) (byte_to_Z b3)
      :: pack_be rest
  end.

(** [Buffer.from(s, 'hex')]: one byte per pair of hexadecimal digits, up to
    the first pair that is not one. *)
Definition hexValue (c : ascii) : option N :=
  let n := N_of_ascii c in
  if ((48 <=? n) && (n <=? 57))%N then Some (n - 48)%N
  else if ((97 <=? n) && (n <=? 102))%N then Some (n - 87)%N
  else if ((65 <=? n) && (n <=? 70))%N then Some (n - 55)%N
  else None.

Fixpoint Buffer_from_hex (s : string) : list byte :=
  match s with
  | String hi (String lo rest) =>
      match hexValue hi, hexValue lo with
      | Some h, Some l => byte_of_N (16 * h + l) :: Buffer_from_hex rest
      | _, _ => []
      end
  | _ => []
  end.

(* ===================================================================== *)
(** ** Exceptions *)
(* ===================================================================== *)

(** What a call can throw: the client throws strings; borsh throws
    [BorshError]; Node's [Buffer] throws [RangeError] on a value that does
    not fit; bn.js fails an assertion; web3.js throws [Error]s. *)
Inductive Thrown : Type :=
| Throw (message : string)
| BorshError
| RangeError
| AssertionFailed
| Error (message : string).

Inductive Result (A : Type) : Type :=
| Ok (a : A)
| Throws (e : Thrown).
Arguments Ok {A} a.
Arguments Throws {A} e.

Definition bind {A B : Type} (r : Result A) (k : A -> Result B) : Result B :=
  match r with
  | Ok a => k a
  | Throws e => Throws e
  end.

Declare Scope result_scope.
Delimit Scope result_scope with result.
Notation "x <- e ;; k" := (bind e (fun x => k))
  (at level 61, e at next level, right associativity) : result_scope.
Notation "' p <- e ;; k" := (bind e (fun x => let p := x in k))
  (at level 61, p pattern, e at next level, right associativity) : result_scope.
Local Open Scope result_scope.

(** [array.map(f)] when [f] can throw: elements are visited in order. *)
Fixpoint mapM {A B : Type} (f : A -> Result B) (l : list A) : Result (list B) :=
  match l with
  | [] => Ok []
  | a :: t => b <- f a ;; bs <- mapM f t ;; Ok (b :: bs)
  end.

(* ===================================================================== *)
(** ** borsh: [BinaryWriter] and [BinaryReader] *)
(* ===================================================================== *)

Module Borsh.

(** Little-endian bytes of a number, [n] of them. *)
Fixpoint le_bytes (n : nat) (v : N) : list byte :=
  match n with
  | O => []
  | S k => byte_of_N (v mod 256) :: le_bytes k (v / 256)
  end.

(** Little-endian value of a byte string. *)
Fixpoint le_value (b : list byte) : N :=
  match b with
  | [] => 0
  | x :: t => Byte.to_N x + 256 * le_value t
  end%N.

(** *** Writer: every write appends to the buffer, so a write is the bytes
    it appends. *)

(** [buf.writeUInt8(value)] *)
Definition writeU8 (value : N) : Result (list byte) :=
  if (value <? 2 ^ 8)%N then Ok (le_bytes 1 value) else Throws RangeError.

(** [buf.writeUInt32LE(value)] *)
Definition writeU32 (value : N) : Result (list byte) :=
  if (value <? 2 ^ 32)%N then Ok (le_bytes 4 value) else Throws RangeError.

(** [new BN(value).toArray('le', 8)] on a JavaScript number: bn.js asserts
    that a number is below 2^53. *)
Definition writeU64 (value : N) : Result (list byte) :=
  if (value <? 2 ^ 53)%N then Ok (le_bytes 8 value) else Throws AssertionFailed.

(** A field of type [[n]]: the value must have exactly [n] bytes, which
    are written as they are. *)
Definition writeFixedArray (n : nat) (value : list byte) : Result (list byte) :=
  if Nat.eqb (length value) n then Ok value else Throws BorshError.

(** A field of type [[T]]: [writeU32(array.length)], then every element. *)
Definition writeArray {A : Type} (fn : A -> Result (list byte)) (array : list A)
  : Result (list byte) :=
  len <- writeU32 (N.of_nat (length array)) ;;
  elems <- mapM fn array ;;
  Ok (len ++ concat elems).

(** A field of kind ['option']: a presence byte, then the value. *)
Definition writeOption {A : Type} (fn : A -> Result (list byte)) (value : option A)
  : Result (list byte) :=
  match value with
  | None => writeU8 0
  | Some v => tag <- writeU8 1 ;; body <- fn v ;; Ok (tag ++ body)
  end.

(** *** Reader: a read consumes a prefix of the remaining bytes. *)
Definition Reader (A : Type) : Type := list byte -> Result (A * list byte).

Definition readBuffer (len : nat) : Reader (list byte) :=
  fun buf =>
    if Nat.leb len (length buf) then Ok (firstn len buf, skipn len buf)
    else Throws BorshError.

Definition readU8 : Reader N :=
  fun buf => '(b, rest) <- readBuffer 1 buf ;; Ok (le_value b, rest).

Definition readU32 : Reader N :=
  fun buf => '(b, rest) <- readBuffer 4 buf ;; Ok (le_value b, rest).

Definition readU64 : Reader N :=
  fun buf => '(b, rest) <- readBuffer 8 buf ;; Ok (le_value b, rest).

Definition readFixedArray (len : nat) : Reader (list byte) := readBuffer len.

Fixpoint readN {A : Type} (fn : Reader A) (n : nat) : Reader (list A) :=
  fun buf =>
    match n with
    | O => Ok ([], buf)
    | S k =>
        '(a, rest) <- fn buf ;;
        '(l, rest') <- readN fn k rest ;;
        Ok (a :: l, rest')
    end.

Definition readArray {A : Type} (fn : Reader A) : Reader (list A) :=
  fun buf => '(len, rest) <- readU32 buf ;; readN fn (N.to_nat len) rest.

(** [deserialize]: the whole buffer must be consumed. *)
Definition deserialize {A : Type} (read : Reader A) (buffer : list byte) : Result A :=
  '(result, rest) <- read buffer ;;
  match rest with
  | [] => Ok result
  | _ :: _ => Throws BorshError
  end.

End Borsh.

(* ===================================================================== *)
(** ** schema.ts: the classes *)
(* ===================================================================== *)

Module GroupMember.
Record t : Type := mk { publicKey : list byte; weight : N }.
End GroupMember.

Module GroupData.
Record t : Type := mk { members : list GroupMember.t; threshold : N }.
End GroupData.

Module ProtectedAccountConfig.
Record t : Type := mk { lamports : N; space : N; owner : list byte }.
End ProtectedAccountConfig.

Module InitInstruction.
Record t : Type := mk
  { group_data : GroupData.t;
    lamports : N;
    protected_account_config : option ProtectedAccountConfig.t }.
End InitInstruction.

Module ProposedAccountMeta.
Record t : Type := mk { pubkey : list byte; is_signer : bool; is_writable : bool }.
End ProposedAccountMeta.

Module ProposedInstruction.
Record t : Type := mk
  { program_id : list byte;
    accounts : list ProposedAccountMeta.t;
    data : list byte }.
End ProposedInstruction.

Module ProposeInstruction.
Record t : Type := mk { instruction : ProposedInstruction.t; lamports : N }.
End ProposeInstruction.

Module ProposalState.
Record t : Type := mk { members : N; current_weight : N }.
End ProposalState.

Module ProposalConfig.
Record t : Type := mk { group : list byte; instruction : ProposedInstruction.t }.
End ProposalConfig.

Module ProposalData.
Record t : Type := mk { config : ProposalConfig.t; state : ProposalState.t }.
End ProposalData.

Module ApproveInstruction.
Inductive t : Type := mk.
End ApproveInstruction.

(** [InstructionData]: exactly one of the three optional fields is set, and
    [variant] names it.  The constructor's last branch, which throws
    ['unknown type'], is for a value of none of the three classes. *)
Module InstructionData.
Inductive t : Type :=
| init (instr : InitInstruction.t)
| propose (instr : ProposeInstruction.t)
| approve (instr : ApproveInstruction.t).

Definition variant (d : t) : string :=
  match d with
  | init _ => "init"
  | propose _ => "propose"
  | approve _ => "approve"
  end.
End InstructionData.

Definition intToBool (i : N) : bool := negb (i =? 0)%N.
Definition boolToInt (t : bool) : N := if t then 1%N else 0%N.

(* ===================================================================== *)
(** ** schema.ts: [schema], one serializer and one reader per entry *)
(* ===================================================================== *)

Import Borsh.

(** [GroupMember]: [publicKey : [32]], [weight : u32]. *)
Definition serialize_GroupMember (m : GroupMember.t) : Result (list byte) :=
  publicKey <- writeFixedArray 32 (GroupMember.publicKey m) ;;
  weight <- writeU32 (GroupMember.weight m) ;;
  Ok (publicKey ++ weight).

(** [GroupData]: [members : [GroupMember]], [threshold : u32]. *)
Definition serialize_GroupData (g : GroupData.t) : Result (list byte) :=
  members <- writeArray serialize_GroupMember (GroupData.members g) ;;
  threshold <- writeU32 (GroupData.threshold g) ;;
  Ok (members ++ threshold).

(** [ApproveInstruction]: no fields. *)
Definition serialize_ApproveInstruction (a : ApproveInstruction.t) : Result (list byte) :=
  Ok [].

(** [ProposedAccountMeta]: [pubkey : [32]], [is_signer : u8] and
    [is_writable : u8] through [boolMapper]. *)
Definition serialize_ProposedAccountMeta (a : ProposedAccountMeta.t) : Result (list byte) :=
  pubkey <- writeFixedArray 32 (ProposedAccountMeta.pubkey a) ;;
  is_signer <- writeU8 (boolToInt (ProposedAccountMeta.is_signer a)) ;;
  is_writable <- writeU8 (boolToInt (ProposedAccountMeta.is_writable a)) ;;
  Ok (pubkey ++ is_signer ++ is_writable).

(** [ProposedInstruction]: [program_id : [32]],
    [accounts : [ProposedAccountMeta]], [data : ['u8']]. *)
Definition serialize_ProposedInstruction (i : ProposedInstruction.t) : Result (list byte) :=
  program_id <- writeFixedArray 32 (ProposedInstruction.program_id i) ;;
  accounts <- writeArray serialize_ProposedAccountMeta (ProposedInstruction.accounts i) ;;
  data <- writeArray (fun b => writeU8 (Byte.to_N b)) (ProposedInstruction.data i) ;;
  Ok (program_id ++ accounts ++ data).

(** [ProposalState]: [members : u64], [current_weight : u32]. *)
Definition serialize_ProposalState (s : ProposalState.t) : Result (list byte) :=
  members <- writeU64 (ProposalState.members s) ;;
  current_weight <- writeU32 (ProposalState.current_weight s) ;;
  Ok (members ++ current_weight).

(** [ProposalConfig]: [group : [32]], [instruction : ProposedInstruction]. *)
Definition serialize_ProposalConfig (c : ProposalConfig.t) : Result (list byte) :=
  group <- writeFixedArray 32 (ProposalConfig.group c) ;;
  instruction <- serialize_ProposedInstruction (ProposalConfig.instruction c) ;;
  Ok (group ++ instruction).

(** [ProposalData]: [config : ProposalConfig], [state : ProposalState]. *)
Definition serialize_ProposalData (d : ProposalData.t) : Result (list byte) :=
  config <- serialize_ProposalConfig (ProposalData.config d) ;;
  state <- serialize_ProposalState (ProposalData.state d) ;;
  Ok (config ++ state).

(** [ProtectedAccountConfig]: [lamports : u64], [space : u64], [owner : [32]]. *)
Definition serialize_ProtectedAccountConfig (c : ProtectedAccountConfig.t)
  : Result (list byte) :=
  lamports <- writeU64 (ProtectedAccountConfig.lamports c) ;;
  space <- writeU64 (ProtectedAccountConfig.space c) ;;
  owner <- writeFixedArray 32 (ProtectedAccountConfig.owner c) ;;
  Ok (lamports ++ space ++ owner).

(** [InitInstruction]: [group_data : GroupData], [lamports : u64],
    [protected_account_config : option ProtectedAccountConfig]. *)
Definition serialize_InitInstruction (i : InitInstruction.t) : Result (list byte) :=
  group_data <- serialize_GroupData (InitInstruction.group_data i) ;;
  lamports <- writeU64 (InitInstruction.lamports i) ;;
  protected_account_config <-
    writeOption serialize_ProtectedAccountConfig
                (InitInstruction.protected_account_config i) ;;
  Ok (group_data ++ lamports ++ protected_account_config).

(** [ProposeInstruction]: [instruction : ProposedInstruction], [lamports : u64]. *)
Definition serialize_ProposeInstruction (p : ProposeInstruction.t) : Result (list byte) :=
  instruction <- serialize_ProposedInstruction (ProposeInstruction.instruction p) ;;
  lamports <- writeU64 (ProposeInstruction.lamports p) ;;
  Ok (instruction ++ lamports).

(** [InstructionData]: kind ['enum'] on the field [variant]; [values] lists
    the variants in this order. *)
Definition InstructionData_values : list string := ["init"; "propose"; "approve"]%string.

(** The enum case of borsh's [serializeStruct]: the position [idx] of the
    variant's name in [values] is written with [writeU8], then the variant. *)
Fixpoint enum_index (name : string) (values : list string) (idx : N) : option N :=
  match values with
  | [] => None
  | fieldName :: rest =>
      if String.eqb fieldName name then Some idx else enum_index name rest (idx + 1)%N
  end.

Definition serialize_InstructionData (d : InstructionData.t) : Result (list byte) :=
  match enum_index (InstructionData.variant d) InstructionData_values 0 with
  | Some idx =>
      tag <- writeU8 idx ;;
      body <- match d with
              | InstructionData.init i => serialize_InitInstruction i
              | InstructionData.propose p => serialize_ProposeInstruction p
              | InstructionData.approve a => serialize_ApproveInstruction a
              end ;;
      Ok (tag ++ body)
  | None => Ok []
  end.

(** Readers, field by field in schema order; each class is constructed from
    the record of the fields read. *)
Definition read_GroupMember : Reader GroupMember.t :=
  fun buf =>
    '(publicKey, buf) <- readFixedArray 32 buf ;;
    '(weight, buf) <- readU32 buf ;;
    Ok (GroupMember.mk publicKey weight, buf).

Definition read_GroupData : Reader GroupData.t :=
  fun buf =>
    '(members, buf) <- readArray read_GroupMember buf ;;
    '(threshold, buf) <- readU32 buf ;;
    Ok (GroupData.mk members threshold, buf).

Definition read_ProposedAccountMeta : Reader ProposedAccountMeta.t :=
  fun buf =>
    '(pubkey, buf) <- readFixedArray 32 buf ;;
    '(is_signer, buf) <- readU8 buf ;;
    '(is_writable, buf) <- readU8 buf ;;
    Ok (ProposedAccountMeta.mk pubkey (intToBool is_signer) (intToBool is_writable), buf).

Definition read_ProposedInstruction : Reader ProposedInstruction.t :=
  fun buf =>
    '(program_id, buf) <- readFixedArray 32 buf ;;
    '(accounts, buf) <- readArray read_ProposedAccountMeta buf ;;
    '(data, buf) <- readArray (fun b => '(v, r) <- readU8 b ;; Ok (byte_of_N v, r)) buf ;;
    Ok (ProposedInstruction.mk program_id accounts data, buf).

Definition read_ProposalState : Reader ProposalState.t :=
  fun buf =>
    '(members, buf) <- readU64 buf ;;
    '(current_weight, buf) <- readU32 buf ;;
    Ok (ProposalState.mk members current_weight, buf).

Definition read_ProposalConfig : Reader ProposalConfig.t :=
  fun buf =>
    '(group, buf) <- readFixedArray 32 buf ;;
    '(instruction, buf) <- read_ProposedInstruction buf ;;
    Ok (ProposalConfig.mk group instruction, buf).

Definition read_ProposalData : Reader ProposalData.t :=
  fun buf =>
    '(config, buf) <- read_ProposalConfig buf ;;
    '(state, buf) <- read_ProposalState buf ;;
    Ok (ProposalData.mk config state, buf).

(* ===================================================================== *)
(** ** web3.js: public keys, instructions, account information *)
(* ===================================================================== *)

(** Big-endian value of a byte string, as [new BN(bytes)] reads it. *)
Definition be_value (b : list byte) : N :=
  fold_left (fun acc x => acc * 256 + Byte.to_N x)%N b 0%N.

Module PublicKey.

(** A [PublicKey] wraps a big number; the constructor keeps it below
    2^256 (at most 32 bytes). *)
Record t : Type := mk { bn : N }.

(** [new PublicKey(value)] on a byte array. *)
Definition new (value : list byte) : Result t :=
  let n := be_value value in
  if (n <? 2 ^ 256)%N then Ok (mk n) else Throws (Error "Invalid public key input").

(** [a.equals(b)]: the numbers are compared. *)
Definition equals (a b : t) : bool := (bn a =? bn b)%N.

(** [k.toBuffer()]: 32 bytes, big-endian, zero-padded on the left. *)
Definition toBuffer (k : t) : list byte := rev (Borsh.le_bytes 32 (bn k)).

End PublicKey.

Module SystemProgram.
(** The system program's address, the base58 string of thirty-two [1]s:
    thirty-two zero bytes. *)
Definition programId : PublicKey.t := PublicKey.mk 0.
End SystemProgram.

Module AccountMeta.
Record t : Type := mk { pubkey : PublicKey.t; isSigner : bool; isWritable : bool }.
End AccountMeta.

Module TransactionInstruction.
Record t : Type := mk
  { keys : list AccountMeta.t; programId : PublicKey.t; data : list byte }.
End TransactionInstruction.

Module AccountInfo.
Record t : Type := mk
  { executable : bool; owner : PublicKey.t; lamports : N; data : list byte }.
End AccountInfo.

(** The program-address derivation of web3.js, for running the client on
    concrete inputs. *)
Module Web3.

(** The SHA-256 digest of a byte string. *)
Definition sha256 (data : list byte) : list byte :=
  CryptoJS.bytes
    (CryptoJS.SHA256 {| CryptoJS.words := pack_be data;
                        CryptoJS.sigBytes := length data |}).

(** The field of ed25519 and the constants [D] and [I] of the curve check. *)
Definition p25519 : Z := 2 ^ 255 - 19.
Definition D : Z :=
  0x52036cee2b6ffe738cc740797779e89800700a4d4141d8ab75eb4dca135978a3.
Definition I : Z :=
  0x2b8324804fc1df0b2b4d00993dfbd7a72f431806ad2fe478c4ee1b274a0ea0b0.

(** Reduction modulo [p25519], for values below 2^512: the bits from 255
    up are folded back in, times 19, twice; one subtraction is then
    enough. *)
Definition fold255 (x : Z) : Z := Z.land x (Z.ones 255) + 19 * Z.shiftr x 255.

Definition reduce (x : Z) : Z :=
  let z := fold255 (fold255 x) in if z <? p25519 then z else z - p25519.

(** Field operations: [M], [Sq], [A] and [Sb] multiply, square, add and subtract. *)
Definition M (a b : Z) : Z := reduce (a * b).
Definition Sq (a : Z) : Z := M a a.
Definition A (a b : Z) : Z := reduce (a + b).
Definition Sb (a b : Z) : Z := reduce (a + (p25519 - b)).

Fixpoint pow (b : Z) (e : positive) : Z :=
  match e with
  | xH => reduce b
  | xO e' => Sq (pow b e')
  | xI e' => M (Sq (pow b e')) b
  end.

(** [pow2523]: the power [2^252 - 3]. *)
Definition pow2523 (a : Z) : Z := pow a (Z.to_pos (2 ^ 252 - 3)).

(** [is_on_curve(p)]: whether the 32 bytes hold the [y] coordinate of a
    point of the curve (the top bit is dropped): [num / den], with
    [num = y^2 - 1] and [den = D y^2 + 1], has a square root. *)
Definition is_on_curve (p : list byte) : bool :=
  let y := reduce (Z.land (Z.of_N (Borsh.le_value p)) (Z.ones 255)) in
  let num := Sq y in
  let den := M num D in
  let num := Sb num 1 in
  let den := A 1 den in
  let den2 := Sq den in
  let den4 := Sq den2 in
  let den6 := M den4 den2 in
  let t := M den6 num in
  let t := M t den in
  let t := pow2523 t in
  let t := M t num in
  let t := M t den in
  let t := M t den in
  let r0 := M t den in
  let chk := M (Sq r0) den in
  let r0 := if chk =? num then r0 else M r0 I in
  let chk := M (Sq r0) den in
  chk =? num.

Definition MAX_SEED_LENGTH : nat := 32.

Definition createProgramAddress (seeds : list (list byte)) (programId : PublicKey.t)
  : Result PublicKey.t :=
  if existsb (fun seed => Nat.ltb MAX_SEED_LENGTH (length seed)) seeds
  then Throws (Error "Max seed length exceeded")
  else
    let buffer := concat seeds ++ PublicKey.toBuffer programId
                  ++ list_byte_of_string "ProgramDerivedAddress" in
    let publicKeyBytes := sha256 buffer in
    if is_on_curve publicKeyBytes
    then Throws (Error "Invalid seeds, address must fall off the curve")
    else PublicKey.new publicKeyBytes.

(** The nonces [nonce, nonce - 1, .., 1] are tried in turn. *)
Fixpoint findProgramAddress_from (nonce : nat) (seeds : list (list byte))
         (programId : PublicKey.t) : Result (PublicKey.t * N) :=
  match nonce with
  | O => Throws (Error "Unable to find a viable program address nonce")
  | S n =>
      match createProgramAddress (seeds ++ [[byte_of_N (N.of_nat nonce)]]) programId with
      | Ok address => Ok (address, N.of_nat nonce)
      | Throws _ => findProgramAddress_from n seeds programId
      end
  end.

Definition findProgramAddress : list (list byte) -> PublicKey.t
                                -> Result (PublicKey.t * N) :=
  findProgramAddress_from 255.

End Web3.

(* ===================================================================== *)
(** ** multisig.ts: constants and helpers *)
(* ===================================================================== *)

Module PDA_TAG.
Definition group : list byte := [x00].
Definition proposal : list byte := [x01].
Definition protected : list byte := [x02].
End PDA_TAG.

Module ACCOUNT_TYPE_TAG.
Definition group : N := 0.
Definition proposal : N := 1.
End ACCOUNT_TYPE_TAG.

Definition checkAccountType (data : list byte) (expected : N) : Result unit :=
  match data with
  | [] => Throws (Throw "account data is empty")
  | data0 :: _ =>
      if negb (Byte.to_N data0 =? expected)%N
      then Throws (Throw "invalid account type")
      else Ok tt
  end.

Fixpoint anyNonZero (buffer : list byte) : bool :=
  match buffer with
  | [] => false
  | byte :: rest => if negb (Byte.to_N byte =? 0)%N then true else anyNonZero rest
  end.

(* ===================================================================== *)
(** ** multisig.ts: the class [MultiSig] *)
(* ===================================================================== *)

Module MultiSig.
Record t : Type := mk { programId : PublicKey.t }.
End MultiSig.

Section MultiSigMethods.

(** [PublicKey.findProgramAddress(seeds, programId)], which returns the
    address and the nonce found, or throws. *)
Variable findProgramAddress :
  list (list byte) -> PublicKey.t -> Result (PublicKey.t * N).

Variable this : MultiSig.t.

Definition groupAccountKey (groupData : GroupData.t) : Result PublicKey.t :=
  serializedGroup <- serialize_GroupData groupData ;;
  let hash_str :=
    CryptoJS.toString (CryptoJS.SHA256 (byteArrayToWordArray serializedGroup)) in
  let hash := Buffer_from_hex hash_str in
  '(groupKey, _nonce) <-
    findProgramAddress [PDA_TAG.group; hash] (MultiSig.programId this) ;;
  Ok groupKey.

Definition protectedAccountKey (groupAccountKey : PublicKey.t) : Result PublicKey.t :=
  '(protectedAccount, _nonce) <-
    findProgramAddress [PDA_TAG.protected; PublicKey.toBuffer groupAccountKey]
                       (MultiSig.programId this) ;;
  Ok protectedAccount.

Definition proposalAccountKey (proposalConfig : ProposalConfig.t) : Result PublicKey.t :=
  serializedProposedConfig <- serialize_ProposalConfig proposalConfig ;;
  let hash_str :=
    CryptoJS.toString
      (CryptoJS.SHA256 (byteArrayToWordArray serializedProposedConfig)) in
  let hash := Buffer_from_hex hash_str in
  '(proposalKey, _nonce2) <-
    findProgramAddress [PDA_TAG.proposal; hash] (MultiSig.programId this) ;;
  Ok proposalKey.

Definition groupAccountSpace (groupData : GroupData.t) : Result nat :=
  serializedGroup <- serialize_GroupData groupData ;;
  Ok (length serializedGroup + 1)%nat.

Definition proposalAccountSpace (config : ProposalConfig.t) : Result nat :=
  let mockState := ProposalState.mk 1 1 in
  serialized <- serialize_ProposalData (ProposalData.mk config mockState) ;;
  Ok (length serialized + 4 + 1)%nat.

Definition readGroupAccountData (info : AccountInfo.t) : Result GroupData.t :=
  if negb (PublicKey.equals (AccountInfo.owner info) (MultiSig.programId this))
  then Throws (Throw "error: invalid account owner")
  else
    _ <- checkAccountType (AccountInfo.data info) ACCOUNT_TYPE_TAG.group ;;
    deserialize read_GroupData (skipn 1 (AccountInfo.data info)).

Definition readProposalAccountData (info : AccountInfo.t) : Result ProposalData.t :=
  if negb (PublicKey.equals (AccountInfo.owner info) (MultiSig.programId this))
  then Throws (Throw "error: invalid account owner")
  else if negb (anyNonZero (AccountInfo.data info))
  then Throws (Throw "data is zero (proposal may be complete)")
  else
    _ <- checkAccountType (AccountInfo.data info) ACCOUNT_TYPE_TAG.proposal ;;
    deserialize read_ProposalData (skipn 1 (AccountInfo.data info)).

Definition init (data : InitInstruction.t) (payerAccountKey : PublicKey.t)
  : Result TransactionInstruction.t :=
  let instructionData := InstructionData.init data in
  instructionBuffer <- serialize_InstructionData instructionData ;;
  groupAccountKey <- groupAccountKey (InitInstruction.group_data data) ;;
  protectedAccountKey <- protectedAccountKey groupAccountKey ;;
  Ok (TransactionInstruction.mk
        [ AccountMeta.mk payerAccountKey true true;
          AccountMeta.mk groupAccountKey false true;
          AccountMeta.mk SystemProgram.programId false false;
          AccountMeta.mk protectedAccountKey false true ]
        (MultiSig.programId this)
        instructionBuffer).

(** The callback mapped over the proposed instruction's accounts, in
    [propose] and in [approve]. *)
Definition remapAccount (protectedAccountKey : PublicKey.t)
           (account : ProposedAccountMeta.t) : Result AccountMeta.t :=
  pubkey <- PublicKey.new (ProposedAccountMeta.pubkey account) ;;
  other <- PublicKey.new (ProposedAccountMeta.pubkey account) ;;
  Ok (AccountMeta.mk
        pubkey
        (if PublicKey.equals protectedAccountKey other
         then false
         else ProposedAccountMeta.is_signer account)
        (ProposedAccountMeta.is_writable account)).

Definition propose (data : ProposeInstruction.t)
           (groupAccountKey signerAccountKey : PublicKey.t)
  : Result TransactionInstruction.t :=
  let proposalConfig :=
    ProposalConfig.mk (PublicKey.toBuffer groupAccountKey)
                      (ProposeInstruction.instruction data) in
  proposalKey <- proposalAccountKey proposalConfig ;;
  protectedAccountKey <- protectedAccountKey groupAccountKey ;;
  let instructionData := InstructionData.propose data in
  buffer <- serialize_InstructionData instructionData ;;
  target <- PublicKey.new
              (ProposedInstruction.program_id (ProposeInstruction.instruction data)) ;;
  rest <- mapM (remapAccount protectedAccountKey)
               (ProposedInstruction.accounts (ProposeInstruction.instruction data)) ;;
  Ok (TransactionInstruction.mk
        ([ AccountMeta.mk signerAccountKey true true;
           AccountMeta.mk groupAccountKey false true;
           AccountMeta.mk proposalKey false true;
           AccountMeta.mk SystemProgram.programId false false;
           AccountMeta.mk target false false ] ++ rest)
        (MultiSig.programId this)
        buffer).

Definition approve (proposalAccountKey : PublicKey.t)
           (proposalConfig : ProposalConfig.t) (signerAccountKey : PublicKey.t)
  : Result TransactionInstruction.t :=
  groupAccountKey <- PublicKey.new (ProposalConfig.group proposalConfig) ;;
  protectedAccountKey <- protectedAccountKey groupAccountKey ;;
  let instructionData := InstructionData.approve ApproveInstruction.mk in
  buffer <- serialize_InstructionData instructionData ;;
  target <- PublicKey.new
              (ProposedInstruction.program_id (ProposalConfig.instruction proposalConfig)) ;;
  rest <- mapM (remapAccount protectedAccountKey)
               (ProposedInstruction.accounts (ProposalConfig.instruction proposalConfig)) ;;
  Ok (TransactionInstruction.mk
        ([ AccountMeta.mk signerAccountKey true true;
           AccountMeta.mk groupAccountKey false true;
           AccountMeta.mk proposalAccountKey false true;
           AccountMeta.mk target false false ] ++ rest)
        (MultiSig.programId this)
        buffer).

End MultiSigMethods.

(* ===================================================================== *)
(** ** Notions used by the statements *)
(* ===================================================================== *)

(** A result that, when it is an exception, is a [BorshError]. *)
Definition throws_only_BorshError {A : Type} (r : Result A) : Prop :=
  forall e, r = Throws e -> e = BorshError.

(** A group as the data model has it: 32-byte member keys, weights,
    threshold and member count within 32 bits. *)
Definition wf_GroupMember (m : GroupMember.t) : Prop :=
  length (GroupMember.publicKey m) = 32%nat /\ (GroupMember.weight m < 2 ^ 32)%N.

Definition wf_GroupData (g : GroupData.t) : Prop :=
  Forall wf_GroupMember (GroupData.members g)
  /\ (N.of_nat (length (GroupData.members g)) < 2 ^ 32)%N
  /\ (GroupData.threshold g < 2 ^ 32)%N.

(** The variant's own encoding, and its position in the schema's [values]. *)
Definition variant_encoding (d : InstructionData.t) : Result (list byte) :=
  match d with
  | InstructionData.init i => serialize_InitInstruction i
  | InstructionData.propose p => serialize_ProposeInstruction p
  | InstructionData.approve a => serialize_ApproveInstruction a
  end.

Definition variant_index (d : InstructionData.t) : N :=
  match d with
  | InstructionData.init _ => 0
  | InstructionData.propose _ => 1
  | InstructionData.approve _ => 2
  end.

(** What the mapped callback makes of an account with a 32-byte key. *)
Definition remapped (protectedAccountKey : PublicKey.t)
           (account : ProposedAccountMeta.t) : AccountMeta.t :=
  let pubkey := PublicKey.mk (be_value (ProposedAccountMeta.pubkey account)) in
  AccountMeta.mk
    pubkey
    (if PublicKey.equals protectedAccountKey pubkey
     then false
     else ProposedAccountMeta.is_signer account)
    (ProposedAccountMeta.is_writable account).

(** An emitted entry [meta] is the supplied [account] with the signer flag
    rewritten against [protectedAccountKey]. *)
Definition rewritten (protectedAccountKey : PublicKey.t)
           (account : ProposedAccountMeta.t) (meta : AccountMeta.t) : Prop :=
  PublicKey.new (ProposedAccountMeta.pubkey account) = Ok (AccountMeta.pubkey meta)
  /\ AccountMeta.isSigner meta
     = (if PublicKey.equals protectedAccountKey (AccountMeta.pubkey meta)
        then false
        else ProposedAccountMeta.is_signer account)
  /\ AccountMeta.isWritable meta = ProposedAccountMeta.is_writable account.

(** No entry at the protected account's address is a signer. *)
Definition protected_never_signs (protectedAccountKey : PublicKey.t)
           (keys : list AccountMeta.t) : Prop :=
  Forall (fun meta =>
            PublicKey.equals protectedAccountKey (AccountMeta.pubkey meta) = true ->
            AccountMeta.isSigner meta = false) keys.

(** The five leading entries of [propose] and the four of [approve]. *)
Definition propose_head (signer group proposal target : PublicKey.t)
  : list AccountMeta.t :=
  [ AccountMeta.mk signer true true;
    AccountMeta.mk group false true;
    AccountMeta.mk proposal false true;
    AccountMeta.mk SystemProgram.programId false false;
    AccountMeta.mk target false false ].

Definition approve_head (signer group proposal target : PublicKey.t)
  : list AccountMeta.t :=
  [ AccountMeta.mk signer true true;
    AccountMeta.mk group false true;
    AccountMeta.mk proposal false true;
    AccountMeta.mk target false false ].

(** The derivation as the specification words it: the digest of the
    canonical bytes is taken, then the program address of
    [(seed_tag, digest, program_identity)]. *)
Definition spec_derive (fpa : list (list byte) -> PublicKey.t -> Result (PublicKey.t * N))
           (seed_tag : list byte) (canonical_bytes : list byte)
           (program_identity : PublicKey.t) : Result PublicKey.t :=
  '(address, _) <- fpa [seed_tag; Web3.sha256 canonical_bytes] program_identity ;;
  Ok address.

(* ===================================================================== *)
(** ** A concrete run *)
(* ===================================================================== *)

(** A run of the client: a group of two members with weight 1 and
    threshold 2, and the proposal to transfer 1000000 lamports from the
    group's protected account to [C]. *)
Module Scenario.

Definition this : MultiSig.t := MultiSig.mk (PublicKey.mk 2).

Definition A : PublicKey.t := PublicKey.mk 1001.
Definition B : PublicKey.t := PublicKey.mk 2000.
Definition C : PublicKey.t := PublicKey.mk 3003.

Definition group : GroupData.t :=
  GroupData.mk [ GroupMember.mk (PublicKey.toBuffer A) 1;
                 GroupMember.mk (PublicKey.toBuffer B) 1 ] 2.

(** The group's address, its protected account and the proposal's address. *)
Definition G : PublicKey.t := PublicKey.mk
  20372564123336482558608226752207362157104002565152014457211662095615704554005.
Definition P : PublicKey.t := PublicKey.mk
  23388666459599406714557051452935772654336398118014644403701549083193980970321.
Definition K : PublicKey.t := PublicKey.mk
  29267206267481256628208685749889802027875352797993165961046784584446934667707.

(** The address that hashing the group's address first would give. *)
Definition Q : PublicKey.t := PublicKey.mk
  104521231210521646750500299884235820620272469282619385461674469003650576247348.

(** The system program's transfer: instruction index 2, then the amount. *)
Definition transfer : ProposedInstruction.t :=
  ProposedInstruction.mk
    (PublicKey.toBuffer SystemProgram.programId)
    [ ProposedAccountMeta.mk (PublicKey.toBuffer P) true true;
      ProposedAccountMeta.mk (PublicKey.toBuffer C) false true ]
    (le_bytes 4 2 ++ le_bytes 8 1000000).

Definition proposeData : ProposeInstruction.t := ProposeInstruction.mk transfer 2000000.

Definition config : ProposalConfig.t := ProposalConfig.mk (PublicKey.toBuffer G) transfer.

(** The payload of the propose instruction. *)
Definition proposeBuffer : list byte :=
  Eval vm_compute in
    match serialize_InstructionData (InstructionData.propose proposeData) with
    | Ok buffer => buffer
    | Throws _ => []
    end.

End Scenario.

(** Account data as read from the chain, owned by the scenario's program. *)
Definition account (data : list byte) : AccountInfo.t :=
  AccountInfo.mk false (MultiSig.programId Scenario.this) 0 data.

(** The overhead that [proposalAccountSpace] adds to an encoding: 4 for the
    length and 1 for the tag. *)
Definition length_and_tag_overhead : nat := 4 + 1.

(** Groups of 0, 1 and 5 members. *)
Definition groupOf (n : nat) : GroupData.t :=
  GroupData.mk (repeat (GroupMember.mk (PublicKey.toBuffer Scenario.A) 1) n) 1.

(* ===================================================================== *)
(** ** schema.ts: the constructors' [PublicKey] branch *)
(* ===================================================================== *)

(** [new GroupMember(publicKey, weight)] *)
Definition new_GroupMember (publicKey : PublicKey.t) (weight : N) : GroupMember.t :=
  GroupMember.mk (PublicKey.toBuffer publicKey) weight.

(** [new ProtectedAccountConfig(lamports, space, owner)] *)
Definition new_ProtectedAccountConfig (lamports space : N) (owner : PublicKey.t)
  : ProtectedAccountConfig.t :=
  ProtectedAccountConfig.mk lamports space (PublicKey.toBuffer owner).

(** [new ProposedAccountMeta(pubkey, is_signer, is_writable)] *)
Definition new_ProposedAccountMeta (pubkey : PublicKey.t) (is_signer is_writable : bool)
  : ProposedAccountMeta.t :=
  ProposedAccountMeta.mk (PublicKey.toBuffer pubkey) is_signer is_writable.

(** [new ProposedInstruction(programId, accounts, data)] *)
Definition new_ProposedInstruction (program_id : PublicKey.t)
           (accounts : list ProposedAccountMeta.t) (data : list byte)
  : ProposedInstruction.t :=
  ProposedInstruction.mk (PublicKey.toBuffer program_id) accounts data.

(* ===================================================================== *)
(** ** web3.js: public keys from base58 strings, sysvar addresses *)
(* ===================================================================== *)

Definition base58_alphabet : string :=
  "123456789ABCDEFGHJKLMNPQRSTUVWXYZabcdefghijkmnopqrstuvwxyz".

Fixpoint base58_digit_from (alphabet : string) (c : ascii) (i : N) : option N :=
  match alphabet with
  | EmptyString => None
  | String a rest => if Ascii.eqb a c then Some i else base58_digit_from rest c (i + 1)%N
  end.

Fixpoint base58_value (s : string) (acc : N) : option N :=
  match s with
  | EmptyString => Some acc
  | String c rest =>
      match base58_digit_from base58_alphabet c 0 with
      | Some d => base58_value rest (acc * 58 + d)%N
      | None => None
      end
  end.

Fixpoint base58_leading_ones (s : string) : nat :=
  match s with
  | String "1" rest => S (base58_leading_ones rest)
  | _ => 0%nat
  end.

(** [bs58.decode]: one zero byte per leading [1], then the big-endian bytes
    of the number the string writes in base 58. *)
Definition bs58_decode (s : string) : option (list byte) :=
  match base58_value s 0 with
  | Some n =>
      Some (repeat x00 (base58_leading_ones s)
            ++ rev (le_bytes (Nat.div (N.size_nat n + 7) 8) n))
  | None => None
  end.

(** [new PublicKey(value)] on a string. *)
Definition PublicKey_fromString (value : string) : Result PublicKey.t :=
  match bs58_decode value with
  | Some decoded =>
      if Nat.eqb (length decoded) 32
      then Ok (PublicKey.mk (be_value decoded))
      else Throws (Error "Invalid public key input")
  | None => Throws (Error "Non-base58 character")
  end.

Definition PublicKey_constant (value : string) : PublicKey.t :=
  match PublicKey_fromString value with
  | Ok k => k
  | Throws _ => PublicKey.mk 0
  end.

Definition SYSVAR_RENT_PUBKEY : PublicKey.t :=
  Eval vm_compute in PublicKey_constant "SysvarRent111111111111111111111111111111111".

Definition SYSVAR_CLOCK_PUBKEY : PublicKey.t :=
  Eval vm_compute in PublicKey_constant "SysvarC1ock11111111111111111111111111111111".

(** [Account]: a key pair, of which the client uses the public key. *)
Module Account.
Record t : Type := mk { publicKey : PublicKey.t }.
End Account.

(** A [Transaction] is the list of its instructions; [add] appends. *)
Definition Transaction : Type := list TransactionInstruction.t.

(* ===================================================================== *)
(** ** The network and the instruction builders of web3.js and spl-token *)
(* ===================================================================== *)

(** What the client asks of a [Connection]. *)
Module Connection.
Record t : Type := mk
  { getMinimumBalanceForRentExemption : nat -> Result N;
    getAccountInfo : PublicKey.t -> Result (option AccountInfo.t);
    (** [splToken.Token.getMinBalanceRentForExemptAccount(connection)] *)
    getMinBalanceRentForExemptAccount : Result N;
    (** [sendAndConfirmTransaction(connection, transaction, signers, ..)] *)
    sendAndConfirmTransaction : Transaction -> list Account.t -> Result unit }.
End Connection.

(** The builders the client calls, with their arguments in the order of
    the call (for the two that take an object, in the order the fields are
    written). *)
Module Builders.
Record t : Type := mk
  { (** [SystemProgram.createAccount({fromPubkey, newAccountPubkey, lamports,
        space, programId})] *)
    createAccount :
      PublicKey.t -> PublicKey.t -> N -> N -> PublicKey.t -> Result TransactionInstruction.t;
    (** [SystemProgram.transfer({fromPubkey, toPubkey, lamports})] *)
    transfer : PublicKey.t -> PublicKey.t -> N -> Result TransactionInstruction.t;
    (** [SystemProgram.createAccountWithSeed({basePubkey, fromPubkey,
        newAccountPubkey, lamports, programId, seed, space})] *)
    createAccountWithSeed :
      PublicKey.t -> PublicKey.t -> PublicKey.t -> N -> PublicKey.t -> string -> N ->
      Result TransactionInstruction.t;
    (** [PublicKey.createWithSeed(fromPublicKey, seed, programId)] *)
    createWithSeed : PublicKey.t -> string -> PublicKey.t -> Result PublicKey.t;
    TOKEN_PROGRAM_ID : PublicKey.t;
    (** [splToken.AccountLayout.span] *)
    AccountLayout_span : N;
    (** [Token.createSetAuthorityInstruction(programId, account, newAuthority,
        authorityType, currentAuthority, multiSigners)] *)
    createSetAuthorityInstruction :
      PublicKey.t -> PublicKey.t -> PublicKey.t -> string -> PublicKey.t ->
      list Account.t -> Result TransactionInstruction.t;
    (** [Token.createMintToInstruction(programId, mint, dest, authority,
        multiSigners, amount)] *)
    createMintToInstruction :
      PublicKey.t -> PublicKey.t -> PublicKey.t -> PublicKey.t -> list Account.t -> N ->
      Result TransactionInstruction.t;
    (** [Token.createTransferInstruction(programId, source, destination,
        owner, multiSigners, amount)] *)
    createTransferInstruction :
      PublicKey.t -> PublicKey.t -> PublicKey.t -> PublicKey.t -> list Account.t -> N ->
      Result TransactionInstruction.t;
    (** [Token.createInitAccountInstruction(programId, mint, account, owner)] *)
    createInitAccountInstruction :
      PublicKey.t -> PublicKey.t -> PublicKey.t -> PublicKey.t ->
      Result TransactionInstruction.t }.
End Builders.

(* ===================================================================== *)
(** ** loader.ts *)
(* ===================================================================== *)

Definition UPGRADEABLE_BPF_LOADER_PROGRAM_ID : PublicKey.t :=
  Eval vm_compute in PublicKey_constant "BPFLoaderUpgradeab1e11111111111111111111111".

Definition CHUNK_SIZE : nat := 900.

(** The loader's instructions, as the objects passed to [encodeInstruction]:
    [{InitializeBuffer: {}}], [{Write: {offset, bytes}}],
    [{DeployWithMaxDataLen: {max_data_len}}], [{Upgrade: {}}],
    [{SetAuthority: {}}], [{Close: {}}]. *)
Inductive LoaderInstruction : Type :=
| InitializeBuffer
| Write (offset : N) (bytes : list byte)
| DeployWithMaxDataLen (max_data_len : N)
| Upgrade
| SetAuthority
| Close.

(** A [Buffer] of fixed length: a write that does not fit throws. *)
Definition Buffer_alloc (size : nat) : list byte := repeat x00 size.

Definition Buffer_write (b : list byte) (offset : nat) (src : list byte)
  : Result (list byte) :=
  if Nat.leb (offset + length src) (length b)
  then Ok (firstn offset b ++ src ++ skipn (offset + length src) b)
  else Throws RangeError.

(** [b.writeUIntLE(src, offset, 4)], the encoder of [BufferLayout.u32]. *)
Definition Buffer_writeU32 (b : list byte) (offset : nat) (src : N) : Result (list byte) :=
  if (src <? 2 ^ 32)%N then Buffer_write b offset (le_bytes 4 src) else Throws RangeError.

(** The encoder of [BufferLayout.nu64]: the low and the high 32 bits. *)
Definition Buffer_writeNU64 (b : list byte) (offset : nat) (src : N) : Result (list byte) :=
  b <- Buffer_writeU32 b offset (src mod 2 ^ 32) ;;
  Buffer_writeU32 b (offset + 4) (src / 2 ^ 32).

(** The encoder of [BufferLayout.seq(BufferLayout.u8(), ..)]: one byte after
    the other from [offset] on. *)
Fixpoint Buffer_writeBytes (b : list byte) (offset : nat) (src : list byte)
  : Result (list byte) :=
  match src with
  | [] => Ok b
  | v :: rest => b <- Buffer_write b offset [v] ;; Buffer_writeBytes b (S offset) rest
  end.

(** [encodeInstruction]: the union writes the variant's tag as a [u32] at 0
    and the variant's struct from 4 on.  In [Write], [offset] is at 4, the
    [nu64] field [length] at 8 is not in the object and is left as
    allocated, the bytes start at 16 and their count is written as a [u32]
    eight bytes before them, at 8.  The result is the buffer up to the
    encoded size. *)
Definition encodeInstruction (data : LoaderInstruction) : Result (list byte) :=
  let instructionBuffer := Buffer_alloc (4 + 4 + 8 + CHUNK_SIZE) in
  match data with
  | InitializeBuffer =>
      b <- Buffer_writeU32 instructionBuffer 0 0 ;; Ok (firstn 4 b)
  | Write offset bytes =>
      b <- Buffer_writeU32 instructionBuffer 0 1 ;;
      b <- Buffer_writeU32 b 4 offset ;;
      b <- Buffer_writeBytes b 16 bytes ;;
      b <- Buffer_writeU32 b 8 (N.of_nat (length bytes)) ;;
      Ok (firstn (4 + (4 + 8 + length bytes)) b)
  | DeployWithMaxDataLen max_data_len =>
      b <- Buffer_writeU32 instructionBuffer 0 2 ;;
      b <- Buffer_writeNU64 b 4 max_data_len ;;
      Ok (firstn (4 + 8) b)
  | Upgrade =>
      b <- Buffer_writeU32 instructionBuffer 0 3 ;; Ok (firstn 4 b)
  | SetAuthority =>
      b <- Buffer_writeU32 instructionBuffer 0 4 ;; Ok (firstn 4 b)
  | Close =>
      b <- Buffer_writeU32 instructionBuffer 0 5 ;; Ok (firstn 4 b)
  end.

Module Loader.

Definition chunkSize : nat := CHUNK_SIZE.

(** [Math.ceil(dataLength / Loader.chunkSize)] *)
Definition ceil_div (a b : nat) : nat :=
  (Nat.div a b + if Nat.eqb (Nat.modulo a b) 0 then 0 else 1)%nat.

Definition getMinNumSignatures (dataLength : nat) : nat :=
  (2 * (ceil_div dataLength chunkSize + 1 + 1))%nat.

(** The write loop of [deploy]: while bytes are left, a transaction with
    one [Write] instruction for the next [chunkSize] bytes at [offset] is
    sent, signed by the payer and the authority.  The result lists what was
    sent, in order.  Every round takes at least one byte, so [fuel] rounds
    are enough when [fuel] is the number of bytes; [None] is for fuel that
    ran out. *)
Fixpoint deploy_writes (fuel : nat) (connection : Connection.t)
         (payer authority : Account.t) (buffer : PublicKey.t)
         (offset : N) (array : list byte)
  : option (Result (list (Transaction * list Account.t))) :=
  match array with
  | [] => Some (Ok [])
  | _ :: _ =>
      match fuel with
      | O => None
      | S fuel' =>
          let bytes := firstn chunkSize array in
          match encodeInstruction (Write offset bytes) with
          | Throws e => Some (Throws e)
          | Ok data =>
              let transaction :=
                [ TransactionInstruction.mk
                    [ AccountMeta.mk buffer false true;
                      AccountMeta.mk (Account.publicKey authority) true false ]
                    UPGRADEABLE_BPF_LOADER_PROGRAM_ID
                    data ] in
              match Connection.sendAndConfirmTransaction connection transaction
                      [payer; authority] with
              | Throws e => Some (Throws e)
              | Ok _ =>
                  match deploy_writes fuel' connection payer authority buffer
                                      (offset + N.of_nat chunkSize)
                                      (skipn chunkSize array) with
                  | Some (Ok rest) => Some (Ok ((transaction, [payer; authority]) :: rest))
                  | other => other
                  end
              end
          end
      end
  end.

Section LoaderInstructions.

Variable findProgramAddress :
  list (list byte) -> PublicKey.t -> Result (PublicKey.t * N).

Definition upgradeInstruction (program buffer spillAddress authority : PublicKey.t)
  : Result TransactionInstruction.t :=
  '(programDataKey, _nonce) <-
    findProgramAddress [PublicKey.toBuffer program] UPGRADEABLE_BPF_LOADER_PROGRAM_ID ;;
  data <- encodeInstruction Upgrade ;;
  Ok (TransactionInstruction.mk
        [ AccountMeta.mk programDataKey false true;
          AccountMeta.mk program false true;
          AccountMeta.mk buffer false true;
          AccountMeta.mk spillAddress false true;
          AccountMeta.mk SYSVAR_RENT_PUBKEY false false;
          AccountMeta.mk SYSVAR_CLOCK_PUBKEY false false;
          AccountMeta.mk authority true false ]
        UPGRADEABLE_BPF_LOADER_PROGRAM_ID
        data).

Definition setUpgradeAuthorityInstruction
           (program currentAuthority newAuthority : PublicKey.t)
  : Result TransactionInstruction.t :=
  '(programDataKey, _nonce) <-
    findProgramAddress [PublicKey.toBuffer program] UPGRADEABLE_BPF_LOADER_PROGRAM_ID ;;
  data <- encodeInstruction SetAuthority ;;
  Ok (TransactionInstruction.mk
        [ AccountMeta.mk programDataKey false true;
          AccountMeta.mk currentAuthority true false;
          AccountMeta.mk newAuthority false false ]
        UPGRADEABLE_BPF_LOADER_PROGRAM_ID
        data).

End LoaderInstructions.

End Loader.
(* ===================================================================== *)
(** ** tokens.ts *)
(* ===================================================================== *)

Definition createTokenAccount (builders : Builders.t) (connection : Connection.t)
           (protectedGroupKey mint : PublicKey.t) (seed : string)
  : Result (list TransactionInstruction.t) :=
  balanceNeeded <- Connection.getMinBalanceRentForExemptAccount connection ;;
  resultingTokenAddress <-
    Builders.createWithSeed builders protectedGroupKey seed
                            (Builders.TOKEN_PROGRAM_ID builders) ;;
  creationPropose <-
    Builders.createAccountWithSeed builders
      protectedGroupKey protectedGroupKey resultingTokenAddress balanceNeeded
      (Builders.TOKEN_PROGRAM_ID builders) seed (Builders.AccountLayout_span builders) ;;
  initPropose <-
    Builders.createInitAccountInstruction builders
      (Builders.TOKEN_PROGRAM_ID builders) mint resultingTokenAddress protectedGroupKey ;;
  Ok [creationPropose; initPropose].

(* ===================================================================== *)
(** ** The proposal and approval workflows *)
(* ===================================================================== *)

(** [PropositionType]: one interface per [PropositionKind]. *)
Module PropositionKind.
Inductive PropositionType : Type :=
| Create (lamports : N)
| Transfer (destination : PublicKey.t) (amount : N)
| Upgrade (buffer program : PublicKey.t)
| UpgradeMultisig (buffer : PublicKey.t)
| DelegateUpgradeAuthority (target newAuthority : PublicKey.t)
| DelegateMintAuthority (target newAuthority : PublicKey.t)
| DelegateTokenAuthority (target newAuthority : PublicKey.t)
| MintTo (mint destination : PublicKey.t) (amount : N)
| CreateTokenAccount (mint : PublicKey.t) (seed : string)
| TransferToken (source destination : PublicKey.t) (amount : N).
End PropositionKind.

Section Workflows.

Variable findProgramAddress :
  list (list byte) -> PublicKey.t -> Result (PublicKey.t * N).
Variable builders : Builders.t.
Variable connection : Connection.t.
Variable multisig : MultiSig.t.

(** One round of the loop of [proposeMulti]: the propose instruction for
    [instruction] and the address of its proposal. *)
Definition proposeMulti_round (signerAccount : Account.t) (groupAccount : PublicKey.t)
           (instruction : TransactionInstruction.t)
  : Result (TransactionInstruction.t * PublicKey.t) :=
  let proposedInstructionData :=
    new_ProposedInstruction
      (TransactionInstruction.programId instruction)
      (map (fun key => new_ProposedAccountMeta (AccountMeta.pubkey key)
                                               (AccountMeta.isSigner key)
                                               (AccountMeta.isWritable key))
           (TransactionInstruction.keys instruction))
      (TransactionInstruction.data instruction) in
  let proposalConfig :=
    ProposalConfig.mk (PublicKey.toBuffer groupAccount) proposedInstructionData in
  proposalKey <- proposalAccountKey findProgramAddress multisig proposalConfig ;;
  space <- proposalAccountSpace proposalConfig ;;
  rent <- Connection.getMinimumBalanceForRentExemption connection space ;;
  let proposeInstruction := ProposeInstruction.mk proposedInstructionData rent in
  ix <- propose findProgramAddress multisig proposeInstruction groupAccount
                (Account.publicKey signerAccount) ;;
  Ok (ix, proposalKey).

(** The loop of [proposeMulti]: it appends to [transaction] and pushes on
    [proposalKeys]. *)
Fixpoint proposeMulti_loop (signerAccount : Account.t) (groupAccount : PublicKey.t)
         (instructions : list TransactionInstruction.t)
         (transaction : Transaction) (proposalKeys : list PublicKey.t)
  : Result (Transaction * list PublicKey.t) :=
  match instructions with
  | [] => Ok (transaction, proposalKeys)
  | instruction :: rest =>
      '(ix, proposalKey) <- proposeMulti_round signerAccount groupAccount instruction ;;
      proposeMulti_loop signerAccount groupAccount rest
                        (transaction ++ [ix]) (proposalKeys ++ [proposalKey])
  end.

(** The transaction that [proposeMulti] sends, with the keys it returns. *)
Definition proposeMulti_transaction (signerAccount : Account.t) (groupAccount : PublicKey.t)
           (instructions : list TransactionInstruction.t)
  : Result (Transaction * list PublicKey.t) :=
  proposeMulti_loop signerAccount groupAccount instructions [] [].

Definition proposeMulti (signerAccount : Account.t) (groupAccount : PublicKey.t)
           (instructions : list TransactionInstruction.t) : Result (list PublicKey.t) :=
  '(transaction, proposalKeys) <-
    proposeMulti_transaction signerAccount groupAccount instructions ;;
  _ <- Connection.sendAndConfirmTransaction connection transaction [signerAccount] ;;
  Ok proposalKeys.

(** The instructions that [createProposal] builds for a proposition. *)
Definition proposedInstructions (protectedGroupAccount : PublicKey.t)
           (signerAccount : Account.t) (proposition : PropositionKind.PropositionType)
  : Result (list TransactionInstruction.t) :=
  match proposition with
  | PropositionKind.Create lamports =>
      ix <- Builders.createAccount builders (Account.publicKey signerAccount)
              protectedGroupAccount lamports 0 SystemProgram.programId ;;
      Ok [ix]
  | PropositionKind.Transfer destination amount =>
      ix <- Builders.transfer builders protectedGroupAccount destination amount ;;
      Ok [ix]
  | PropositionKind.Upgrade buffer program =>
      ix <- Loader.upgradeInstruction findProgramAddress program buffer
              protectedGroupAccount protectedGroupAccount ;;
      Ok [ix]
  | PropositionKind.UpgradeMultisig buffer =>
      ix <- Loader.upgradeInstruction findProgramAddress (MultiSig.programId multisig)
              buffer protectedGroupAccount protectedGroupAccount ;;
      Ok [ix]
  | PropositionKind.DelegateUpgradeAuthority target newAuthority =>
      ix <- Loader.setUpgradeAuthorityInstruction findProgramAddress target
              protectedGroupAccount newAuthority ;;
      Ok [ix]
  | PropositionKind.DelegateTokenAuthority target newAuthority =>
      ix <- Builders.createSetAuthorityInstruction builders
              (Builders.TOKEN_PROGRAM_ID builders) target newAuthority "AccountOwner"
              protectedGroupAccount [] ;;
      Ok [ix]
  | PropositionKind.DelegateMintAuthority target newAuthority =>
      ix <- Builders.createSetAuthorityInstruction builders
              (Builders.TOKEN_PROGRAM_ID builders) target newAuthority "MintTokens"
              protectedGroupAccount [] ;;
      Ok [ix]
  | PropositionKind.MintTo mint destination amount =>
      ix <- Builders.createMintToInstruction builders
              (Builders.TOKEN_PROGRAM_ID builders) mint destination
              protectedGroupAccount [] amount ;;
      Ok [ix]
  | PropositionKind.CreateTokenAccount mint seed =>
      createTokenAccount builders connection protectedGroupAccount mint seed
  | PropositionKind.TransferToken source destination amount =>
      ix <- Builders.createTransferInstruction builders
              (Builders.TOKEN_PROGRAM_ID builders) source destination
              protectedGroupAccount [] amount ;;
      Ok [ix]
  end.

Definition createProposal (groupAccount protectedGroupAccount : PublicKey.t)
           (signerAccount : Account.t) (proposition : PropositionKind.PropositionType)
  : Result (list PublicKey.t) :=
  instructions <- proposedInstructions protectedGroupAccount signerAccount proposition ;;
  proposeMulti signerAccount groupAccount instructions.

(** The body that [createApprove] and the loop of [createMultiApprove]
    share: the approve instruction for the proposal at [proposal]. *)
Definition approve_round (signer : Account.t) (proposal : PublicKey.t)
  : Result TransactionInstruction.t :=
  proposalAccountInfo <- Connection.getAccountInfo connection proposal ;;
  match proposalAccountInfo with
  | None => Throws (Throw "error: cannot find the proposal account")
  | Some proposalAccountInfo =>
      proposalData <- readProposalAccountData multisig proposalAccountInfo ;;
      groupAccount <-
        PublicKey.new (ProposalConfig.group (ProposalData.config proposalData)) ;;
      protectedAccount <- protectedAccountKey findProgramAddress multisig groupAccount ;;
      approve findProgramAddress multisig proposal
              (ProposalData.config proposalData) (Account.publicKey signer)
  end.

Definition createApprove_transaction (signer : Account.t) (proposal : PublicKey.t)
  : Result Transaction :=
  ix <- approve_round signer proposal ;;
  Ok [ix].

Definition createApprove (signer : Account.t) (proposal : PublicKey.t) : Result unit :=
  transaction <- createApprove_transaction signer proposal ;;
  Connection.sendAndConfirmTransaction connection transaction [signer].

Fixpoint createMultiApprove_loop (signer : Account.t) (proposals : list PublicKey.t)
         (transaction : Transaction) : Result Transaction :=
  match proposals with
  | [] => Ok transaction
  | proposalAccount :: rest =>
      ix <- approve_round signer proposalAccount ;;
      createMultiApprove_loop signer rest (transaction ++ [ix])
  end.

Definition createMultiApprove_transaction (signer : Account.t)
           (proposals : list PublicKey.t) : Result Transaction :=
  createMultiApprove_loop signer proposals [].

Definition createMultiApprove (signer : Account.t) (proposals : list PublicKey.t)
  : Result unit :=
  transaction <- createMultiApprove_transaction signer proposals ;;
  Connection.sendAndConfirmTransaction connection transaction [signer].

End Workflows.

(* ===================================================================== *)
(** ** Notions used by the statements on the workflows *)
(* ===================================================================== *)

(** [read] yields [x] from the bytes [b], and leaves what follows them. *)
Definition reads {A : Type} (read : Reader A) (x : A) (b : list byte) : Prop :=
  forall rest, read (b ++ rest) = Ok (x, rest).

(** The configuration that [proposeMulti] makes for an instruction. *)
Definition proposedConfig (groupAccount : PublicKey.t)
           (instruction : TransactionInstruction.t) : ProposalConfig.t :=
  ProposalConfig.mk
    (PublicKey.toBuffer groupAccount)
    (new_ProposedInstruction
       (TransactionInstruction.programId instruction)
       (map (fun key => new_ProposedAccountMeta (AccountMeta.pubkey key)
                                                (AccountMeta.isSigner key)
                                                (AccountMeta.isWritable key))
            (TransactionInstruction.keys instruction))
       (TransactionInstruction.data instruction)).

(** What one round of [proposeMulti] yields for [instruction]. *)
Definition proposed_for
           (fpa : list (list byte) -> PublicKey.t -> Result (PublicKey.t * N))
           (connection : Connection.t) (multisig : MultiSig.t)
           (signerAccount : Account.t) (groupAccount : PublicKey.t)
           (instruction : TransactionInstruction.t)
           (ix : TransactionInstruction.t) (proposalKey : PublicKey.t) : Prop :=
  exists configBytes instructionBytes rent,
    serialize_ProposalConfig (proposedConfig groupAccount instruction) = Ok configBytes
    /\ configBytes = PublicKey.toBuffer groupAccount ++ instructionBytes
    /\ proposalAccountKey fpa multisig (proposedConfig groupAccount instruction)
       = Ok proposalKey
    /\ Connection.getMinimumBalanceForRentExemption connection
         (length configBytes + 17) = Ok rent
    /\ TransactionInstruction.data ix = x01 :: instructionBytes ++ le_bytes 8 rent
    /\ nth_error (TransactionInstruction.keys ix) 0
       = Some (AccountMeta.mk (Account.publicKey signerAccount) true true)
    /\ nth_error (TransactionInstruction.keys ix) 2
       = Some (AccountMeta.mk proposalKey false true).



(** An instruction whose program and accounts are such keys. *)
Definition valid_instruction (instruction : TransactionInstruction.t) : Prop :=
  (PublicKey.bn (TransactionInstruction.programId instruction) < 2 ^ 256)%N
  /\ Forall (fun key => (PublicKey.bn (AccountMeta.pubkey key) < 2 ^ 256)%N)
            (TransactionInstruction.keys instruction).

(** The entry that a propose instruction has for an account [key] of the
    instruction it proposes. *)
Definition reproposed (protectedAccountKey : PublicKey.t) (key : AccountMeta.t)
  : AccountMeta.t :=
  AccountMeta.mk
    (AccountMeta.pubkey key)
    (if PublicKey.equals protectedAccountKey (AccountMeta.pubkey key)
     then false
     else AccountMeta.isSigner key)
    (AccountMeta.isWritable key).

(** What one round of [createMultiApprove] (and [createApprove]) yields
    for the proposal at [proposal]. *)
Definition approved_for
           (fpa : list (list byte) -> PublicKey.t -> Result (PublicKey.t * N))
           (connection : Connection.t) (multisig : MultiSig.t)
           (signer : Account.t) (proposal : PublicKey.t)
           (ix : TransactionInstruction.t) : Prop :=
  exists info proposalData group rest,
    Connection.getAccountInfo connection proposal = Ok (Some info)
    /\ readProposalAccountData multisig info = Ok proposalData
    /\ PublicKey.new (ProposalConfig.group (ProposalData.config proposalData)) = Ok group
    /\ TransactionInstruction.keys ix
       = [ AccountMeta.mk (Account.publicKey signer) true true;
           AccountMeta.mk group false true;
           AccountMeta.mk proposal false true ] ++ rest
    /\ TransactionInstruction.data ix = [x02]
    /\ TransactionInstruction.programId ix = MultiSig.programId multisig.

(** A proposal that cannot be approved: there is no account at its
    address, or the account is not the multisig program's, or its data is
    all zero. *)
Definition unapprovable (connection : Connection.t) (multisig : MultiSig.t)
           (proposal : PublicKey.t) : Prop :=
  Connection.getAccountInfo connection proposal = Ok None
  \/ exists info,
       Connection.getAccountInfo connection proposal = Ok (Some info)
       /\ (PublicKey.equals (AccountInfo.owner info) (MultiSig.programId multisig) = false
           \/ anyNonZero (AccountInfo.data info) = false).

(** The number of proposals that [createProposal] makes for a proposition. *)
Definition proposalCount (proposition : PropositionKind.PropositionType) : nat :=
  match proposition with
  | PropositionKind.CreateTokenAccount _ _ => 2
  | _ => 1
  end.

(** The transaction of the write loop of [Loader.deploy] for the chunk
    [bytes] at [offset]: the tag 1 and the offset in four bytes each, the
    number of bytes in eight, then the bytes. *)
Definition write_transaction (buffer authority : PublicKey.t) (offset : N)
           (bytes : list byte) : Transaction :=
  [ TransactionInstruction.mk
      [ AccountMeta.mk buffer false true;
        AccountMeta.mk authority true false ]
      UPGRADEABLE_BPF_LOADER_PROGRAM_ID
      (le_bytes 4 1 ++ le_bytes 4 offset
       ++ le_bytes 8 (N.of_nat (length bytes)) ++ bytes) ].

(** The [i]-th chunk of [data]. *)
Definition chunk (data : list byte) (i : nat) : list byte :=
  firstn Loader.chunkSize (skipn (Loader.chunkSize * i) data).

(** A configuration that the schema can encode: 32-byte keys, and fewer
    than 2^32 accounts and bytes of data. *)
Definition wf_ProposalConfig (config : ProposalConfig.t) : Prop :=
  let instruction := ProposalConfig.instruction config in
  length (ProposalConfig.group config) = 32%nat
  /\ length (ProposedInstruction.program_id instruction) = 32%nat
  /\ Forall (fun a => length (ProposedAccountMeta.pubkey a) = 32%nat)
            (ProposedInstruction.accounts instruction)
  /\ (N.of_nat (length (ProposedInstruction.accounts instruction)) < 2 ^ 32)%N
  /\ (N.of_nat (length (ProposedInstruction.data instruction)) < 2 ^ 32)%N.

(* ===================================================================== *)
(** ** A concrete environment for the workflows *)
(* ===================================================================== *)

(** The builders of web3.js and spl-token that the client calls, for the
    runs below: the keys and the payload that each one gives. *)
Module Library.

Definition createAccount (fromPubkey newAccountPubkey : PublicKey.t)
           (lamports space : N) (programId : PublicKey.t)
  : Result TransactionInstruction.t :=
  Ok (TransactionInstruction.mk
        [ AccountMeta.mk fromPubkey true true;
          AccountMeta.mk newAccountPubkey true true ]
        SystemProgram.programId
        (le_bytes 4 0 ++ le_bytes 8 lamports ++ le_bytes 8 space
         ++ PublicKey.toBuffer programId)).

Definition transfer (fromPubkey toPubkey : PublicKey.t) (lamports : N)
  : Result TransactionInstruction.t :=
  Ok (TransactionInstruction.mk
        [ AccountMeta.mk fromPubkey true true;
          AccountMeta.mk toPubkey false true ]
        SystemProgram.programId
        (le_bytes 4 2 ++ le_bytes 8 lamports)).

Definition createAccountWithSeed
           (basePubkey fromPubkey newAccountPubkey : PublicKey.t) (lamports : N)
           (programId : PublicKey.t) (seed : string) (space : N)
  : Result TransactionInstruction.t :=
  Ok (TransactionInstruction.mk
        ([ AccountMeta.mk fromPubkey true true;
           AccountMeta.mk newAccountPubkey false true ]
         ++ if PublicKey.equals basePubkey fromPubkey
            then []
            else [ AccountMeta.mk basePubkey true false ])
        SystemProgram.programId
        (le_bytes 4 3 ++ PublicKey.toBuffer basePubkey
         ++ le_bytes 4 (N.of_nat (String.length seed)) ++ le_bytes 4 0
         ++ list_byte_of_string seed
         ++ le_bytes 8 lamports ++ le_bytes 8 space ++ PublicKey.toBuffer programId)).

Definition createWithSeed (fromPublicKey : PublicKey.t) (seed : string)
           (programId : PublicKey.t) : Result PublicKey.t :=
  PublicKey.new (Web3.sha256 (PublicKey.toBuffer fromPublicKey
                              ++ list_byte_of_string seed
                              ++ PublicKey.toBuffer programId)).

Definition TOKEN_PROGRAM_ID : PublicKey.t :=
  Eval vm_compute in PublicKey_constant "TokenkegQfeZyiNwAJbNbGKPFXCWuBvf9Ss623VQ5DA".

Definition authorityTypeCode (authorityType : string) : N :=
  if String.eqb authorityType "MintTokens" then 0
  else if String.eqb authorityType "FreezeAccount" then 1
  else if String.eqb authorityType "AccountOwner" then 2
  else 3.

(** The authority signs when no multisig signers are given. *)
Definition authorityKeys (authority : PublicKey.t) (multiSigners : list Account.t)
  : list AccountMeta.t :=
  match multiSigners with
  | [] => [ AccountMeta.mk authority true false ]
  | _ => AccountMeta.mk authority false false
         :: map (fun signer => AccountMeta.mk (Account.publicKey signer) true false)
                multiSigners
  end.

Definition createSetAuthorityInstruction
           (programId account newAuthority : PublicKey.t) (authorityType : string)
           (currentAuthority : PublicKey.t) (multiSigners : list Account.t)
  : Result TransactionInstruction.t :=
  Ok (TransactionInstruction.mk
        (AccountMeta.mk account false true :: authorityKeys currentAuthority multiSigners)
        programId
        (le_bytes 1 6 ++ le_bytes 1 (authorityTypeCode authorityType) ++ le_bytes 1 1
         ++ PublicKey.toBuffer newAuthority)).

Definition createMintToInstruction
           (programId mint dest authority : PublicKey.t) (multiSigners : list Account.t)
           (amount : N) : Result TransactionInstruction.t :=
  Ok (TransactionInstruction.mk
        ([ AccountMeta.mk mint false true; AccountMeta.mk dest false true ]
         ++ authorityKeys authority multiSigners)
        programId
        (le_bytes 1 7 ++ le_bytes 8 amount)).

Definition createTransferInstruction
           (programId source destination owner : PublicKey.t)
           (multiSigners : list Account.t) (amount : N)
  : Result TransactionInstruction.t :=
  Ok (TransactionInstruction.mk
        ([ AccountMeta.mk source false true; AccountMeta.mk destination false true ]
         ++ authorityKeys owner multiSigners)
        programId
        (le_bytes 1 3 ++ le_bytes 8 amount)).

Definition createInitAccountInstruction (programId mint account owner : PublicKey.t)
  : Result TransactionInstruction.t :=
  Ok (TransactionInstruction.mk
        [ AccountMeta.mk account false true;
          AccountMeta.mk mint false false;
          AccountMeta.mk owner false false;
          AccountMeta.mk SYSVAR_RENT_PUBKEY false false ]
        programId
        (le_bytes 1 1)).

Definition builders : Builders.t :=
  Builders.mk createAccount transfer createAccountWithSeed createWithSeed
              TOKEN_PROGRAM_ID 165
              createSetAuthorityInstruction createMintToInstruction
              createTransferInstruction createInitAccountInstruction.

End Library.

(** A cluster with the scenario's proposal account on it, and the default
    rent: 3480 lamports for a byte and a year, two years, 128 bytes of
    account overhead. *)
Module Cluster.

Definition rent (space : nat) : Result N := Ok (N.of_nat (128 + space) * 3480 * 2)%N.

(** The proposal account once the proposer has been counted. *)
Definition proposalData : ProposalData.t :=
  ProposalData.mk Scenario.config (ProposalState.mk 1 1).

Definition proposalAccount : AccountInfo.t :=
  Eval vm_compute in
    account (x01 :: match serialize_ProposalData proposalData with
                    | Ok b => b
                    | Throws _ => []
                    end).

(** The same account after the program has closed it. *)
Definition closedAccount : AccountInfo.t := account (repeat x00 165).

Definition closed : PublicKey.t := PublicKey.mk 4002.

Definition getAccountInfo (key : PublicKey.t) : Result (option AccountInfo.t) :=
  if PublicKey.equals key Scenario.K then Ok (Some proposalAccount)
  else if PublicKey.equals key closed then Ok (Some closedAccount)
  else Ok None.

Definition connection : Connection.t :=
  Connection.mk rent getAccountInfo (rent 165) (fun _ _ => Ok tt).

Definition signer : Account.t := Account.mk Scenario.A.
Definition approver : Account.t := Account.mk Scenario.B.

(** The transfer that the scenario proposes, as [SystemProgram.transfer]
    builds it. *)
Definition transfer : TransactionInstruction.t :=
  TransactionInstruction.mk
    [ AccountMeta.mk Scenario.P true true; AccountMeta.mk Scenario.C false true ]
    SystemProgram.programId
    (le_bytes 4 2 ++ le_bytes 8 1000000).

(** The rent of the scenario's proposal account, of 169 bytes. *)
Definition proposalRent : N := Eval vm_compute in ((128 + 169) * 3480 * 2)%N.

(** The propose instruction of the transfer. *)
Definition proposeTransfer : TransactionInstruction.t :=
  Eval vm_compute in
    TransactionInstruction.mk
      [ AccountMeta.mk Scenario.A true true;
        AccountMeta.mk Scenario.G false true;
        AccountMeta.mk Scenario.K false true;
        AccountMeta.mk SystemProgram.programId false false;
        AccountMeta.mk SystemProgram.programId false false;
        AccountMeta.mk Scenario.P false true;
        AccountMeta.mk Scenario.C false true ]
      (MultiSig.programId Scenario.this)
      match serialize_InstructionData
              (InstructionData.propose
                 (ProposeInstruction.mk Scenario.transfer proposalRent)) with
      | Ok buffer => buffer
      | Throws _ => []
      end.

(** The approve instruction for the proposal. *)
Definition approveTransfer : TransactionInstruction.t :=
  TransactionInstruction.mk
    [ AccountMeta.mk Scenario.B true true;
      AccountMeta.mk Scenario.G false true;
      AccountMeta.mk Scenario.K false true;
      AccountMeta.mk SystemProgram.programId false false;
      AccountMeta.mk Scenario.P false true;
      AccountMeta.mk Scenario.C false true ]
    (MultiSig.programId Scenario.this)
    [x02].

(** An upgrade of the multisig program itself from the buffer account
    [upgradeBuffer]: the program data address of the program and the
    address of the proposal. *)
Definition upgradeBuffer : PublicKey.t := PublicKey.mk 4001.
Definition programData : PublicKey.t := PublicKey.mk
  62760800673171687847001832241520566318211961121236991664886562329433606311581.

End Cluster.

(** More of the scenario: the creation of the group, and the upgrade of the
    multisig program as the loader builds it. *)
Module Run.

Definition initData : InitInstruction.t := InitInstruction.mk Scenario.group 1000000 None.

Definition initGroup : TransactionInstruction.t :=
  Eval vm_compute in
    TransactionInstruction.mk
      [ AccountMeta.mk Scenario.A true true;
        AccountMeta.mk Scenario.G false true;
        AccountMeta.mk SystemProgram.programId false false;
        AccountMeta.mk Scenario.P false true ]
      (MultiSig.programId Scenario.this)
      match serialize_InstructionData (InstructionData.init initData) with
      | Ok buffer => buffer
      | Throws _ => []
      end.

Definition upgrade : TransactionInstruction.t :=
  TransactionInstruction.mk
    [ AccountMeta.mk Cluster.programData false true;
      AccountMeta.mk (MultiSig.programId Scenario.this) false true;
      AccountMeta.mk Cluster.upgradeBuffer false true;
      AccountMeta.mk Scenario.P false true;
      AccountMeta.mk SYSVAR_RENT_PUBKEY false false;
      AccountMeta.mk SYSVAR_CLOCK_PUBKEY false false;
      AccountMeta.mk Scenario.P true false ]
    UPGRADEABLE_BPF_LOADER_PROGRAM_ID
    [x03; x00; x00; x00].

(** A program of 901 bytes: one byte more than a chunk. *)
Definition program : list byte := repeat x07 901.

End Run.

(* ===================================================================== *)
(** * Properties *)
(* ===================================================================== *)

(** ** The exception monad *)

Lemma bind_Ok {A B : Type} (r : Result A) (k : A -> Result B) (b : B) :
  bind r k = Ok b -> exists a, r = Ok a /\ k a = Ok b.
Proof. destruct r as [a|e]; simpl; [eauto | discriminate]. Qed.

Lemma bind_Throws {A B : Type} (r : Result A) (k : A -> Result B) (e : Thrown) :
  bind r k = Throws e -> r = Throws e \/ exists a, r = Ok a /\ k a = Throws e.
Proof. destruct r as [a|e']; simpl; [eauto | intros [= ->]; auto]. Qed.

Lemma mapM_Ok_Forall2 {A B : Type} (f : A -> Result B) (l : list A) (bs : list B) :
  mapM f l = Ok bs -> Forall2 (fun a b => f a = Ok b) l bs.
Proof.
  revert bs; induction l as [|a l IH]; simpl; intros bs H.
  - injection H as <-. constructor.
  - apply bind_Ok in H as (b & Hb & H).
    apply bind_Ok in H as (bs' & Hbs & H).
    injection H as <-. constructor; auto.
Qed.

Lemma mapM_map {A B : Type} (f : A -> Result B) (g : A -> B) (l : list A) :
  Forall (fun a => f a = Ok (g a)) l -> mapM f l = Ok (map g l).
Proof.
  induction 1 as [|a l Ha _ IH]; simpl; [reflexivity|].
  now rewrite Ha, IH.
Qed.

(** ** Bytes *)

Lemma byte_to_N_inj (a b : byte) : Byte.to_N a = Byte.to_N b -> a = b.
Proof.
  intros H. pose proof (Byte.of_to_N a) as Ha. rewrite H, Byte.of_to_N in Ha.
  now injection Ha.
Qed.

Lemma byte_to_N_zero (b : byte) : (Byte.to_N b =? 0)%N = true <-> b = x00.
Proof.
  split.
  - intros H. apply N.eqb_eq in H. now apply byte_to_N_inj.
  - now intros ->.
Qed.

Lemma anyNonZero_false (buffer : list byte) :
  anyNonZero buffer = false <-> Forall (fun b => b = x00) buffer.
Proof.
  induction buffer as [|b rest IH]; simpl.
  - split; auto.
  - destruct (Byte.to_N b =? 0)%N eqn:E; simpl.
    + apply byte_to_N_zero in E. rewrite IH. split.
      * now constructor.
      * now inversion 1.
    + split; [discriminate|]. inversion 1; subst. discriminate.
Qed.

(** ** The reader only ever throws [BorshError] *)

Lemma only_Ok {A : Type} (a : A) : throws_only_BorshError (Ok a).
Proof. intros e; discriminate. Qed.

Lemma only_BorshError {A : Type} : throws_only_BorshError (@Throws A BorshError).
Proof. now intros e [= <-]. Qed.

Lemma only_bind {A B : Type} (r : Result A) (k : A -> Result B) :
  throws_only_BorshError r -> (forall a, throws_only_BorshError (k a)) ->
  throws_only_BorshError (bind r k).
Proof.
  intros Hr Hk e H. apply bind_Throws in H as [H | (a & _ & H)].
  - now apply Hr.
  - now apply (Hk a).
Qed.

Lemma only_readBuffer (len : nat) (buf : list byte) :
  throws_only_BorshError (readBuffer len buf).
Proof.
  unfold readBuffer. destruct (Nat.leb len (length buf));
    [apply only_Ok | apply only_BorshError].
Qed.

Create HintDb borsh discriminated.
#[local] Hint Resolve only_Ok only_BorshError only_readBuffer : borsh.

Ltac only_borsh :=
  repeat lazymatch goal with
    | |- throws_only_BorshError (bind _ _) =>
        apply only_bind; [ | intros [? ?]; cbn beta iota ]
    | |- forall _, _ => intro
    | _ => solve [eauto with borsh]
    end.

Lemma only_readU8 (buf : list byte) : throws_only_BorshError (readU8 buf).
Proof. unfold readU8. only_borsh. Qed.

Lemma only_readU32 (buf : list byte) : throws_only_BorshError (readU32 buf).
Proof. unfold readU32. only_borsh. Qed.

Lemma only_readU64 (buf : list byte) : throws_only_BorshError (readU64 buf).
Proof. unfold readU64. only_borsh. Qed.

#[local] Hint Resolve only_readU8 only_readU32 only_readU64 : borsh.

Lemma only_readN {A : Type} (fn : Reader A) :
  (forall buf, throws_only_BorshError (fn buf)) ->
  forall n buf, throws_only_BorshError (readN fn n buf).
Proof.
  intros Hfn. induction n as [|n IH]; intros buf; simpl; only_borsh.
Qed.

Lemma only_readArray {A : Type} (fn : Reader A) :
  (forall buf, throws_only_BorshError (fn buf)) ->
  forall buf, throws_only_BorshError (readArray fn buf).
Proof.
  intros Hfn buf. unfold readArray. only_borsh. now apply only_readN.
Qed.

#[local] Hint Resolve only_readArray : borsh.

Lemma only_read_ProposedAccountMeta (buf : list byte) :
  throws_only_BorshError (read_ProposedAccountMeta buf).
Proof. unfold read_ProposedAccountMeta, readFixedArray. only_borsh. Qed.

#[local] Hint Resolve only_read_ProposedAccountMeta : borsh.

Lemma only_read_ProposedInstruction (buf : list byte) :
  throws_only_BorshError (read_ProposedInstruction buf).
Proof.
  unfold read_ProposedInstruction, readFixedArray. only_borsh.
  apply only_readArray. only_borsh.
Qed.

#[local] Hint Resolve only_read_ProposedInstruction : borsh.

Lemma only_read_ProposalData (buf : list byte) :
  throws_only_BorshError (read_ProposalData buf).
Proof.
  unfold read_ProposalData, read_ProposalState, read_ProposalConfig, readFixedArray.
  only_borsh.
Qed.

Lemma only_deserialize {A : Type} (read : Reader A) (buffer : list byte) :
  (forall buf, throws_only_BorshError (read buf)) ->
  throws_only_BorshError (deserialize read buffer).
Proof.
  intros H. unfold deserialize. apply only_bind; [apply H|].
  intros [a [|b rest]]; auto with borsh.
Qed.

(** ** Reading account data *)

Lemma checkAccountType_cons (d : byte) (rest : list byte) (expected : N) :
  checkAccountType (d :: rest) expected =
    if (Byte.to_N d =? expected)%N then Ok tt else Throws (Throw "invalid account type").
Proof. simpl. now destruct (Byte.to_N d =? expected)%N. Qed.

(** C9: a proposal buffer owned by the program that is empty or all zero
    gets the zero-data error ("proposal may be complete"), not the
    empty-data and not the invalid-account-type error: the zero test runs
    before the discriminant test. *)
Theorem readProposalAccountData_all_zero (this : MultiSig.t) (info : AccountInfo.t) :
  PublicKey.equals (AccountInfo.owner info) (MultiSig.programId this) = true ->
  Forall (fun b => b = x00) (AccountInfo.data info) ->
  readProposalAccountData this info
    = Throws (Throw "data is zero (proposal may be complete)")
  /\ readProposalAccountData this info <> Throws (Throw "account data is empty")
  /\ readProposalAccountData this info <> Throws (Throw "invalid account type").
Proof.
  intros Howner Hzero.
  assert (readProposalAccountData this info
          = Throws (Throw "data is zero (proposal may be complete)")) as E.
  { unfold readProposalAccountData. rewrite Howner. simpl.
    apply anyNonZero_false in Hzero. now rewrite Hzero. }
  rewrite E. repeat split; discriminate.
Qed.

(** C4, as amended: for a proposal buffer owned by the program whose bytes
    after the discriminant are all zero, the zero-data error is reported
    when the discriminant byte is zero too; with discriminant 1 the payload
    is decoded (and the outcome is never the zero-data error); with any
    other discriminant the error is the invalid-account-type one. *)
Theorem readProposalAccountData_zero_payload
        (this : MultiSig.t) (info : AccountInfo.t) (d : byte) (payload : list byte) :
  PublicKey.equals (AccountInfo.owner info) (MultiSig.programId this) = true ->
  AccountInfo.data info = d :: payload ->
  Forall (fun b => b = x00) payload ->
  (d = x00 ->
     readProposalAccountData this info
       = Throws (Throw "data is zero (proposal may be complete)"))
  /\ (d = x01 ->
        readProposalAccountData this info = deserialize read_ProposalData payload
        /\ readProposalAccountData this info
             <> Throws (Throw "data is zero (proposal may be complete)"))
  /\ (d <> x00 -> d <> x01 ->
        readProposalAccountData this info = Throws (Throw "invalid account type")).
Proof.
  intros Howner Hdata Hzero. unfold readProposalAccountData.
  rewrite Howner, Hdata. cbn [negb skipn].
  split; [|split].
  - intros ->. assert (anyNonZero (x00 :: payload) = false) as ->; [|reflexivity].
    apply anyNonZero_false. now constructor.
  - intros ->. cbn. split; [reflexivity|].
    intros H. apply only_deserialize in H; [discriminate|].
    apply only_read_ProposalData.
  - intros H0 H1.
    assert (anyNonZero (d :: payload) = true) as ->.
    { simpl. destruct (Byte.to_N d =? 0)%N eqn:E; [|reflexivity].
      apply byte_to_N_zero in E. contradiction. }
    cbn [negb]. rewrite checkAccountType_cons.
    destruct (Byte.to_N d =? ACCOUNT_TYPE_TAG.proposal)%N eqn:E; [|reflexivity].
    apply N.eqb_eq in E. exfalso. apply H1. now apply byte_to_N_inj.
Qed.

(** C7, as amended: both readers throw the owner error whenever the owner
    is not the program.  With the right owner and data [d :: rest]:
    [readGroupAccountData] throws the invalid-account-type error when [d] is
    not 0, [readProposalAccountData] throws it when [d] is not 1 and some
    byte of the data is not zero; when [d] is the expected tag they decode
    [rest], the data from its second byte on. *)
Theorem read_account_guards (this : MultiSig.t) (info : AccountInfo.t) :
  (PublicKey.equals (AccountInfo.owner info) (MultiSig.programId this) = false ->
     readGroupAccountData this info = Throws (Throw "error: invalid account owner")
     /\ readProposalAccountData this info = Throws (Throw "error: invalid account owner"))
  /\ (PublicKey.equals (AccountInfo.owner info) (MultiSig.programId this) = true ->
      forall d rest, AccountInfo.data info = d :: rest ->
        (Byte.to_N d <> 0%N ->
           readGroupAccountData this info = Throws (Throw "invalid account type"))
        /\ (Byte.to_N d = 0%N ->
              readGroupAccountData this info = deserialize read_GroupData rest)
        /\ (Byte.to_N d <> 1%N -> anyNonZero (AccountInfo.data info) = true ->
              readProposalAccountData this info = Throws (Throw "invalid account type"))
        /\ (Byte.to_N d = 1%N ->
              readProposalAccountData this info = deserialize read_ProposalData rest)).
Proof.
  unfold readGroupAccountData, readProposalAccountData. split.
  - intros ->. now split.
  - intros -> d rest ->. cbn [negb skipn]. rewrite !checkAccountType_cons.
    unfold ACCOUNT_TYPE_TAG.group, ACCOUNT_TYPE_TAG.proposal.
    repeat split.
    + intros H. apply N.eqb_neq in H. now rewrite H.
    + intros H. apply N.eqb_eq in H. now rewrite H.
    + intros H Hnz. rewrite Hnz. apply N.eqb_neq in H. now rewrite H.
    + intros H. assert (anyNonZero (d :: rest) = true) as ->.
      { simpl. now rewrite H. }
      apply N.eqb_eq in H. now rewrite H.
Qed.

(** ** Sizes of the encodings *)

Lemma le_bytes_length (n : nat) (v : N) : length (le_bytes n v) = n.
Proof. revert v; induction n as [|n IH]; intros v; simpl; auto. Qed.

Lemma writeU8_length (v : N) (b : list byte) : writeU8 v = Ok b -> length b = 1%nat.
Proof. unfold writeU8. destruct (v <? 2 ^ 8)%N; [|discriminate]. now intros [= <-]. Qed.

Lemma writeU32_length (v : N) (b : list byte) : writeU32 v = Ok b -> length b = 4%nat.
Proof. unfold writeU32. destruct (v <? 2 ^ 32)%N; [|discriminate]. now intros [= <-]. Qed.

Lemma writeU64_length (v : N) (b : list byte) : writeU64 v = Ok b -> length b = 8%nat.
Proof. unfold writeU64. destruct (v <? 2 ^ 53)%N; [|discriminate]. now intros [= <-]. Qed.

Lemma writeFixedArray_Ok (n : nat) (v b : list byte) :
  writeFixedArray n v = Ok b -> b = v /\ length v = n.
Proof.
  unfold writeFixedArray. destruct (Nat.eqb (length v) n) eqn:E; [|discriminate].
  apply Nat.eqb_eq in E. now intros [= <-].
Qed.

Lemma writeU32_Ok (v : N) : (v < 2 ^ 32)%N -> writeU32 v = Ok (le_bytes 4 v).
Proof. intros H. unfold writeU32. apply N.ltb_lt in H. now rewrite H. Qed.

Lemma writeFixedArray_same (v : list byte) : writeFixedArray (length v) v = Ok v.
Proof. unfold writeFixedArray. now rewrite Nat.eqb_refl. Qed.

Lemma mapM_concat_length {A : Type} (f : A -> Result (list byte)) (k : nat)
      (l : list A) (bs : list (list byte)) :
  (forall a b, f a = Ok b -> length b = k) ->
  mapM f l = Ok bs -> length (concat bs) = (k * length l)%nat.
Proof.
  intros Hf H. apply mapM_Ok_Forall2 in H.
  induction H as [|a b l bs Hab _ IH]; simpl; [lia|].
  rewrite length_app, IH, (Hf _ _ Hab). lia.
Qed.

Lemma serialize_GroupMember_length (m : GroupMember.t) (b : list byte) :
  serialize_GroupMember m = Ok b -> length b = 36%nat.
Proof.
  unfold serialize_GroupMember. intros H.
  apply bind_Ok in H as (k & Hk & H). apply bind_Ok in H as (w & Hw & H).
  injection H as <-. apply writeFixedArray_Ok in Hk as [-> Hk].
  apply writeU32_length in Hw. rewrite length_app. lia.
Qed.

Lemma serialize_GroupData_length (g : GroupData.t) (b : list byte) :
  serialize_GroupData g = Ok b ->
  length b = (4 + 36 * length (GroupData.members g) + 4)%nat.
Proof.
  unfold serialize_GroupData, writeArray. intros H.
  apply bind_Ok in H as (ms & Hms & H). apply bind_Ok in H as (t & Ht & H).
  injection H as <-.
  apply bind_Ok in Hms as (len & Hlen & Hms). apply bind_Ok in Hms as (elems & He & Hms).
  injection Hms as <-.
  apply writeU32_length in Hlen, Ht.
  apply (mapM_concat_length _ 36) in He; [|apply serialize_GroupMember_length].
  rewrite !length_app. lia.
Qed.

Lemma serialize_GroupData_total (g : GroupData.t) :
  wf_GroupData g -> exists b, serialize_GroupData g = Ok b.
Proof.
  intros (Hm & Hn & Ht). unfold serialize_GroupData, writeArray.
  rewrite (writeU32_Ok _ Hn), (writeU32_Ok _ Ht). cbn [bind].
  rewrite (mapM_map _ (fun m => GroupMember.publicKey m
                                ++ le_bytes 4 (GroupMember.weight m))).
  - cbn [bind]. eauto.
  - eapply Forall_impl; [|exact Hm]. intros m [Hk Hw].
    unfold serialize_GroupMember. rewrite <- Hk, writeFixedArray_same.
    now rewrite (writeU32_Ok _ Hw).
Qed.

(** C8, as amended: [groupAccountSpace] is exact.  For a group with [n]
    members it returns the length of the group's encoding, which is 4
    bytes of member count, 36 bytes per member and 4 bytes of threshold,
    plus one byte, the account-type tag, and nothing for a length: 9, 45
    and 189 bytes for 0, 1 and 5 members. *)
Theorem groupAccountSpace_exact (g : GroupData.t) :
  wf_GroupData g ->
  let n := length (GroupData.members g) in
  exists b,
    serialize_GroupData g = Ok b
    /\ length b = (4 + 36 * n + 4)%nat
    /\ groupAccountSpace g = Ok (length b + 1)%nat
    /\ (n = 0%nat -> groupAccountSpace g = Ok 9%nat)
    /\ (n = 1%nat -> groupAccountSpace g = Ok 45%nat)
    /\ (n = 5%nat -> groupAccountSpace g = Ok 189%nat).
Proof.
  intros Hwf n. destruct (serialize_GroupData_total g Hwf) as (b & Hb).
  pose proof (serialize_GroupData_length g b Hb) as Hlen. fold n in Hlen.
  exists b. unfold groupAccountSpace. rewrite Hb. cbn [bind].
  repeat split; auto; intros Hn; f_equal; lia.
Qed.

Lemma serialize_ProposalState_mock :
  serialize_ProposalState (ProposalState.mk 1 1) = Ok (le_bytes 8 1 ++ le_bytes 4 1).
Proof. reflexivity. Qed.

(** C10: [proposalAccountSpace] returns the length of the configuration's
    encoding plus 17: the 12 bytes of the constant mock state (a u64 and a
    u32), 4 bytes for a length and 1 byte for the tag.  No actual proposal
    state enters the computation. *)
Theorem proposalAccountSpace_exact (config : ProposalConfig.t) (b : list byte) :
  serialize_ProposalConfig config = Ok b ->
  exists s,
    serialize_ProposalState (ProposalState.mk 1 1) = Ok s
    /\ length s = 12%nat
    /\ serialize_ProposalData (ProposalData.mk config (ProposalState.mk 1 1)) = Ok (b ++ s)
    /\ proposalAccountSpace config = Ok (length b + 12 + 4 + 1)%nat
    /\ proposalAccountSpace config = Ok (length b + 17)%nat.
Proof.
  intros Hb. exists (le_bytes 8 1 ++ le_bytes 4 1).
  assert (serialize_ProposalData (ProposalData.mk config (ProposalState.mk 1 1))
          = Ok (b ++ le_bytes 8 1 ++ le_bytes 4 1)) as E.
  { unfold serialize_ProposalData. cbn [ProposalData.config ProposalData.state].
    now rewrite Hb, serialize_ProposalState_mock. }
  unfold proposalAccountSpace. rewrite E. cbn [bind].
  repeat split; auto; f_equal; rewrite length_app; simpl; lia.
Qed.

(** ** The instruction envelope *)

(** C3, as amended: the encoding of an [InstructionData] begins with a
    one-byte variant index, 0 for init, 1 for propose and 2 for approve,
    and goes on with the variant's own encoding. *)
Theorem serialize_InstructionData_layout (d : InstructionData.t) (body : list byte) :
  variant_encoding d = Ok body ->
  serialize_InstructionData d = Ok (le_bytes 1 (variant_index d) ++ body)
  /\ length (le_bytes 1 (variant_index d)) = 1%nat.
Proof.
  intros H. split; [|reflexivity].
  destruct d as [i|p|a]; cbn in H |- *;
    [now rewrite H | now rewrite H | now injection H as <-].
Qed.

(** ** Public keys from 32 bytes *)

Lemma be_value_bound_from (b : list byte) (acc : N) :
  (fold_left (fun acc x => acc * 256 + Byte.to_N x) b acc
   < (acc + 1) * 256 ^ N.of_nat (length b))%N.
Proof.
  revert acc; induction b as [|x t IH]; intros acc.
  - simpl. lia.
  - cbn [fold_left length]. specialize (IH (acc * 256 + Byte.to_N x)%N).
    pose proof (Byte.to_N_bounded x) as Hx.
    rewrite Nat2N.inj_succ, N.pow_succ_r'.
    eapply N.lt_le_trans; [exact IH|].
    replace ((acc + 1) * (256 * 256 ^ N.of_nat (length t)))%N
      with (((acc + 1) * 256) * 256 ^ N.of_nat (length t))%N by lia.
    apply N.mul_le_mono_r. lia.
Qed.

Lemma be_value_bound (b : list byte) : (be_value b < 256 ^ N.of_nat (length b))%N.
Proof.
  unfold be_value. pose proof (be_value_bound_from b 0) as H.
  now rewrite N.add_0_l, N.mul_1_l in H.
Qed.

Lemma PublicKey_new_32 (b : list byte) :
  length b = 32%nat -> PublicKey.new b = Ok (PublicKey.mk (be_value b)).
Proof.
  intros H. unfold PublicKey.new. pose proof (be_value_bound b) as Hb.
  rewrite H in Hb. change (256 ^ N.of_nat 32)%N with (2 ^ 256)%N in Hb.
  apply N.ltb_lt in Hb. now rewrite Hb.
Qed.

Lemma serialize_ProposedInstruction_Ok (i : ProposedInstruction.t) (b : list byte) :
  serialize_ProposedInstruction i = Ok b ->
  length (ProposedInstruction.program_id i) = 32%nat
  /\ Forall (fun a => length (ProposedAccountMeta.pubkey a) = 32%nat)
            (ProposedInstruction.accounts i).
Proof.
  unfold serialize_ProposedInstruction, writeArray. intros H.
  apply bind_Ok in H as (pk & Hpk & H). apply bind_Ok in H as (accs & Haccs & _).
  apply writeFixedArray_Ok in Hpk as [_ Hpk]. split; [exact Hpk|].
  apply bind_Ok in Haccs as (len & _ & Haccs).
  apply bind_Ok in Haccs as (elems & He & _).
  apply mapM_Ok_Forall2 in He.
  induction He as [|a e l es Hae _ IH]; constructor; auto.
  unfold serialize_ProposedAccountMeta in Hae.
  apply bind_Ok in Hae as (k & Hk & _). now apply writeFixedArray_Ok in Hk.
Qed.

Lemma serialize_propose_Ok (data : ProposeInstruction.t) (buffer : list byte) :
  serialize_InstructionData (InstructionData.propose data) = Ok buffer ->
  exists b, serialize_ProposedInstruction (ProposeInstruction.instruction data) = Ok b.
Proof.
  cbn. intros H. apply bind_Ok in H as (body & H & _).
  unfold serialize_ProposeInstruction in H. apply bind_Ok in H as (b & H & _). eauto.
Qed.

(** ** Assembling [propose] and [approve] *)

Lemma remapAccount_32 (P : PublicKey.t) (account : ProposedAccountMeta.t) :
  length (ProposedAccountMeta.pubkey account) = 32%nat ->
  remapAccount P account = Ok (remapped P account).
Proof.
  intros H. unfold remapAccount. now rewrite (PublicKey_new_32 _ H).
Qed.

Lemma remapAccount_Ok (P : PublicKey.t) (account : ProposedAccountMeta.t)
      (meta : AccountMeta.t) :
  remapAccount P account = Ok meta -> rewritten P account meta.
Proof.
  unfold remapAccount, rewritten. intros H.
  apply bind_Ok in H as (k & Hk & H). rewrite Hk in H. cbn [bind] in H.
  injection H as <-. now cbn.
Qed.

Lemma rewritten_never_signs (P : PublicKey.t) (accounts : list ProposedAccountMeta.t)
      (rest : list AccountMeta.t) :
  Forall2 (rewritten P) accounts rest -> protected_never_signs P rest.
Proof.
  induction 1 as [|a m l ms (_ & Hs & _) _ IH]; constructor; auto.
  intros E. now rewrite Hs, E.
Qed.

Section Assembly.

Variable fpa : list (list byte) -> PublicKey.t -> Result (PublicKey.t * N).
Variable this : MultiSig.t.

Lemma propose_inv data group signer ix :
  propose fpa this data group signer = Ok ix ->
  exists proposalKey P buffer target rest,
    proposalAccountKey fpa this
      (ProposalConfig.mk (PublicKey.toBuffer group)
                         (ProposeInstruction.instruction data)) = Ok proposalKey
    /\ protectedAccountKey fpa this group = Ok P
    /\ serialize_InstructionData (InstructionData.propose data) = Ok buffer
    /\ PublicKey.new (ProposedInstruction.program_id
                        (ProposeInstruction.instruction data)) = Ok target
    /\ mapM (remapAccount P)
            (ProposedInstruction.accounts (ProposeInstruction.instruction data))
       = Ok rest
    /\ ix = TransactionInstruction.mk
              (propose_head signer group proposalKey target ++ rest)
              (MultiSig.programId this) buffer.
Proof.
  unfold propose. intros H.
  apply bind_Ok in H as (proposalKey & HK & H).
  apply bind_Ok in H as (P & HP & H).
  apply bind_Ok in H as (buffer & Hb & H).
  apply bind_Ok in H as (target & Ht & H).
  apply bind_Ok in H as (rest & Hr & H).
  injection H as <-. exists proposalKey, P, buffer, target, rest. auto 10.
Qed.

Lemma approve_inv proposal config signer ix :
  approve fpa this proposal config signer = Ok ix ->
  exists group P buffer target rest,
    PublicKey.new (ProposalConfig.group config) = Ok group
    /\ protectedAccountKey fpa this group = Ok P
    /\ PublicKey.new (ProposedInstruction.program_id
                        (ProposalConfig.instruction config)) = Ok target
    /\ mapM (remapAccount P)
            (ProposedInstruction.accounts (ProposalConfig.instruction config))
       = Ok rest
    /\ ix = TransactionInstruction.mk
              (approve_head signer group proposal target ++ rest)
              (MultiSig.programId this) buffer.
Proof.
  unfold approve. intros H.
  apply bind_Ok in H as (group & Hg & H).
  apply bind_Ok in H as (P & HP & H).
  apply bind_Ok in H as (buffer & Hb & H).
  apply bind_Ok in H as (target & Ht & H).
  apply bind_Ok in H as (rest & Hr & H).
  injection H as <-. exists group, P, buffer, target, rest. auto 10.
Qed.

(** [propose] returns as soon as the two derivations and the
    serialization of the envelope do. *)
Lemma propose_Ok data group signer proposalKey P buffer :
  proposalAccountKey fpa this
    (ProposalConfig.mk (PublicKey.toBuffer group)
                       (ProposeInstruction.instruction data)) = Ok proposalKey ->
  protectedAccountKey fpa this group = Ok P ->
  serialize_InstructionData (InstructionData.propose data) = Ok buffer ->
  propose fpa this data group signer
  = Ok (TransactionInstruction.mk
          (propose_head signer group proposalKey
             (PublicKey.mk (be_value (ProposedInstruction.program_id
                                        (ProposeInstruction.instruction data))))
           ++ map (remapped P)
                  (ProposedInstruction.accounts (ProposeInstruction.instruction data)))
          (MultiSig.programId this) buffer).
Proof.
  intros HK HP Hb. unfold propose.
  rewrite HK, HP, Hb. cbn [bind].
  destruct (serialize_propose_Ok _ _ Hb) as (b & Hi).
  apply serialize_ProposedInstruction_Ok in Hi as [Hpid Haccs].
  rewrite (PublicKey_new_32 _ Hpid). cbn [bind].
  rewrite (mapM_map _ (remapped P)); [reflexivity|].
  eapply Forall_impl; [|exact Haccs]. intros a Ha. now apply remapAccount_32.
Qed.

End Assembly.

(** ** The field of the curve check *)

Lemma fold255_spec (x : Z) :
  0 <= x -> Web3.fold255 x = x mod 2 ^ 255 + 19 * (x / 2 ^ 255).
Proof.
  intros Hx. unfold Web3.fold255. now rewrite Z.land_ones, Z.shiftr_div_pow2 by lia.
Qed.

(** The folding reduction is the reduction modulo 2^255 - 19. *)
Lemma reduce_mod (x : Z) : 0 <= x < 2 ^ 512 -> Web3.reduce x = x mod Web3.p25519.
Proof.
  intros Hx. unfold Web3.reduce.
  assert (0 <= Web3.fold255 x < 2 ^ 262 /\ exists q, 0 <= q /\ x = Web3.p25519 * q + Web3.fold255 x)
    as ((Hy0 & Hy1) & q & Hq0 & Hq).
  { rewrite fold255_spec by lia.
    pose proof (Z.div_mod x (2 ^ 255) ltac:(lia)) as E.
    pose proof (Z.mod_pos_bound x (2 ^ 255) ltac:(lia)) as B.
    assert (0 <= x / 2 ^ 255 < 2 ^ 257) as Bq.
    { split; [apply Z.div_pos; lia|]. apply Z.div_lt_upper_bound; [lia|].
      change (2 ^ 255 * 2 ^ 257) with (2 ^ 512). lia. }
    split; [lia|]. exists (x / 2 ^ 255). unfold Web3.p25519. lia. }
  assert (0 <= Web3.fold255 (Web3.fold255 x) < 2 * Web3.p25519
          /\ exists q', 0 <= q' /\ Web3.fold255 x = Web3.p25519 * q' + Web3.fold255 (Web3.fold255 x))
    as ((Hz0 & Hz1) & q' & Hq'0 & Hq').
  { rewrite (fold255_spec (Web3.fold255 x)) by lia.
    pose proof (Z.div_mod (Web3.fold255 x) (2 ^ 255) ltac:(lia)) as E.
    pose proof (Z.mod_pos_bound (Web3.fold255 x) (2 ^ 255) ltac:(lia)) as B.
    assert (0 <= Web3.fold255 x / 2 ^ 255 < 2 ^ 7) as Bq.
    { split; [apply Z.div_pos; lia|]. apply Z.div_lt_upper_bound; [lia|].
      change (2 ^ 255 * 2 ^ 7) with (2 ^ 262). lia. }
    split; [unfold Web3.p25519; lia|]. exists (Web3.fold255 x / 2 ^ 255). unfold Web3.p25519. lia. }
  destruct (Web3.fold255 (Web3.fold255 x) <? Web3.p25519) eqn:E.
  - apply Z.ltb_lt in E. apply Z.mod_unique with (q := q + q'); lia.
  - apply Z.ltb_ge in E. apply Z.mod_unique with (q := q + q' + 1); lia.
Qed.

Lemma M_mod (a b : Z) :
  0 <= a < 2 ^ 256 -> 0 <= b < 2 ^ 256 -> Web3.M a b = (a * b) mod Web3.p25519.
Proof.
  intros Ha Hb. unfold Web3.M. apply reduce_mod. split; [nia|].
  change (2 ^ 512) with (2 ^ 256 * 2 ^ 256). nia.
Qed.

(** ** SHA-256 on known messages *)

Example sha256_abc :
  Web3.sha256 (list_byte_of_string "abc")
  = Buffer_from_hex "ba7816bf8f01cfea414140de5dae2223b00361a396177a9cb410ff61f20015ad".
Proof. vm_compute. reflexivity. Qed.

Example sha256_empty :
  Web3.sha256 []
  = Buffer_from_hex "e3b0c44298fc1c149afbf4c8996fb92427ae41e4649b934ca495991b7852b855".
Proof. vm_compute. reflexivity. Qed.

Example sha256_two_blocks :
  Web3.sha256 (list_byte_of_string
                 "abcdbcdecdefdefgefghfghighijhijkijkljklmklmnlmnomnopnopq")
  = Buffer_from_hex "248d6a61d20638b8e5c026930c3e6039a33ce45964ff2167f6ecedd419db06c1".
Proof. vm_compute. reflexivity. Qed.

(** The digest as the client computes it. *)
Example client_digest_abc :
  Buffer_from_hex
    (CryptoJS.toString (CryptoJS.SHA256 (byteArrayToWordArray (list_byte_of_string "abc"))))
  = Buffer_from_hex "ba7816bf8f01cfea414140de5dae2223b00361a396177a9cb410ff61f20015ad".
Proof. vm_compute. reflexivity. Qed.

(** [I] is a square root of -1 and [D] is -121665/121666. *)
Example curve_constants :
  (Web3.I * Web3.I + 1) mod Web3.p25519 = 0
  /\ (Web3.D * 121666 + 121665) mod Web3.p25519 = 0.
Proof. split; vm_compute; reflexivity. Qed.

(** The base point of the curve, [y = 4/5], is on it; no point has [y = 2]. *)
Example is_on_curve_base :
  Web3.is_on_curve
    (Borsh.le_bytes 32 0x6666666666666666666666666666666666666666666666666666666666666658)
  = true
  /\ Web3.is_on_curve (Borsh.le_bytes 32 2) = false.
Proof. split; vm_compute; reflexivity. Qed.

(** ** [byteArrayToWordArray] packs big-endian *)

Lemma toUint32_toInt32 (x : Z) : JS.toUint32 (JS.toInt32 x) = JS.toUint32 x.
Proof.
  unfold JS.toInt32, JS.toUint32.
  destruct (x mod 2 ^ 32 <? 2 ^ 31).
  - apply Z.mod_mod. lia.
  - pose proof (Z.mod_pos_bound x (2 ^ 32) ltac:(lia)) as Hu.
    symmetry. apply Z.mod_unique with (q := -1); lia.
Qed.

Lemma toInt32_idem (x : Z) : JS.toInt32 (JS.toInt32 x) = JS.toInt32 x.
Proof. unfold JS.toInt32 at 1 3. now rewrite toUint32_toInt32. Qed.

Lemma or_toInt32_l (a b : Z) : JS.or (JS.toInt32 a) b = JS.or a b.
Proof. unfold JS.or. now rewrite toInt32_idem. Qed.

Lemma or_0_r (a : Z) : JS.or a 0 = JS.toInt32 a.
Proof. unfold JS.or. change (JS.toInt32 0) with 0. now rewrite Z.lor_0_r, toInt32_idem. Qed.

Lemma or_0_l (a : Z) : JS.or 0 a = JS.toInt32 a.
Proof. unfold JS.or. change (JS.toInt32 0) with 0. now rewrite Z.lor_0_l, toInt32_idem. Qed.

Lemma toInt32_or (a b : Z) : JS.toInt32 (JS.or a b) = JS.or a b.
Proof. unfold JS.or. apply toInt32_idem. Qed.

Lemma toInt32_shl (a n : Z) : JS.toInt32 (JS.shl a n) = JS.shl a n.
Proof. unfold JS.shl. apply toInt32_idem. Qed.

Lemma shl_count (a q j : Z) :
  0 <= j < 4 -> JS.shl a (24 - 8 * (4 * q + j)) = JS.shl a (24 - 8 * j).
Proof.
  intros Hj. unfold JS.shl. do 2 f_equal.
  change 31 with (Z.ones 5). rewrite !Z.land_ones by lia.
  rewrite (Z.mod_small (24 - 8 * j)) by (change (2 ^ 5) with 32; lia).
  symmetry. apply Z.mod_unique with (q := - q); change (2 ^ 5) with 32; lia.
Qed.

Lemma index_of (q : nat) (j : Z) :
  0 <= j < 4 -> Z.to_nat ((4 * Z.of_nat q + j) / 4) = q.
Proof.
  intros Hj. replace ((4 * Z.of_nat q + j) / 4) with (Z.of_nat q); [lia|].
  apply Z.div_unique with (r := j); lia.
Qed.

Lemma get_end (ws : list Z) : JS.get ws (length ws) = 0.
Proof. unfold JS.get. now apply nth_overflow. Qed.

Lemma set_end (ws : list Z) (v : Z) : JS.set ws (length ws) v = ws ++ [v].
Proof. induction ws as [|w ws IH]; simpl; [reflexivity | now rewrite IH]. Qed.

Lemma get_last (ws : list Z) (v : Z) : JS.get (ws ++ [v]) (length ws) = v.
Proof. unfold JS.get. now rewrite nth_middle. Qed.

Lemma set_last (ws : list Z) (v v' : Z) : JS.set (ws ++ [v]) (length ws) v' = ws ++ [v'].
Proof. induction ws as [|w ws IH]; simpl; [reflexivity | now rewrite IH]. Qed.

Lemma list_ind4 {A : Type} (P : list A -> Prop) :
  P [] -> (forall a, P [a]) -> (forall a b, P [a; b]) -> (forall a b c, P [a; b; c]) ->
  (forall a b c d l, P l -> P (a :: b :: c :: d :: l)) ->
  forall l, P l.
Proof.
  intros H0 H1 H2 H3 H4. fix IH 1.
  intros [|a [|b [|c [|d l]]]];
    [apply H0 | apply H1 | apply H2 | apply H3 | apply H4, IH].
Qed.

(** The first byte of a word, and a further one. *)
Lemma loop_first (b : byte) (rest : list byte) (ws : list Z) :
  byteArrayToWordArray_loop (b :: rest) (4 * Z.of_nat (length ws)) ws
  = byteArrayToWordArray_loop rest (4 * Z.of_nat (length ws) + 1)
      (ws ++ [JS.shl (byte_to_Z b) 24]).
Proof.
  cbn [byteArrayToWordArray_loop].
  replace (4 * Z.of_nat (length ws)) with (4 * Z.of_nat (length ws) + 0) at 1 2 3 4 by lia.
  rewrite index_of by lia. rewrite shl_count by lia.
  rewrite get_end, set_end, or_0_l, toInt32_shl.
  do 2 f_equal. lia.
Qed.

Lemma loop_next (b : byte) (rest : list byte) (ws : list Z) (v i j : Z) :
  i = 4 * Z.of_nat (length ws) + j -> 0 < j < 4 ->
  byteArrayToWordArray_loop (b :: rest) i (ws ++ [v])
  = byteArrayToWordArray_loop rest (i + 1)
      (ws ++ [JS.or v (JS.shl (byte_to_Z b) (24 - 8 * j))]).
Proof.
  intros -> Hj. cbn [byteArrayToWordArray_loop].
  rewrite index_of by lia. rewrite shl_count by lia.
  now rewrite get_last, set_last.
Qed.

Lemma shl_0 (n : Z) : JS.shl 0 n = 0.
Proof. unfold JS.shl. change (JS.toInt32 0) with 0. now rewrite Z.shiftl_0_l. Qed.

Ltac normalize_words :=
  change (24 - 8 * 1) with 16; change (24 - 8 * 2) with 8; change (24 - 8 * 3) with 0;
  unfold word_be;
  rewrite ?shl_0, ?or_0_r, ?toInt32_idem, ?toInt32_or, ?toInt32_shl.

Lemma byteArrayToWordArray_loop_pack (ba : list byte) :
  forall ws,
    byteArrayToWordArray_loop ba (4 * Z.of_nat (length ws)) ws = ws ++ pack_be ba.
Proof.
  induction ba as [|b0|b0 b1|b0 b1 b2|b0 b1 b2 b3 rest IH] using list_ind4; intros ws.
  - simpl. now rewrite app_nil_r.
  - rewrite loop_first. cbn [byteArrayToWordArray_loop pack_be].
    now normalize_words.
  - rewrite loop_first, (loop_next _ _ _ _ _ 1) by lia.
    cbn [byteArrayToWordArray_loop pack_be]. now normalize_words.
  - rewrite loop_first, (loop_next _ _ _ _ _ 1), (loop_next _ _ _ _ _ 2) by lia.
    cbn [byteArrayToWordArray_loop pack_be]. now normalize_words.
  - rewrite loop_first, (loop_next _ _ _ _ _ 1), (loop_next _ _ _ _ _ 2),
      (loop_next _ _ _ _ _ 3) by lia.
    cbn [pack_be]. normalize_words.
    specialize (IH (ws ++ [JS.or (JS.or (JS.or (JS.shl (byte_to_Z b0) 24)
                                              (JS.shl (byte_to_Z b1) 16))
                                       (JS.shl (byte_to_Z b2) 8))
                                (JS.shl (byte_to_Z b3) 0)])).
    rewrite length_app in IH. cbn [length] in IH.
    replace (4 * Z.of_nat (length ws) + 1 + 1 + 1 + 1)
      with (4 * Z.of_nat (length ws + 1)) by lia.
    rewrite IH, <- app_assoc. reflexivity.
Qed.

(** The client's [byteArrayToWordArray] packs the bytes big-endian. *)
Lemma byteArrayToWordArray_pack (ba : list byte) :
  byteArrayToWordArray ba
  = {| CryptoJS.words := pack_be ba; CryptoJS.sigBytes := length ba |}.
Proof.
  unfold byteArrayToWordArray. f_equal.
  exact (byteArrayToWordArray_loop_pack ba []).
Qed.

(** ** Address derivation *)

Lemma hex_byte (b : byte) :
  match CryptoJS.hexChar (JS.ushr (byte_to_Z b) 4) with
  | c1 =>
      match CryptoJS.hexChar (JS.and (byte_to_Z b) 0x0f) with
      | c2 =>
          match hexValue c1, hexValue c2 with
          | Some h, Some l => byte_of_N (16 * h + l) = b
          | _, _ => False
          end
      end
  end.
Proof. destruct b; vm_compute; reflexivity. Qed.

(** Reading the hexadecimal string of a word array back gives its bytes. *)
Lemma Buffer_from_hex_toString (wa : CryptoJS.WordArray) :
  Buffer_from_hex (CryptoJS.toString wa) = CryptoJS.bytes wa.
Proof.
  unfold CryptoJS.toString, CryptoJS.bytes.
  generalize (seq 0 (CryptoJS.sigBytes wa)) as l.
  induction l as [|i l IH]; [reflexivity|].
  cbn [fold_right map Buffer_from_hex].
  pose proof (hex_byte (CryptoJS.byteAt wa i)) as H. cbv beta iota zeta in H.
  destruct (hexValue (CryptoJS.hexChar (JS.ushr (byte_to_Z (CryptoJS.byteAt wa i)) 4)));
    [|contradiction].
  destruct (hexValue (CryptoJS.hexChar (JS.and (byte_to_Z (CryptoJS.byteAt wa i)) 15)));
    [|contradiction].
  now rewrite H, IH.
Qed.

Lemma scenario_group :
  groupAccountKey Web3.findProgramAddress Scenario.this Scenario.group = Ok Scenario.G.
Proof. vm_compute. reflexivity. Qed.

Lemma scenario_protected :
  protectedAccountKey Web3.findProgramAddress Scenario.this Scenario.G = Ok Scenario.P.
Proof. vm_compute. reflexivity. Qed.

Lemma scenario_proposal :
  proposalAccountKey Web3.findProgramAddress Scenario.this Scenario.config = Ok Scenario.K.
Proof. vm_compute. reflexivity. Qed.

Lemma scenario_hashed :
  spec_derive Web3.findProgramAddress PDA_TAG.protected (PublicKey.toBuffer Scenario.G)
              (MultiSig.programId Scenario.this) = Ok Scenario.Q.
Proof. vm_compute. reflexivity. Qed.

(** C2, as amended: the group address and the proposal address are
    derived by taking the SHA-256 digest of the canonical bytes and then
    the program address of (tag, digest, program); the protected address is
    the program address of (tag, the 32 bytes of the group address,
    program), with no digest taken.  The tags are the single bytes 0x00
    (group), 0x01 (proposal) and 0x02 (protected). *)
Theorem derived_addresses
        (fpa : list (list byte) -> PublicKey.t -> Result (PublicKey.t * N))
        (this : MultiSig.t) :
  (forall groupData b,
      serialize_GroupData groupData = Ok b ->
      groupAccountKey fpa this groupData
      = spec_derive fpa [x00] b (MultiSig.programId this))
  /\ (forall proposalConfig b,
         serialize_ProposalConfig proposalConfig = Ok b ->
         proposalAccountKey fpa this proposalConfig
         = spec_derive fpa [x01] b (MultiSig.programId this))
  /\ (forall group,
         protectedAccountKey fpa this group
         = ('(address, _) <- fpa [[x02]; PublicKey.toBuffer group]
                                 (MultiSig.programId this) ;;
            Ok address))
  /\ PDA_TAG.group = [x00] /\ PDA_TAG.proposal = [x01] /\ PDA_TAG.protected = [x02].
Proof.
  repeat split.
  - intros g b Hb. unfold groupAccountKey, spec_derive, Web3.sha256.
    rewrite Hb. cbn [bind].
    now rewrite Buffer_from_hex_toString, byteArrayToWordArray_pack.
  - intros c b Hb. unfold proposalAccountKey, spec_derive, Web3.sha256.
    rewrite Hb. cbn [bind].
    now rewrite Buffer_from_hex_toString, byteArrayToWordArray_pack.
Qed.

(** C6: two configurations with the same encoding get the same proposal
    address; so the proposal entry of [propose] depends on the group and on
    the proposed instruction only. *)
Theorem proposal_address_dedup
        (fpa : list (list byte) -> PublicKey.t -> Result (PublicKey.t * N))
        (this : MultiSig.t) (c1 c2 : ProposalConfig.t) (b : list byte) :
  serialize_ProposalConfig c1 = Ok b ->
  serialize_ProposalConfig c2 = Ok b ->
  proposalAccountKey fpa this c1 = proposalAccountKey fpa this c2
  /\ (forall data1 data2 group signer1 signer2 ix1 ix2,
         ProposeInstruction.instruction data1 = ProposeInstruction.instruction data2 ->
         propose fpa this data1 group signer1 = Ok ix1 ->
         propose fpa this data2 group signer2 = Ok ix2 ->
         exists proposalKey,
           nth_error (TransactionInstruction.keys ix1) 2
             = Some (AccountMeta.mk proposalKey false true)
           /\ nth_error (TransactionInstruction.keys ix2) 2
              = Some (AccountMeta.mk proposalKey false true)).
Proof.
  intros H1 H2. split.
  - unfold proposalAccountKey. now rewrite H1, H2.
  - intros data1 data2 group signer1 signer2 ix1 ix2 Hi Hp1 Hp2.
    apply propose_inv in Hp1 as (K1 & P1 & b1 & t1 & r1 & HK1 & _ & _ & _ & _ & ->).
    apply propose_inv in Hp2 as (K2 & P2 & b2 & t2 & r2 & HK2 & _ & _ & _ & _ & ->).
    rewrite Hi, HK2 in HK1. injection HK1 as <-.
    exists K2. split; reflexivity.
Qed.

(** C5: the key list of the instruction that [propose] emits is the
    proposer (signer, writable), the group (writable), the derived proposal
    address (writable), the system program and the proposed instruction's
    program (both read-only, neither a signer), then the accounts of the
    proposed instruction in order, each with its writable flag and with its
    signer flag unless the address is the protected account's. *)
Theorem propose_key_list
        (fpa : list (list byte) -> PublicKey.t -> Result (PublicKey.t * N))
        (this : MultiSig.t) (data : ProposeInstruction.t)
        (group signer : PublicKey.t) (ix : TransactionInstruction.t) :
  propose fpa this data group signer = Ok ix ->
  exists proposalKey P target,
    proposalAccountKey fpa this
      (ProposalConfig.mk (PublicKey.toBuffer group)
                         (ProposeInstruction.instruction data)) = Ok proposalKey
    /\ protectedAccountKey fpa this group = Ok P
    /\ PublicKey.new (ProposedInstruction.program_id
                        (ProposeInstruction.instruction data)) = Ok target
    /\ TransactionInstruction.keys ix
       = [ AccountMeta.mk signer true true;
           AccountMeta.mk group false true;
           AccountMeta.mk proposalKey false true;
           AccountMeta.mk SystemProgram.programId false false;
           AccountMeta.mk target false false ]
         ++ map (fun account =>
                   AccountMeta.mk
                     (PublicKey.mk (be_value (ProposedAccountMeta.pubkey account)))
                     (if PublicKey.equals P
                           (PublicKey.mk (be_value (ProposedAccountMeta.pubkey account)))
                      then false
                      else ProposedAccountMeta.is_signer account)
                     (ProposedAccountMeta.is_writable account))
                (ProposedInstruction.accounts (ProposeInstruction.instruction data)).
Proof.
  intros H. pose proof H as H'.
  apply propose_inv in H' as (K & P & b & t & r & HK & HP & Hb & Ht & _ & _).
  rewrite (propose_Ok fpa this data group signer K P b HK HP Hb) in H.
  injection H as <-. exists K, P, t. repeat split; auto.
  destruct (serialize_propose_Ok _ _ Hb) as (bi & Hi).
  apply serialize_ProposedInstruction_Ok in Hi as [Hpid _].
  rewrite (PublicKey_new_32 _ Hpid) in Ht. injection Ht as <-. reflexivity.
Qed.

(** C1, as amended: in the key list of [propose] (after its five leading
    entries) and of [approve] (after its four), the entry made from an
    account of the proposed instruction has the account's address, is not
    a signer when that address is the protected account's, whatever flag
    was supplied, and keeps the supplied signer flag otherwise.  When the
    caller's own key, the first entry, is not the protected address, no
    entry of the whole list at the protected address is a signer. *)
Theorem signer_rewrite
        (fpa : list (list byte) -> PublicKey.t -> Result (PublicKey.t * N))
        (this : MultiSig.t) :
  (forall data group signer ix P,
      propose fpa this data group signer = Ok ix ->
      protectedAccountKey fpa this group = Ok P ->
      Forall2 (rewritten P)
              (ProposedInstruction.accounts (ProposeInstruction.instruction data))
              (skipn 5 (TransactionInstruction.keys ix))
      /\ (PublicKey.equals P signer = false ->
          protected_never_signs P (TransactionInstruction.keys ix)))
  /\ (forall proposal config signer ix group P,
         approve fpa this proposal config signer = Ok ix ->
         PublicKey.new (ProposalConfig.group config) = Ok group ->
         protectedAccountKey fpa this group = Ok P ->
         Forall2 (rewritten P)
                 (ProposedInstruction.accounts (ProposalConfig.instruction config))
                 (skipn 4 (TransactionInstruction.keys ix))
         /\ (PublicKey.equals P signer = false ->
             protected_never_signs P (TransactionInstruction.keys ix))).
Proof.
  split.
  - intros data group signer ix P H HP.
    apply propose_inv in H as (K & P' & b & t & r & _ & HP' & _ & _ & Hr & ->).
    rewrite HP in HP'. injection HP' as <-.
    apply mapM_Ok_Forall2 in Hr.
    assert (Forall2 (rewritten P)
              (ProposedInstruction.accounts (ProposeInstruction.instruction data)) r) as F.
    { eapply Forall2_impl; [|exact Hr]. intros a m. apply remapAccount_Ok. }
    split; [exact F|]. intros Hs.
    cbn [TransactionInstruction.keys propose_head app].
    repeat (constructor; [cbn; congruence|]).
    now apply rewritten_never_signs in F.
  - intros proposal config signer ix group P H Hg HP.
    apply approve_inv in H as (g' & P' & b & t & r & Hg' & HP' & _ & Hr & ->).
    rewrite Hg in Hg'. injection Hg' as <-.
    rewrite HP in HP'. injection HP' as <-.
    apply mapM_Ok_Forall2 in Hr.
    assert (Forall2 (rewritten P)
              (ProposedInstruction.accounts (ProposalConfig.instruction config)) r) as F.
    { eapply Forall2_impl; [|exact Hr]. intros a m. apply remapAccount_Ok. }
    split; [exact F|]. intros Hs.
    cbn [TransactionInstruction.keys approve_head app].
    repeat (constructor; [cbn; congruence|]).
    now apply rewritten_never_signs in F.
Qed.

Lemma approve_Ok (fpa : list (list byte) -> PublicKey.t -> Result (PublicKey.t * N))
      (this : MultiSig.t) (proposal : PublicKey.t) (config : ProposalConfig.t)
      (signer group P target : PublicKey.t) :
  PublicKey.new (ProposalConfig.group config) = Ok group ->
  protectedAccountKey fpa this group = Ok P ->
  PublicKey.new (ProposedInstruction.program_id (ProposalConfig.instruction config))
    = Ok target ->
  Forall (fun a => length (ProposedAccountMeta.pubkey a) = 32%nat)
         (ProposedInstruction.accounts (ProposalConfig.instruction config)) ->
  approve fpa this proposal config signer
  = Ok (TransactionInstruction.mk
          (approve_head signer group proposal target
           ++ map (remapped P)
                  (ProposedInstruction.accounts (ProposalConfig.instruction config)))
          (MultiSig.programId this) [x02]).
Proof.
  intros Hg HP Ht Haccs. unfold approve. rewrite Hg. cbn [bind]. rewrite HP. cbn [bind].
  change (serialize_InstructionData (InstructionData.approve ApproveInstruction.mk))
    with (@Ok (list byte) [x02]).
  cbn [bind]. rewrite Ht. cbn [bind].
  rewrite (mapM_map _ (remapped P)); [reflexivity|].
  eapply Forall_impl; [|exact Haccs]. intros a Ha. now apply remapAccount_32.
Qed.

(** *** The scenario, instruction by instruction *)

Lemma scenario_propose (signer : PublicKey.t) :
  propose Web3.findProgramAddress Scenario.this Scenario.proposeData Scenario.G signer
  = Ok (TransactionInstruction.mk
          [ AccountMeta.mk signer true true;
            AccountMeta.mk Scenario.G false true;
            AccountMeta.mk Scenario.K false true;
            AccountMeta.mk SystemProgram.programId false false;
            AccountMeta.mk SystemProgram.programId false false;
            AccountMeta.mk Scenario.P false true;
            AccountMeta.mk Scenario.C false true ]
          (MultiSig.programId Scenario.this)
          Scenario.proposeBuffer).
Proof.
  exact (propose_Ok Web3.findProgramAddress Scenario.this Scenario.proposeData
                    Scenario.G signer Scenario.K Scenario.P Scenario.proposeBuffer
                    scenario_proposal scenario_protected eq_refl).
Qed.

Lemma scenario_approve :
  approve Web3.findProgramAddress Scenario.this Scenario.K Scenario.config Scenario.B
  = Ok (TransactionInstruction.mk
          [ AccountMeta.mk Scenario.B true true;
            AccountMeta.mk Scenario.G false true;
            AccountMeta.mk Scenario.K false true;
            AccountMeta.mk SystemProgram.programId false false;
            AccountMeta.mk Scenario.P false true;
            AccountMeta.mk Scenario.C false true ]
          (MultiSig.programId Scenario.this)
          [x02]).
Proof.
  refine (approve_Ok Web3.findProgramAddress Scenario.this Scenario.K Scenario.config
                     Scenario.B Scenario.G Scenario.P SystemProgram.programId
                     eq_refl scenario_protected eq_refl _).
  repeat constructor.
Qed.

(** ** Concrete runs *)

(** At the scenario's transfer, proposed by [A] and approved by [B], the
    entry of the protected account is not a signer although the proposed
    instruction marks it as one. *)
Lemma signer_rewrite_witness :
  (exists ix,
      propose Web3.findProgramAddress Scenario.this Scenario.proposeData
              Scenario.G Scenario.A = Ok ix
      /\ Forall2 (rewritten Scenario.P)
                 (ProposedInstruction.accounts Scenario.transfer)
                 (skipn 5 (TransactionInstruction.keys ix))
      /\ protected_never_signs Scenario.P (TransactionInstruction.keys ix))
  /\ (exists ix,
         approve Web3.findProgramAddress Scenario.this Scenario.K Scenario.config
                 Scenario.B = Ok ix
         /\ Forall2 (rewritten Scenario.P)
                    (ProposedInstruction.accounts Scenario.transfer)
                    (skipn 4 (TransactionInstruction.keys ix))
         /\ protected_never_signs Scenario.P (TransactionInstruction.keys ix)).
Proof.
  split.
  - eexists. split; [exact (scenario_propose Scenario.A)|].
    destruct (proj1 (signer_rewrite Web3.findProgramAddress Scenario.this)
                    Scenario.proposeData Scenario.G Scenario.A _ Scenario.P
                    (scenario_propose Scenario.A) scenario_protected) as [F N].
    split; [exact F | apply N; reflexivity].
  - eexists. split; [exact scenario_approve|].
    destruct (proj2 (signer_rewrite Web3.findProgramAddress Scenario.this)
                    Scenario.K Scenario.config Scenario.B _ Scenario.G Scenario.P
                    scenario_approve eq_refl scenario_protected) as [F N].
    split; [exact F | apply N; reflexivity].
Defined.

(** When the caller passes the protected address as the proposer's own key,
    the first entry of the emitted list has the protected address and is a
    signer. *)
Lemma signer_rewrite_counterexample :
  exists ix,
    propose Web3.findProgramAddress Scenario.this Scenario.proposeData
            Scenario.G Scenario.P = Ok ix
    /\ protectedAccountKey Web3.findProgramAddress Scenario.this Scenario.G
       = Ok Scenario.P
    /\ ~ protected_never_signs Scenario.P (TransactionInstruction.keys ix).
Proof.
  eexists. split; [exact (scenario_propose Scenario.P)|].
  split; [exact scenario_protected|].
  cbn [TransactionInstruction.keys]. intros H.
  apply Forall_inv in H. cbn in H. specialize (H eq_refl). discriminate.
Qed.

Lemma derived_addresses_witness :
  (exists b,
      serialize_GroupData Scenario.group = Ok b
      /\ groupAccountKey Web3.findProgramAddress Scenario.this Scenario.group
         = spec_derive Web3.findProgramAddress [x00] b
                       (MultiSig.programId Scenario.this))
  /\ (exists b,
         serialize_ProposalConfig Scenario.config = Ok b
         /\ proposalAccountKey Web3.findProgramAddress Scenario.this Scenario.config
            = spec_derive Web3.findProgramAddress [x01] b
                          (MultiSig.programId Scenario.this)).
Proof.
  split; eexists; (split; [vm_compute; reflexivity|]).
  - apply (proj1 (derived_addresses Web3.findProgramAddress Scenario.this)).
    vm_compute; reflexivity.
  - apply (proj1 (proj2 (derived_addresses Web3.findProgramAddress Scenario.this))).
    vm_compute; reflexivity.
Defined.

(** The protected address of the scenario's group is not the address that
    hash-then-derive gives for the group address. *)
Lemma derived_addresses_counterexample :
  protectedAccountKey Web3.findProgramAddress Scenario.this Scenario.G
  <> spec_derive Web3.findProgramAddress PDA_TAG.protected
                 (PublicKey.toBuffer Scenario.G) (MultiSig.programId Scenario.this).
Proof.
  rewrite scenario_protected, scenario_hashed. intros H.
  injection H as H. apply Pos.eqb_eq in H. vm_compute in H. discriminate.
Qed.

(** The scenario's transfer proposed twice for the same group, by [A] and
    by [B]: the proposal entry is the same. *)
Lemma proposal_address_dedup_witness :
  exists b,
    serialize_ProposalConfig Scenario.config = Ok b
    /\ proposalAccountKey Web3.findProgramAddress Scenario.this Scenario.config
       = proposalAccountKey Web3.findProgramAddress Scenario.this
           (ProposalConfig.mk (PublicKey.toBuffer Scenario.G) Scenario.transfer)
    /\ exists ix1 ix2 proposalKey,
        propose Web3.findProgramAddress Scenario.this Scenario.proposeData
                Scenario.G Scenario.A = Ok ix1
        /\ propose Web3.findProgramAddress Scenario.this Scenario.proposeData
                   Scenario.G Scenario.B = Ok ix2
        /\ nth_error (TransactionInstruction.keys ix1) 2
           = Some (AccountMeta.mk proposalKey false true)
        /\ nth_error (TransactionInstruction.keys ix2) 2
           = Some (AccountMeta.mk proposalKey false true).
Proof.
  eexists. split; [vm_compute; reflexivity|].
  edestruct (proposal_address_dedup Web3.findProgramAddress Scenario.this
               Scenario.config
               (ProposalConfig.mk (PublicKey.toBuffer Scenario.G) Scenario.transfer))
    as [E D]; [vm_compute; reflexivity | vm_compute; reflexivity |].
  split; [exact E|].
  destruct (D Scenario.proposeData Scenario.proposeData Scenario.G Scenario.A Scenario.B
              _ _ eq_refl (scenario_propose Scenario.A) (scenario_propose Scenario.B))
    as (proposalKey & H1 & H2).
  eexists _, _, proposalKey.
  split; [exact (scenario_propose Scenario.A)|].
  split; [exact (scenario_propose Scenario.B)|].
  split; [exact H1 | exact H2].
Defined.

Lemma propose_key_list_witness :
  exists ix,
    propose Web3.findProgramAddress Scenario.this Scenario.proposeData
            Scenario.G Scenario.A = Ok ix
    /\ exists target,
        TransactionInstruction.keys ix
        = [ AccountMeta.mk Scenario.A true true;
            AccountMeta.mk Scenario.G false true;
            AccountMeta.mk Scenario.K false true;
            AccountMeta.mk SystemProgram.programId false false;
            AccountMeta.mk target false false;
            AccountMeta.mk Scenario.P false true;
            AccountMeta.mk Scenario.C false true ].
Proof.
  eexists. split; [exact (scenario_propose Scenario.A)|].
  destruct (propose_key_list Web3.findProgramAddress Scenario.this Scenario.proposeData
                             Scenario.G Scenario.A _ (scenario_propose Scenario.A))
    as (K & P & target & HK & HP & Ht & Hkeys).
  exists target. injection Ht as <-. reflexivity.
Defined.

Lemma readProposalAccountData_all_zero_witness :
  readProposalAccountData Scenario.this (account [])
    = Throws (Throw "data is zero (proposal may be complete)")
  /\ readProposalAccountData Scenario.this (account (repeat x00 89))
     = Throws (Throw "data is zero (proposal may be complete)").
Proof.
  split.
  - apply (readProposalAccountData_all_zero Scenario.this (account []));
      [reflexivity | constructor].
  - apply (readProposalAccountData_all_zero Scenario.this (account (repeat x00 89)));
      [reflexivity | repeat constructor].
Defined.

Lemma readProposalAccountData_zero_payload_witness :
  readProposalAccountData Scenario.this (account (x00 :: repeat x00 84))
    = Throws (Throw "data is zero (proposal may be complete)")
  /\ readProposalAccountData Scenario.this (account (x01 :: repeat x00 84))
     = deserialize read_ProposalData (repeat x00 84)
  /\ readProposalAccountData Scenario.this (account (x02 :: repeat x00 84))
     = Throws (Throw "invalid account type").
Proof.
  split; [|split].
  - apply (readProposalAccountData_zero_payload
             Scenario.this (account (x00 :: repeat x00 84)) x00 (repeat x00 84));
      [reflexivity | reflexivity | repeat constructor | reflexivity].
  - apply (readProposalAccountData_zero_payload
             Scenario.this (account (x01 :: repeat x00 84)) x01 (repeat x00 84));
      [reflexivity | reflexivity | repeat constructor | reflexivity].
  - apply (readProposalAccountData_zero_payload
             Scenario.this (account (x02 :: repeat x00 84)) x02 (repeat x00 84));
      [reflexivity | reflexivity | repeat constructor | discriminate | discriminate].
Defined.

(** A proposal account, discriminant 1, whose payload is all zero: 84 zero
    bytes decode to the proposal of an empty instruction, a shorter payload
    is a decoding error; neither is reported as zero data. *)
Lemma readProposalAccountData_zero_payload_counterexample :
  Forall (fun b => b = x00) (repeat x00 84)
  /\ readProposalAccountData Scenario.this (account (x01 :: repeat x00 84))
     = Ok (ProposalData.mk
             (ProposalConfig.mk (repeat x00 32)
                                (ProposedInstruction.mk (repeat x00 32) [] []))
             (ProposalState.mk 0 0))
  /\ readProposalAccountData Scenario.this (account [x01; x00]) = Throws BorshError.
Proof. split; [repeat constructor | split; vm_compute; reflexivity]. Qed.

Lemma read_account_guards_witness :
  (readGroupAccountData Scenario.this
     (AccountInfo.mk false SystemProgram.programId 0 [x00; x00])
   = Throws (Throw "error: invalid account owner")
   /\ readProposalAccountData Scenario.this
        (AccountInfo.mk false SystemProgram.programId 0 [x01; x00])
      = Throws (Throw "error: invalid account owner"))
  /\ readGroupAccountData Scenario.this (account [x01; x00])
     = Throws (Throw "invalid account type")
  /\ readGroupAccountData Scenario.this (account (x00 :: repeat x00 8))
     = deserialize read_GroupData (repeat x00 8)
  /\ readProposalAccountData Scenario.this (account [x00; x07])
     = Throws (Throw "invalid account type")
  /\ readProposalAccountData Scenario.this (account (x01 :: repeat x00 84))
     = deserialize read_ProposalData (repeat x00 84).
Proof.
  split; [|split; [|split; [|split]]].
  - apply (proj1 (read_account_guards Scenario.this
                    (AccountInfo.mk false SystemProgram.programId 0 [x00; x00]))).
    reflexivity.
  - apply (proj1 (proj2 (read_account_guards Scenario.this (account [x01; x00]))
                        eq_refl x01 [x00] eq_refl)).
    discriminate.
  - apply (proj1 (proj2 (proj2 (read_account_guards Scenario.this
                                  (account (x00 :: repeat x00 8)))
                               eq_refl x00 (repeat x00 8) eq_refl))).
    reflexivity.
  - apply (proj1 (proj2 (proj2 (proj2 (read_account_guards Scenario.this
                                         (account [x00; x07]))
                                      eq_refl x00 [x07] eq_refl)))).
    + discriminate.
    + reflexivity.
  - apply (proj2 (proj2 (proj2 (proj2 (read_account_guards Scenario.this
                                         (account (x01 :: repeat x00 84)))
                                      eq_refl x01 (repeat x00 84) eq_refl)))).
    reflexivity.
Defined.

(** A proposal buffer of zero bytes: its first byte is not the proposal tag
    1, yet the error is the zero-data one, not the invalid-account-type one. *)
Lemma read_account_guards_counterexample :
  PublicKey.equals (AccountInfo.owner (account [x00; x00]))
                   (MultiSig.programId Scenario.this) = true
  /\ Byte.to_N x00 <> ACCOUNT_TYPE_TAG.proposal
  /\ readProposalAccountData Scenario.this (account [x00; x00])
     = Throws (Throw "data is zero (proposal may be complete)")
  /\ readProposalAccountData Scenario.this (account [x00; x00])
     <> Throws (Throw "invalid account type").
Proof. repeat split; discriminate. Qed.

Lemma groupAccountSpace_exact_witness :
  groupAccountSpace (groupOf 0) = Ok 9%nat
  /\ groupAccountSpace (groupOf 1) = Ok 45%nat
  /\ groupAccountSpace (groupOf 5) = Ok 189%nat
  /\ groupAccountSpace Scenario.group = Ok 81%nat.
Proof.
  split; [|split; [|split]].
  - destruct (groupAccountSpace_exact (groupOf 0)) as (b & _ & _ & _ & H & _);
      [split; [|split]; repeat constructor | now apply H].
  - destruct (groupAccountSpace_exact (groupOf 1)) as (b & _ & _ & _ & _ & H & _);
      [split; [|split]; repeat constructor | now apply H].
  - destruct (groupAccountSpace_exact (groupOf 5)) as (b & _ & _ & _ & _ & _ & H);
      [split; [|split]; repeat constructor | now apply H].
  - destruct (groupAccountSpace_exact Scenario.group) as (b & _ & L & H & _);
      [split; [|split]; repeat constructor | now rewrite H, L].
Defined.

(** The empty group is encoded in 8 bytes and gets 9: the tag is counted,
    a length is not. *)
Lemma groupAccountSpace_exact_counterexample :
  exists b,
    serialize_GroupData (groupOf 0) = Ok b
    /\ length b = 8%nat
    /\ groupAccountSpace (groupOf 0) = Ok 9%nat
    /\ groupAccountSpace (groupOf 0) <> Ok (length b + length_and_tag_overhead)%nat.
Proof.
  eexists. split; [vm_compute; reflexivity|].
  split; [reflexivity|]. split; [reflexivity|]. discriminate.
Qed.

Lemma proposalAccountSpace_exact_witness :
  exists b,
    serialize_ProposalConfig Scenario.config = Ok b
    /\ length b = 152%nat
    /\ proposalAccountSpace Scenario.config = Ok 169%nat.
Proof.
  eexists. split; [vm_compute; reflexivity|]. split; [reflexivity|].
  destruct (proposalAccountSpace_exact Scenario.config _ eq_refl) as (s & _ & _ & _ & _ & H).
  exact H.
Defined.

Lemma serialize_InstructionData_layout_witness :
  serialize_InstructionData (InstructionData.approve ApproveInstruction.mk) = Ok [x02]
  /\ serialize_InstructionData (InstructionData.propose Scenario.proposeData)
     = Ok (x01 :: match serialize_ProposeInstruction Scenario.proposeData with
                  | Ok body => body
                  | Throws _ => []
                  end).
Proof.
  split.
  - apply (serialize_InstructionData_layout
             (InstructionData.approve ApproveInstruction.mk) []).
    reflexivity.
  - apply (serialize_InstructionData_layout
             (InstructionData.propose Scenario.proposeData)).
    vm_compute; reflexivity.
Defined.

(** The approve envelope is the single byte 2: no four-byte index. *)
Lemma serialize_InstructionData_layout_counterexample :
  variant_encoding (InstructionData.approve ApproveInstruction.mk) = Ok []
  /\ serialize_InstructionData (InstructionData.approve ApproveInstruction.mk) = Ok [x02]
  /\ serialize_InstructionData (InstructionData.approve ApproveInstruction.mk)
     <> Ok (le_bytes 4 2 ++ []).
Proof. repeat split; discriminate. Qed.

(* ===================================================================== *)
(** * Further properties *)
(* ===================================================================== *)

(* ===================================================================== *)
(** * Further properties *)
(* ===================================================================== *)

(** ** What is written is read back *)

Lemma byte_of_N_to_N (b : byte) : byte_of_N (Byte.to_N b) = b.
Proof.
  unfold byte_of_N. pose proof (Byte.to_N_bounded b) as H.
  rewrite N.mod_small by lia. now rewrite Byte.of_to_N.
Qed.

Lemma to_N_byte_of_N (n : N) : Byte.to_N (byte_of_N n) = (n mod 256)%N.
Proof.
  unfold byte_of_N. destruct (Byte.of_N (n mod 256)) as [b|] eqn:E.
  - now apply Byte.to_of_N.
  - apply Byte.of_N_None_iff in E.
    pose proof (N.mod_upper_bound n 256 ltac:(lia)). lia.
Qed.

Lemma le_value_le_bytes (k : nat) (v : N) :
  (v < 256 ^ N.of_nat k)%N -> le_value (le_bytes k v) = v.
Proof.
  revert v. induction k as [|k IH]; intros v Hv.
  - simpl in *. lia.
  - cbn [le_bytes le_value]. rewrite to_N_byte_of_N, N.Div0.mod_mod, IH.
    + pose proof (N.div_mod' v 256). lia.
    + rewrite Nat2N.inj_succ, N.pow_succ_r' in Hv.
      apply N.Div0.div_lt_upper_bound; lia.
Qed.

Lemma readBuffer_app (a rest : list byte) :
  readBuffer (length a) (a ++ rest) = Ok (a, rest).
Proof.
  unfold readBuffer. rewrite length_app.
  replace (Nat.leb (length a) (length a + length rest)) with true
    by (symmetry; apply Nat.leb_le; lia).
  rewrite firstn_app, skipn_app, Nat.sub_diag, firstn_all, skipn_all.
  cbn [firstn skipn]. now rewrite app_nil_r.
Qed.

Lemma reads_U8 (v : N) (b : list byte) : writeU8 v = Ok b -> reads readU8 v b.
Proof.
  unfold writeU8. destruct (v <? 2 ^ 8)%N eqn:E; [|discriminate].
  intros [= <-] rest. apply N.ltb_lt in E.
  unfold readU8. rewrite (readBuffer_app (le_bytes 1 v)). cbn [bind].
  now rewrite le_value_le_bytes.
Qed.

Lemma reads_U32 (v : N) (b : list byte) : writeU32 v = Ok b -> reads readU32 v b.
Proof.
  unfold writeU32. destruct (v <? 2 ^ 32)%N eqn:E; [|discriminate].
  intros [= <-] rest. apply N.ltb_lt in E.
  unfold readU32. rewrite (readBuffer_app (le_bytes 4 v)). cbn [bind].
  now rewrite le_value_le_bytes.
Qed.


Lemma reads_FixedArray (n : nat) (v b : list byte) :
  writeFixedArray n v = Ok b -> reads (readFixedArray n) v b.
Proof.
  intros H rest. apply writeFixedArray_Ok in H as [-> <-].
  apply readBuffer_app.
Qed.

Lemma reads_N {A : Type} (fn : A -> Result (list byte)) (rd : Reader A)
      (l : list A) (es : list (list byte)) :
  Forall2 (fun x e => reads rd x e) l es ->
  reads (readN rd (length l)) l (concat es).
Proof.
  induction 1 as [|x e l es Hx _ IH]; intros rest; [reflexivity|].
  cbn [length readN concat]. rewrite <- app_assoc, Hx. cbn [bind].
  now rewrite IH.
Qed.

Lemma reads_Array {A : Type} (fn : A -> Result (list byte)) (rd : Reader A)
      (l : list A) (b : list byte) :
  (forall x e, fn x = Ok e -> reads rd x e) ->
  writeArray fn l = Ok b -> reads (readArray rd) l b.
Proof.
  intros Hfn H rest. unfold writeArray in H.
  apply bind_Ok in H as (len & Hlen & H). apply bind_Ok in H as (es & Hes & H).
  injection H as <-.
  unfold readArray. rewrite <- app_assoc, (reads_U32 _ _ Hlen). cbn [bind].
  rewrite Nat2N.id. apply (reads_N fn).
  apply mapM_Ok_Forall2 in Hes.
  eapply Forall2_impl; [|exact Hes]. intros x e. apply Hfn.
Qed.

Lemma intToBool_boolToInt (t : bool) : intToBool (boolToInt t) = t.
Proof. now destruct t. Qed.

Ltac invert_binds H :=
  repeat match type of H with
         | bind _ _ = Ok _ =>
             let x := fresh "b" in
             let Hx := fresh "Hb" in
             apply bind_Ok in H as (x & Hx & H)
         end;
  injection H as <-.

Lemma reads_GroupMember (m : GroupMember.t) (b : list byte) :
  serialize_GroupMember m = Ok b -> reads read_GroupMember m b.
Proof.
  unfold serialize_GroupMember. intros H rest. invert_binds H.
  unfold read_GroupMember.
  rewrite <- app_assoc, (reads_FixedArray _ _ _ Hb). cbn [bind].
  rewrite (reads_U32 _ _ Hb0). cbn [bind]. now destruct m.
Qed.

Lemma reads_GroupData (g : GroupData.t) (b : list byte) :
  serialize_GroupData g = Ok b -> reads read_GroupData g b.
Proof.
  unfold serialize_GroupData. intros H rest. invert_binds H.
  unfold read_GroupData.
  rewrite <- app_assoc,
    (reads_Array _ read_GroupMember _ _ reads_GroupMember Hb). cbn [bind].
  rewrite (reads_U32 _ _ Hb0). cbn [bind]. now destruct g.
Qed.

Lemma reads_ProposedAccountMeta (a : ProposedAccountMeta.t) (b : list byte) :
  serialize_ProposedAccountMeta a = Ok b -> reads read_ProposedAccountMeta a b.
Proof.
  unfold serialize_ProposedAccountMeta. intros H rest. invert_binds H.
  unfold read_ProposedAccountMeta.
  rewrite <- !app_assoc, (reads_FixedArray _ _ _ Hb). cbn [bind].
  rewrite (reads_U8 _ _ Hb0). cbn [bind].
  rewrite (reads_U8 _ _ Hb1). cbn [bind].
  rewrite !intToBool_boolToInt. now destruct a.
Qed.

Lemma reads_data_byte (x : byte) (e : list byte) :
  writeU8 (Byte.to_N x) = Ok e ->
  reads (fun b => '(v, r) <- readU8 b ;; Ok (byte_of_N v, r)) x e.
Proof.
  intros H rest. rewrite (reads_U8 _ _ H). cbn [bind].
  now rewrite byte_of_N_to_N.
Qed.

Lemma reads_ProposedInstruction (i : ProposedInstruction.t) (b : list byte) :
  serialize_ProposedInstruction i = Ok b -> reads read_ProposedInstruction i b.
Proof.
  unfold serialize_ProposedInstruction. intros H rest. invert_binds H.
  unfold read_ProposedInstruction.
  rewrite <- !app_assoc, (reads_FixedArray _ _ _ Hb). cbn [bind].
  rewrite (reads_Array _ read_ProposedAccountMeta _ _ reads_ProposedAccountMeta Hb0).
  cbn [bind].
  rewrite (reads_Array _ _ _ _ reads_data_byte Hb1). cbn [bind].
  now destruct i.
Qed.

Lemma reads_ProposalConfig (c : ProposalConfig.t) (b : list byte) :
  serialize_ProposalConfig c = Ok b -> reads read_ProposalConfig c b.
Proof.
  unfold serialize_ProposalConfig. intros H rest. invert_binds H.
  unfold read_ProposalConfig.
  rewrite <- !app_assoc, (reads_FixedArray _ _ _ Hb). cbn [bind].
  rewrite (reads_ProposedInstruction _ _ Hb0). cbn [bind]. now destruct c.
Qed.



Lemma deserialize_reads {A : Type} (read : Reader A) (x : A) (b : list byte) :
  reads read x b -> deserialize read b = Ok x.
Proof.
  intros H. unfold deserialize. specialize (H []). rewrite app_nil_r in H.
  now rewrite H.
Qed.

(** ** Account data written by the encoders is read back *)

Lemma only_read_GroupData (buf : list byte) :
  throws_only_BorshError (read_GroupData buf).
Proof.
  unfold read_GroupData. only_borsh. apply only_readArray.
  intros b. unfold read_GroupMember, readFixedArray. only_borsh.
Qed.

(** X1: The bytes of a group, after the group tag, are read back as the group:
    [readGroupAccountData] inverts [serialize] on every group that
    serializes. *)
Theorem readGroupAccountData_serialized
        (this : MultiSig.t) (info : AccountInfo.t) (g : GroupData.t) (b : list byte) :
  serialize_GroupData g = Ok b ->
  PublicKey.equals (AccountInfo.owner info) (MultiSig.programId this) = true ->
  AccountInfo.data info = x00 :: b ->
  readGroupAccountData this info = Ok g.
Proof.
  intros Hb Ho Hd. unfold readGroupAccountData. rewrite Ho, Hd. cbn.
  apply deserialize_reads, reads_GroupData, Hb.
Qed.


Lemma serialize_GroupData_inj (g1 g2 : GroupData.t) (b : list byte) :
  serialize_GroupData g1 = Ok b -> serialize_GroupData g2 = Ok b -> g1 = g2.
Proof.
  intros H1 H2. apply reads_GroupData, deserialize_reads in H1, H2.
  rewrite H1 in H2. now injection H2.
Qed.

(** X3: Two groups that serialize have the same encoding only when they are the
    same group: same members, same order, same weights and threshold. *)
Theorem serialize_GroupData_injective (g1 g2 : GroupData.t) (b1 b2 : list byte) :
  serialize_GroupData g1 = Ok b1 ->
  serialize_GroupData g2 = Ok b2 ->
  (b1 = b2 <-> g1 = g2).
Proof.
  intros H1 H2. split.
  - intros <-. exact (serialize_GroupData_inj _ _ _ H1 H2).
  - intros <-. rewrite H1 in H2. now injection H2.
Qed.

(** X4: The order of the members shows in the encoding, hence in the bytes
    hashed into the group address: two different members in the two orders
    give different encodings. *)
Theorem member_order_matters (m1 m2 : GroupMember.t) (threshold : N) (b1 b2 : list byte) :
  m1 <> m2 ->
  serialize_GroupData (GroupData.mk [m1; m2] threshold) = Ok b1 ->
  serialize_GroupData (GroupData.mk [m2; m1] threshold) = Ok b2 ->
  b1 <> b2.
Proof.
  intros Hm H1 H2 <-. pose proof (serialize_GroupData_inj _ _ _ H1 H2) as E.
  injection E as E _. auto.
Qed.

(** X5: Two proposal configurations that serialize have the same encoding, the
    bytes hashed into the proposal address, only when they are the same
    configuration. *)
Theorem serialize_ProposalConfig_injective
        (c1 c2 : ProposalConfig.t) (b1 b2 : list byte) :
  serialize_ProposalConfig c1 = Ok b1 ->
  serialize_ProposalConfig c2 = Ok b2 ->
  (b1 = b2 <-> c1 = c2).
Proof.
  intros H1 H2. split.
  - intros <-. apply reads_ProposalConfig in H1, H2.
    specialize (H1 []). specialize (H2 []). rewrite H1 in H2. now injection H2.
  - intros <-. rewrite H1 in H2. now injection H2.
Qed.

(** X6: The empty-data error is that of [readGroupAccountData] on an account of
    the program without data, and of nothing else; [readProposalAccountData]
    never throws it. *)
Theorem account_data_is_empty (this : MultiSig.t) (info : AccountInfo.t) :
  (readGroupAccountData this info = Throws (Throw "account data is empty")
   <-> PublicKey.equals (AccountInfo.owner info) (MultiSig.programId this) = true
       /\ AccountInfo.data info = [])
  /\ readProposalAccountData this info <> Throws (Throw "account data is empty").
Proof.
  unfold readGroupAccountData, readProposalAccountData.
  destruct (PublicKey.equals (AccountInfo.owner info) (MultiSig.programId this));
    cbn [negb].
  - destruct (AccountInfo.data info) as [|d rest] eqn:Hd.
    + split; [split; auto|]. cbn. discriminate.
    + split.
      * split; [|intros [_ [=]]].
        rewrite checkAccountType_cons.
        destruct (Byte.to_N d =? ACCOUNT_TYPE_TAG.group)%N; cbn; [|discriminate].
        intros H. apply only_deserialize in H; [discriminate|].
        apply only_read_GroupData.
      * destruct (anyNonZero (d :: rest)); cbn [negb]; [|discriminate].
        rewrite checkAccountType_cons.
        destruct (Byte.to_N d =? ACCOUNT_TYPE_TAG.proposal)%N; cbn; [|discriminate].
        intros H. apply only_deserialize in H; [discriminate|].
        apply only_read_ProposalData.
  - split; [|discriminate]. split; [discriminate | intros [[=] _]].
Qed.

(** ** Public keys and their buffers *)

Lemma be_value_rev (l : list byte) : be_value (rev l) = le_value l.
Proof.
  unfold be_value. induction l as [|x t IH]; [reflexivity|].
  cbn [rev le_value]. rewrite fold_left_app. cbn [fold_left]. rewrite IH. lia.
Qed.

Lemma toBuffer_length (k : PublicKey.t) : length (PublicKey.toBuffer k) = 32%nat.
Proof. unfold PublicKey.toBuffer. now rewrite length_rev, le_bytes_length. Qed.

(** A key is what [new PublicKey] makes of its buffer. *)
Lemma PublicKey_new_toBuffer (k : PublicKey.t) :
  (PublicKey.bn k < 2 ^ 256)%N -> PublicKey.new (PublicKey.toBuffer k) = Ok k.
Proof.
  intros H. rewrite (PublicKey_new_32 _ (toBuffer_length k)).
  unfold PublicKey.toBuffer. rewrite be_value_rev, le_value_le_bytes; [now destruct k|].
  exact H.
Qed.

(** ** [init], [propose] and [approve]: keys and payloads *)

(** X7: [init] emits four keys: the payer (signer, writable), the group address
    derived from the group data (writable), the system program (read-only)
    and the protected address derived from the group address (writable);
    only the payer signs.  The payload is the byte 0 and the encoding of the
    [InitInstruction]; the program is the multisig program. *)
Theorem init_instruction
        (fpa : list (list byte) -> PublicKey.t -> Result (PublicKey.t * N))
        (this : MultiSig.t) (data : InitInstruction.t) (payer : PublicKey.t)
        (ix : TransactionInstruction.t) :
  init fpa this data payer = Ok ix ->
  exists group protected body,
    groupAccountKey fpa this (InitInstruction.group_data data) = Ok group
    /\ protectedAccountKey fpa this group = Ok protected
    /\ serialize_InitInstruction data = Ok body
    /\ ix = TransactionInstruction.mk
              [ AccountMeta.mk payer true true;
                AccountMeta.mk group false true;
                AccountMeta.mk SystemProgram.programId false false;
                AccountMeta.mk protected false true ]
              (MultiSig.programId this)
              (x00 :: body).
Proof.
  unfold init. intros H.
  apply bind_Ok in H as (buffer & Hb & H).
  apply bind_Ok in H as (group & Hg & H).
  apply bind_Ok in H as (protected & Hp & H).
  injection H as <-.
  cbn in Hb. apply bind_Ok in Hb as (body & Hbody & Hb). injection Hb as <-.
  exists group, protected, body. auto.
Qed.

(** X8: [approve] emits the approver (signer, writable), the group address read
    from the configuration (writable), the proposal address exactly as
    passed (writable; it is not derived again from the configuration), the
    proposed instruction's program (read-only), then the accounts of the
    proposed instruction with the signer rewrite.  The payload is the single
    byte 2 and the configuration is not serialized. *)
Theorem approve_instruction
        (fpa : list (list byte) -> PublicKey.t -> Result (PublicKey.t * N))
        (this : MultiSig.t) (proposal : PublicKey.t) (config : ProposalConfig.t)
        (signer : PublicKey.t) (ix : TransactionInstruction.t) :
  approve fpa this proposal config signer = Ok ix ->
  exists group P target rest,
    PublicKey.new (ProposalConfig.group config) = Ok group
    /\ protectedAccountKey fpa this group = Ok P
    /\ PublicKey.new (ProposedInstruction.program_id (ProposalConfig.instruction config))
       = Ok target
    /\ Forall2 (rewritten P)
               (ProposedInstruction.accounts (ProposalConfig.instruction config)) rest
    /\ ix = TransactionInstruction.mk
              ([ AccountMeta.mk signer true true;
                 AccountMeta.mk group false true;
                 AccountMeta.mk proposal false true;
                 AccountMeta.mk target false false ] ++ rest)
              (MultiSig.programId this)
              [x02].
Proof.
  unfold approve. intros H.
  apply bind_Ok in H as (group & Hg & H).
  apply bind_Ok in H as (P & HP & H).
  change (serialize_InstructionData (InstructionData.approve ApproveInstruction.mk))
    with (@Ok (list byte) [x02]) in H. cbn [bind] in H.
  apply bind_Ok in H as (target & Ht & H).
  apply bind_Ok in H as (rest & Hr & H).
  injection H as <-. exists group, P, target, rest. repeat (split; [assumption|]).
  split; [|reflexivity].
  apply mapM_Ok_Forall2 in Hr.
  eapply Forall2_impl; [|exact Hr]. intros a m. apply remapAccount_Ok.
Qed.

(** X9: The payload of [propose] is the byte 1, the encoding of the proposed
    instruction and the lamports in 8 bytes, little-endian; the program is
    the multisig program. *)
Theorem propose_payload
        (fpa : list (list byte) -> PublicKey.t -> Result (PublicKey.t * N))
        (this : MultiSig.t) (data : ProposeInstruction.t)
        (group signer : PublicKey.t) (ix : TransactionInstruction.t) :
  propose fpa this data group signer = Ok ix ->
  exists encoding,
    serialize_ProposedInstruction (ProposeInstruction.instruction data) = Ok encoding
    /\ TransactionInstruction.data ix
       = x01 :: encoding ++ le_bytes 8 (ProposeInstruction.lamports data)
    /\ (ProposeInstruction.lamports data < 2 ^ 53)%N
    /\ TransactionInstruction.programId ix = MultiSig.programId this.
Proof.
  intros H.
  apply propose_inv in H as (K & P & b & t & r & _ & _ & Hb & _ & _ & ->).
  cbn in Hb. apply bind_Ok in Hb as (body & Hbody & Hb). injection Hb as <-.
  unfold serialize_ProposeInstruction in Hbody.
  apply bind_Ok in Hbody as (enc & Henc & Hbody).
  apply bind_Ok in Hbody as (lam & Hlam & Hbody). injection Hbody as <-.
  unfold writeU64 in Hlam.
  destruct (ProposeInstruction.lamports data <? 2 ^ 53)%N eqn:E; [|discriminate].
  injection Hlam as <-. apply N.ltb_lt in E.
  exists enc. auto.
Qed.

(** X10: Whenever [propose] returns for a group key and a proposed instruction,
    [approve] returns for the configuration made of the two, whatever
    proposal address and approver are passed, and its entries from the
    group on are those of [propose] without the system program: the same
    group, the same program, the same accounts with the same flags. *)
Theorem approve_follows_propose
        (fpa : list (list byte) -> PublicKey.t -> Result (PublicKey.t * N))
        (this : MultiSig.t) (data : ProposeInstruction.t)
        (group signer proposal approver : PublicKey.t) (ixp : TransactionInstruction.t) :
  (PublicKey.bn group < 2 ^ 256)%N ->
  propose fpa this data group signer = Ok ixp ->
  exists ixa proposalKey target rest,
    approve fpa this proposal
            (ProposalConfig.mk (PublicKey.toBuffer group)
                               (ProposeInstruction.instruction data)) approver = Ok ixa
    /\ TransactionInstruction.keys ixp
       = [ AccountMeta.mk signer true true;
           AccountMeta.mk group false true;
           AccountMeta.mk proposalKey false true;
           AccountMeta.mk SystemProgram.programId false false;
           AccountMeta.mk target false false ] ++ rest
    /\ TransactionInstruction.keys ixa
       = [ AccountMeta.mk approver true true;
           AccountMeta.mk group false true;
           AccountMeta.mk proposal false true;
           AccountMeta.mk target false false ] ++ rest.
Proof.
  intros Hg H. pose proof H as H'.
  apply propose_inv in H' as (K & P & b & t & r & HK & HP & Hb & Ht & _ & _).
  rewrite (propose_Ok fpa this data group signer K P b HK HP Hb) in H.
  injection H as <-.
  destruct (serialize_propose_Ok _ _ Hb) as (bi & Hi).
  apply serialize_ProposedInstruction_Ok in Hi as [Hpid Haccs].
  rewrite (PublicKey_new_32 _ Hpid) in Ht. injection Ht as <-.
  pose proof (approve_Ok fpa this proposal
                (ProposalConfig.mk (PublicKey.toBuffer group)
                                   (ProposeInstruction.instruction data))
                approver group P _
                (PublicKey_new_toBuffer group Hg) HP
                (PublicKey_new_32 _ Hpid) Haccs) as Ha.
  eexists _, K, _, _. split; [exact Ha|]. split; reflexivity.
Qed.

(** ** The proposal workflow *)

Lemma proposalAccountSpace_length (config : ProposalConfig.t) (b : list byte) :
  serialize_ProposalConfig config = Ok b ->
  proposalAccountSpace config = Ok (length b + 17)%nat.
Proof.
  intros Hb. unfold proposalAccountSpace, serialize_ProposalData.
  cbn [ProposalData.config ProposalData.state].
  rewrite Hb, serialize_ProposalState_mock. cbn [bind].
  f_equal. rewrite length_app. simpl. lia.
Qed.


Section WorkflowProperties.

Variable fpa : list (list byte) -> PublicKey.t -> Result (PublicKey.t * N).
Variable builders : Builders.t.
Variable connection : Connection.t.
Variable multisig : MultiSig.t.

Lemma proposeMulti_loop_mapM signerAccount groupAccount instructions :
  forall transaction proposalKeys,
    proposeMulti_loop fpa connection multisig signerAccount groupAccount
                      instructions transaction proposalKeys
    = (rounds <- mapM (proposeMulti_round fpa connection multisig
                                           signerAccount groupAccount) instructions ;;
       Ok (transaction ++ map fst rounds, proposalKeys ++ map snd rounds)).
Proof.
  induction instructions as [|i rest IH]; intros tx keys; cbn [proposeMulti_loop mapM].
  - cbn. now rewrite !app_nil_r.
  - destruct (proposeMulti_round fpa connection multisig signerAccount groupAccount i)
      as [[ix key]|e]; cbn [bind]; [|reflexivity].
    rewrite IH.
    destruct (mapM (proposeMulti_round fpa connection multisig signerAccount groupAccount)
                   rest) as [rounds|e]; cbn [bind map fst snd]; [|reflexivity].
    now rewrite <- !app_assoc.
Qed.

Lemma proposeMulti_transaction_inv signerAccount groupAccount instructions tx keys :
  proposeMulti_transaction fpa connection multisig signerAccount groupAccount instructions
  = Ok (tx, keys) ->
  exists rounds,
    Forall2 (fun instruction round =>
               proposeMulti_round fpa connection multisig signerAccount groupAccount
                                  instruction = Ok round)
            instructions rounds
    /\ tx = map fst rounds /\ keys = map snd rounds.
Proof.
  unfold proposeMulti_transaction. rewrite proposeMulti_loop_mapM. intros H.
  apply bind_Ok in H as (rounds & Hr & H). injection H as <- <-.
  exists rounds. split; [now apply mapM_Ok_Forall2 | auto].
Qed.

Lemma serialize_ProposalConfig_app (c : ProposalConfig.t) (b : list byte) :
  serialize_ProposalConfig c = Ok b ->
  exists instructionBytes,
    serialize_ProposedInstruction (ProposalConfig.instruction c) = Ok instructionBytes
    /\ b = ProposalConfig.group c ++ instructionBytes.
Proof.
  unfold serialize_ProposalConfig. intros H.
  apply bind_Ok in H as (g & Hg & H). apply bind_Ok in H as (i & Hi & H).
  injection H as <-. apply writeFixedArray_Ok in Hg as [-> _]. eauto.
Qed.

Lemma proposeMulti_round_inv signerAccount groupAccount instruction ix proposalKey :
  proposeMulti_round fpa connection multisig signerAccount groupAccount instruction
  = Ok (ix, proposalKey) ->
  proposed_for fpa connection multisig signerAccount groupAccount instruction ix proposalKey.
Proof.
  unfold proposeMulti_round. fold (proposedConfig groupAccount instruction). intros H.
  apply bind_Ok in H as (K & HK & H).
  apply bind_Ok in H as (space & Hs & H).
  apply bind_Ok in H as (rent & Hrent & H).
  apply bind_Ok in H as (ix' & Hix & H). injection H as -> ->.
  pose proof HK as HK'. unfold proposalAccountKey in HK'.
  apply bind_Ok in HK' as (cb & Hcb & _).
  pose proof (proposalAccountSpace_length _ _ Hcb) as Hspace.
  rewrite Hspace in Hs. injection Hs as <-.
  destruct (serialize_ProposalConfig_app _ _ Hcb) as (ib & Hib & Hcb').
  cbn [proposedConfig ProposalConfig.group ProposalConfig.instruction] in Hcb', Hib.
  pose proof Hix as Hp. apply propose_inv in Hp
    as (K' & P & b & t & r & HK2 & _ & Hb & _ & _ & ->).
  cbn [ProposeInstruction.instruction] in HK2. unfold proposedConfig in HK.
  rewrite HK in HK2. injection HK2 as <-.
  cbn in Hb. apply bind_Ok in Hb as (body & Hbody & Hb). injection Hb as <-.
  unfold serialize_ProposeInstruction in Hbody.
  cbn [ProposeInstruction.instruction ProposeInstruction.lamports] in Hbody.
  rewrite Hib in Hbody. cbn [bind] in Hbody.
  apply bind_Ok in Hbody as (lam & Hlam & Hbody). injection Hbody as <-.
  unfold writeU64 in Hlam. destruct (rent <? 2 ^ 53)%N; [|discriminate].
  injection Hlam as <-.
  exists cb, ib, rent. repeat (split; [assumption || reflexivity|]). reflexivity.
Qed.

(** X11: [proposeMulti] makes one propose instruction per instruction, in order,
    and returns one proposal address per instruction: the address derived
    from the group and the instruction, which is also the third key of the
    propose instruction.  The lamports of each propose instruction are the
    rent-exempt minimum for the length of the configuration's encoding
    plus 17. *)
Theorem proposeMulti_transaction_spec
        (signerAccount : Account.t) (groupAccount : PublicKey.t)
        (instructions : list TransactionInstruction.t)
        (tx : Transaction) (keys : list PublicKey.t) :
  proposeMulti_transaction fpa connection multisig signerAccount groupAccount instructions
  = Ok (tx, keys) ->
  length tx = length instructions
  /\ length keys = length instructions
  /\ Forall2 (fun instruction ix_key =>
                proposed_for fpa connection multisig signerAccount groupAccount instruction
                             (fst ix_key) (snd ix_key))
             instructions (combine tx keys).
Proof.
  intros H. apply proposeMulti_transaction_inv in H as (rounds & F & -> & ->).
  rewrite !length_map. pose proof (Forall2_length F) as L.
  repeat split; auto.
  clear L. induction F as [|i [ix key] il rs Hi _ IH]; cbn; constructor; auto.
  now apply proposeMulti_round_inv.
Qed.

End WorkflowProperties.

Section WorkflowAccounts.

Variable fpa : list (list byte) -> PublicKey.t -> Result (PublicKey.t * N).
Variable builders : Builders.t.
Variable connection : Connection.t.
Variable multisig : MultiSig.t.

Lemma remapAccount_new (P pubkey : PublicKey.t) (is_signer is_writable : bool) :
  (PublicKey.bn pubkey < 2 ^ 256)%N ->
  remapAccount P (new_ProposedAccountMeta pubkey is_signer is_writable)
  = Ok (AccountMeta.mk pubkey
                       (if PublicKey.equals P pubkey then false else is_signer)
                       is_writable).
Proof.
  intros H. unfold remapAccount, new_ProposedAccountMeta.
  cbn [ProposedAccountMeta.pubkey ProposedAccountMeta.is_signer
       ProposedAccountMeta.is_writable].
  now rewrite (PublicKey_new_toBuffer _ H).
Qed.

Lemma mapM_remapAccount_new (P : PublicKey.t) (keys : list AccountMeta.t) :
  Forall (fun key => (PublicKey.bn (AccountMeta.pubkey key) < 2 ^ 256)%N) keys ->
  mapM (remapAccount P)
       (map (fun key => new_ProposedAccountMeta (AccountMeta.pubkey key)
                                                (AccountMeta.isSigner key)
                                                (AccountMeta.isWritable key)) keys)
  = Ok (map (reproposed P) keys).
Proof.
  induction 1 as [|key keys Hk _ IH]; [reflexivity|].
  cbn [map mapM]. rewrite (remapAccount_new _ _ _ _ Hk), IH. reflexivity.
Qed.

Lemma proposeMulti_round_keys signerAccount groupAccount instruction ix proposalKey P :
  protectedAccountKey fpa multisig groupAccount = Ok P ->
  valid_instruction instruction ->
  proposeMulti_round fpa connection multisig signerAccount groupAccount instruction
  = Ok (ix, proposalKey) ->
  TransactionInstruction.keys ix
  = [ AccountMeta.mk (Account.publicKey signerAccount) true true;
      AccountMeta.mk groupAccount false true;
      AccountMeta.mk proposalKey false true;
      AccountMeta.mk SystemProgram.programId false false;
      AccountMeta.mk (TransactionInstruction.programId instruction) false false ]
    ++ map (reproposed P) (TransactionInstruction.keys instruction).
Proof.
  intros HP [Hpid Hkeys] H. unfold proposeMulti_round in H.
  apply bind_Ok in H as (K & HK & H).
  apply bind_Ok in H as (space & _ & H).
  apply bind_Ok in H as (rent & _ & H).
  apply bind_Ok in H as (ix' & Hix & H). injection H as -> ->.
  apply propose_inv in Hix as (K' & P' & b & t & r & HK' & HP' & _ & Ht & Hr & ->).
  cbn [ProposeInstruction.instruction] in *.
  rewrite HK in HK'. injection HK' as <-.
  rewrite HP in HP'. injection HP' as <-.
  unfold new_ProposedInstruction in Ht, Hr.
  cbn [ProposedInstruction.program_id ProposedInstruction.accounts] in Ht, Hr.
  rewrite (PublicKey_new_toBuffer _ Hpid) in Ht. injection Ht as <-.
  rewrite (mapM_remapAccount_new _ _ Hkeys) in Hr. injection Hr as <-.
  reflexivity.
Qed.

(** X12: Every propose instruction of [proposeMulti] lists, after the proposer,
    the group, the proposal and the system program, the program of the
    instruction it proposes and then that instruction's own accounts, in
    order and with their writable flags; the signer flag of an account is
    kept, except at the protected address of the group, where it is
    cleared. *)
Theorem proposeMulti_keeps_accounts
        (signerAccount : Account.t) (groupAccount P : PublicKey.t)
        (instructions : list TransactionInstruction.t)
        (tx : Transaction) (keys : list PublicKey.t) :
  protectedAccountKey fpa multisig groupAccount = Ok P ->
  Forall valid_instruction instructions ->
  proposeMulti_transaction fpa connection multisig signerAccount groupAccount instructions
  = Ok (tx, keys) ->
  Forall2 (fun instruction ix =>
             skipn 4 (TransactionInstruction.keys ix)
             = AccountMeta.mk (TransactionInstruction.programId instruction) false false
               :: map (reproposed P) (TransactionInstruction.keys instruction)
             /\ TransactionInstruction.programId ix = MultiSig.programId multisig)
          instructions tx.
Proof.
  intros HP Hv H. apply proposeMulti_transaction_inv in H as (rounds & F & -> & _).
  induction F as [|i [ix key] il rs Hi _ IH]; cbn [map fst]; constructor.
  - inversion_clear Hv as [|? ? Hvi _]. split.
    + now rewrite (proposeMulti_round_keys _ _ _ _ _ _ HP Hvi Hi).
    + unfold proposeMulti_round in Hi.
      apply bind_Ok in Hi as (K & _ & Hi). apply bind_Ok in Hi as (s & _ & Hi).
      apply bind_Ok in Hi as (r & _ & Hi). apply bind_Ok in Hi as (ix' & Hix & Hi).
      injection Hi as -> _.
      now apply propose_inv in Hix as (? & ? & ? & ? & ? & _ & _ & _ & _ & _ & ->).
  - apply IH. now inversion Hv.
Qed.

(** X13: When the only accounts that an instruction marks as signers are at the
    protected address of the group, the propose instruction that
    [proposeMulti] makes for it has one signer: the proposer. *)
Theorem proposeMulti_single_signer
        (signerAccount : Account.t) (groupAccount P : PublicKey.t)
        (instructions : list TransactionInstruction.t)
        (tx : Transaction) (keys : list PublicKey.t) :
  protectedAccountKey fpa multisig groupAccount = Ok P ->
  Forall valid_instruction instructions ->
  Forall (fun instruction =>
            Forall (fun key => AccountMeta.isSigner key = true ->
                               AccountMeta.pubkey key = P)
                   (TransactionInstruction.keys instruction)) instructions ->
  proposeMulti_transaction fpa connection multisig signerAccount groupAccount instructions
  = Ok (tx, keys) ->
  Forall (fun ix =>
            exists rest,
              TransactionInstruction.keys ix
              = AccountMeta.mk (Account.publicKey signerAccount) true true :: rest
              /\ Forall (fun key => AccountMeta.isSigner key = false) rest) tx.
Proof.
  intros HP Hv Hs H. apply proposeMulti_transaction_inv in H as (rounds & F & -> & _).
  induction F as [|i [ix key] il rs Hi _ IH]; cbn [map fst]; constructor.
  - inversion_clear Hv as [|? ? Hvi _]. inversion_clear Hs as [|? ? Hsi _].
    rewrite (proposeMulti_round_keys _ _ _ _ _ _ HP Hvi Hi). eexists. split; [reflexivity|].
    repeat (constructor; [reflexivity|]).
    apply Forall_map. eapply Forall_impl; [|exact Hsi].
    intros k Hk. cbv beta in Hk. unfold reproposed. cbn [AccountMeta.isSigner].
    destruct (AccountMeta.isSigner k) eqn:E; [|now destruct (PublicKey.equals _ _)].
    rewrite (Hk eq_refl). unfold PublicKey.equals. now rewrite N.eqb_refl.
  - apply IH; [now inversion Hv | now inversion Hs].
Qed.

End WorkflowAccounts.

(** ** The approval workflow *)

Section ApprovalProperties.

Variable fpa : list (list byte) -> PublicKey.t -> Result (PublicKey.t * N).
Variable builders : Builders.t.
Variable connection : Connection.t.
Variable multisig : MultiSig.t.

Lemma createMultiApprove_loop_mapM signer proposals :
  forall transaction,
    createMultiApprove_loop fpa connection multisig signer proposals transaction
    = (ixs <- mapM (approve_round fpa connection multisig signer) proposals ;;
       Ok (transaction ++ ixs)).
Proof.
  induction proposals as [|p rest IH]; intros tx; cbn [createMultiApprove_loop mapM].
  - cbn. now rewrite app_nil_r.
  - destruct (approve_round fpa connection multisig signer p) as [ix|e]; cbn [bind];
      [|reflexivity].
    rewrite IH.
    destruct (mapM (approve_round fpa connection multisig signer) rest) as [ixs|e];
      cbn [bind]; [|reflexivity].
    now rewrite <- app_assoc.
Qed.

Lemma createMultiApprove_transaction_mapM signer proposals :
  createMultiApprove_transaction fpa connection multisig signer proposals
  = mapM (approve_round fpa connection multisig signer) proposals.
Proof.
  unfold createMultiApprove_transaction. rewrite createMultiApprove_loop_mapM.
  now destruct (mapM _ proposals).
Qed.

Lemma approve_round_inv signer proposal ix :
  approve_round fpa connection multisig signer proposal = Ok ix ->
  approved_for fpa connection multisig signer proposal ix.
Proof.
  unfold approve_round. intros H.
  apply bind_Ok in H as ([info|] & Hinfo & H); [|discriminate].
  apply bind_Ok in H as (d & Hd & H).
  apply bind_Ok in H as (group & Hg & H).
  apply bind_Ok in H as (P & HP & H).
  unfold approve in H. rewrite Hg in H. cbn [bind] in H. rewrite HP in H.
  cbn [bind] in H.
  change (serialize_InstructionData (InstructionData.approve ApproveInstruction.mk))
    with (@Ok (list byte) [x02]) in H. cbn [bind] in H.
  apply bind_Ok in H as (target & Ht & H).
  apply bind_Ok in H as (rest & Hr & H). injection H as <-.
  exists info, d, group, (AccountMeta.mk target false false :: rest). auto 10.
Qed.

(** X14: [createMultiApprove] makes one approve instruction per proposal, in the
    order given, all in one transaction.  Each is for an account that is on
    the chain, is owned by the multisig program and decodes as a proposal;
    it names the approver as its only leading signer, the group read from
    the account and the proposal address as passed, and its payload is the
    byte 2. *)
Theorem createMultiApprove_transaction_spec
        (signer : Account.t) (proposals : list PublicKey.t) (tx : Transaction) :
  createMultiApprove_transaction fpa connection multisig signer proposals = Ok tx ->
  Forall2 (approved_for fpa connection multisig signer) proposals tx.
Proof.
  rewrite createMultiApprove_transaction_mapM. intros H.
  apply mapM_Ok_Forall2 in H.
  eapply Forall2_impl; [|exact H]. intros p ix. apply approve_round_inv.
Qed.

Lemma mapM_Throws {A B : Type} (f : A -> Result B) (l : list A) (x : A) (e : Thrown) :
  In x l -> f x = Throws e -> exists e', mapM f l = Throws e'.
Proof.
  induction l as [|y l IH]; [contradiction|].
  intros [->|Hin] Hx; cbn [mapM].
  - rewrite Hx. cbn [bind]. eauto.
  - destruct (f y) as [b|e0]; cbn [bind]; [|eauto].
    destruct (IH Hin Hx) as (e' & ->). cbn [bind]. eauto.
Qed.

Lemma approve_round_unapprovable signer proposal :
  unapprovable connection multisig proposal ->
  approve_round fpa connection multisig signer proposal
  = Throws (match Connection.getAccountInfo connection proposal with
            | Ok (Some info) =>
                if PublicKey.equals (AccountInfo.owner info) (MultiSig.programId multisig)
                then Throw "data is zero (proposal may be complete)"
                else Throw "error: invalid account owner"
            | _ => Throw "error: cannot find the proposal account"
            end).
Proof.
  unfold approve_round. intros [H|(info & H & Hinfo)]; rewrite H; cbn [bind];
    [reflexivity|].
  unfold readProposalAccountData.
  destruct (PublicKey.equals (AccountInfo.owner info) (MultiSig.programId multisig));
    cbn [negb bind]; [|reflexivity].
  destruct Hinfo as [Ho|Hz]; [discriminate|]. now rewrite Hz.
Qed.

(** X15: A batch with a proposal that cannot be approved (no account at the
    address, an account of another program, or an account whose data is all
    zero, as a completed proposal's is) is refused as a whole:
    [createMultiApprove] throws and no transaction is made, whatever the
    other proposals are. *)
Theorem createMultiApprove_all_or_nothing
        (signer : Account.t) (proposals : list PublicKey.t) (proposal : PublicKey.t) :
  In proposal proposals ->
  unapprovable connection multisig proposal ->
  exists e,
    createMultiApprove_transaction fpa connection multisig signer proposals = Throws e
    /\ createMultiApprove fpa connection multisig signer proposals = Throws e.
Proof.
  intros Hin Hu. pose proof (approve_round_unapprovable signer proposal Hu) as Hr.
  destruct (mapM_Throws _ _ _ _ Hin Hr) as (e & He).
  exists e. unfold createMultiApprove. rewrite createMultiApprove_transaction_mapM, He.
  auto.
Qed.

(** X16: [createApprove] sends nothing and throws: the string for a missing
    account when no account is at the address; the owner error when the
    account is not the multisig program's; the zero-data string when the
    program's account holds only zero bytes. *)
Theorem createApprove_errors (signer : Account.t) (proposal : PublicKey.t) :
  (Connection.getAccountInfo connection proposal = Ok None ->
   createApprove fpa connection multisig signer proposal
   = Throws (Throw "error: cannot find the proposal account"))
  /\ (forall info,
         Connection.getAccountInfo connection proposal = Ok (Some info) ->
         PublicKey.equals (AccountInfo.owner info) (MultiSig.programId multisig) = false ->
         createApprove fpa connection multisig signer proposal
         = Throws (Throw "error: invalid account owner"))
  /\ (forall info,
         Connection.getAccountInfo connection proposal = Ok (Some info) ->
         PublicKey.equals (AccountInfo.owner info) (MultiSig.programId multisig) = true ->
         anyNonZero (AccountInfo.data info) = false ->
         createApprove fpa connection multisig signer proposal
         = Throws (Throw "data is zero (proposal may be complete)")).
Proof.
  unfold createApprove, createApprove_transaction.
  split; [|split].
  - intros H. rewrite (approve_round_unapprovable signer proposal (or_introl H)), H.
    reflexivity.
  - intros info H Ho.
    rewrite (approve_round_unapprovable signer proposal
               (or_intror (ex_intro _ info (conj H (or_introl Ho))))), H, Ho.
    reflexivity.
  - intros info H Ho Hz.
    rewrite (approve_round_unapprovable signer proposal
               (or_intror (ex_intro _ info (conj H (or_intror Hz))))), H, Ho.
    reflexivity.
Qed.

(** [createApprove] is [createMultiApprove] on the one proposal. *)
Lemma createApprove_singleton (signer : Account.t) (proposal : PublicKey.t) :
  createApprove fpa connection multisig signer proposal
  = createMultiApprove fpa connection multisig signer [proposal].
Proof.
  unfold createApprove, createMultiApprove, createApprove_transaction.
  rewrite createMultiApprove_transaction_mapM. cbn [mapM].
  now destruct (approve_round fpa connection multisig signer proposal).
Qed.

(** ** [createProposal] *)

Lemma proposedInstructions_length protectedGroupAccount signerAccount proposition
      instructions :
  proposedInstructions fpa builders connection multisig protectedGroupAccount
                       signerAccount proposition = Ok instructions ->
  length instructions = proposalCount proposition.
Proof.
  destruct proposition; cbn [proposedInstructions proposalCount]; intros H;
    try (apply bind_Ok in H as (ix & _ & H); now injection H as <-).
  unfold createTokenAccount in H.
  apply bind_Ok in H as (? & _ & H). apply bind_Ok in H as (? & _ & H).
  apply bind_Ok in H as (? & _ & H). apply bind_Ok in H as (? & _ & H).
  now injection H as <-.
Qed.

(** X17: [createProposal] returns one proposal address for every proposition
    but [CreateTokenAccount], for which it returns two (the creation of the
    token account and its initialization are proposed separately, in one
    transaction), and the transaction it sends has as many propose
    instructions. *)
Theorem createProposal_count
        (groupAccount protectedGroupAccount : PublicKey.t) (signerAccount : Account.t)
        (proposition : PropositionKind.PropositionType) (keys : list PublicKey.t) :
  createProposal fpa builders connection multisig groupAccount protectedGroupAccount
                 signerAccount proposition = Ok keys ->
  length keys = proposalCount proposition
  /\ exists instructions tx,
       proposedInstructions fpa builders connection multisig protectedGroupAccount
                            signerAccount proposition = Ok instructions
       /\ proposeMulti_transaction fpa connection multisig signerAccount groupAccount
                                   instructions = Ok (tx, keys)
       /\ length tx = proposalCount proposition
       /\ Connection.sendAndConfirmTransaction connection tx [signerAccount] = Ok tt.
Proof.
  unfold createProposal, proposeMulti. intros H.
  apply bind_Ok in H as (instructions & Hi & H).
  apply bind_Ok in H as ([tx keys'] & Htx & H).
  apply bind_Ok in H as ([] & Hsend & H). injection H as ->.
  pose proof (proposedInstructions_length _ _ _ _ Hi) as L.
  pose proof Htx as Hinv.
  apply proposeMulti_transaction_inv in Hinv as (rounds & F & -> & ->).
  apply Forall2_length in F. rewrite !length_map, <- F in *.
  split; [exact L|]. exists instructions, (map fst rounds).
  rewrite length_map, <- F. auto.
Qed.

End ApprovalProperties.

(** ** loader.ts *)

Lemma Buffer_write_at (pre mid post src : list byte) (offset : nat) :
  offset = length pre ->
  length src = length mid ->
  Buffer_write (pre ++ mid ++ post) offset src = Ok (pre ++ src ++ post).
Proof.
  intros -> H. unfold Buffer_write. rewrite !length_app, H.
  replace (Nat.leb _ _) with true by (symmetry; apply Nat.leb_le; lia).
  rewrite firstn_app, Nat.sub_diag, firstn_all, firstn_O, app_nil_r.
  rewrite skipn_app, (skipn_all2 pre) by lia.
  replace (length pre + length mid - length pre)%nat with (length mid) by lia.
  rewrite skipn_app, skipn_all, Nat.sub_diag, skipn_O. reflexivity.
Qed.

Lemma Buffer_write_length (b src out : list byte) (offset : nat) :
  Buffer_write b offset src = Ok out -> length out = length b.
Proof.
  unfold Buffer_write. destruct (Nat.leb _ _) eqn:E; [|discriminate].
  apply Nat.leb_le in E. intros [= <-].
  rewrite !length_app, length_firstn, length_skipn. lia.
Qed.

Lemma Buffer_writeU32_at (pre mid post : list byte) (offset : nat) (v : N) :
  offset = length pre ->
  length mid = 4%nat ->
  (v < 2 ^ 32)%N ->
  Buffer_writeU32 (pre ++ mid ++ post) offset v = Ok (pre ++ le_bytes 4 v ++ post).
Proof.
  intros Ho Hm Hv. unfold Buffer_writeU32. apply N.ltb_lt in Hv. rewrite Hv.
  apply Buffer_write_at; [exact Ho|]. now rewrite le_bytes_length.
Qed.

Lemma Buffer_writeBytes_at (src : list byte) :
  forall pre mid post offset,
    offset = length pre ->
    length src = length mid ->
    Buffer_writeBytes (pre ++ mid ++ post) offset src = Ok (pre ++ src ++ post).
Proof.
  induction src as [|v src IH]; intros pre [|m mid] post offset -> H; try discriminate.
  - reflexivity.
  - cbn [Buffer_writeBytes].
    change (pre ++ (m :: mid) ++ post) with (pre ++ [m] ++ (mid ++ post)).
    rewrite (Buffer_write_at pre [m] (mid ++ post) [v] _ eq_refl eq_refl). cbn [bind].
    change (pre ++ [v] ++ mid ++ post) with (pre ++ [v] ++ (mid ++ post)).
    rewrite (app_assoc pre [v]).
    rewrite (IH (pre ++ [v]) mid post).
    + now rewrite <- app_assoc.
    + rewrite length_app. simpl. lia.
    + simpl in H. lia.
Qed.

Lemma Buffer_writeBytes_overflow (src : list byte) :
  forall b offset,
    (offset <= length b)%nat ->
    (length b < offset + length src)%nat ->
    Buffer_writeBytes b offset src = Throws RangeError.
Proof.
  induction src as [|v src IH]; intros b offset Ho H.
  - simpl in H. lia.
  - cbn [Buffer_writeBytes].
    destruct (Buffer_write b offset [v]) as [b'|e] eqn:E; cbn [bind].
    + pose proof (Buffer_write_length _ _ _ _ E) as L.
      unfold Buffer_write in E. destruct (Nat.leb _ _) eqn:El; [|discriminate].
      apply Nat.leb_le in El. simpl in El, H.
      apply IH; lia.
    + unfold Buffer_write in E. destruct (Nat.leb _ _); [discriminate|].
      now injection E as <-.
Qed.

Lemma le_bytes_app (a b : nat) :
  forall v, le_bytes (a + b) v = le_bytes a v ++ le_bytes b (v / 256 ^ N.of_nat a)%N.
Proof.
  induction a as [|a IH]; intros v.
  - cbn [Nat.add le_bytes app]. now rewrite N.div_1_r.
  - cbn [Nat.add le_bytes app]. rewrite IH. do 2 f_equal.
    rewrite Nat2N.inj_succ, N.pow_succ_r', N.Div0.div_div. reflexivity.
Qed.

Lemma le_bytes_8_of_32 (v : N) :
  (v < 2 ^ 32)%N -> le_bytes 8 v = le_bytes 4 v ++ repeat x00 4.
Proof.
  intros H. change 8%nat with (4 + 4)%nat. rewrite le_bytes_app.
  change (256 ^ N.of_nat 4)%N with (2 ^ 32)%N. now rewrite N.div_small.
Qed.

Lemma encodeInstruction_Write_Ok (offset : N) (bytes : list byte) :
  (offset < 2 ^ 32)%N ->
  (length bytes <= CHUNK_SIZE)%nat ->
  encodeInstruction (Write offset bytes)
  = Ok (le_bytes 4 1 ++ le_bytes 4 offset
        ++ le_bytes 8 (N.of_nat (length bytes)) ++ bytes).
Proof.
  intros Ho Hn. unfold encodeInstruction, Buffer_alloc.
  set (n := length bytes) in *.
  replace (4 + 4 + 8 + CHUNK_SIZE)%nat
    with (4 + (4 + (4 + (4 + (n + (CHUNK_SIZE - n))))))%nat by lia.
  rewrite !repeat_app.
  set (z4 := repeat x00 4). set (zn := repeat x00 n).
  set (zr := repeat x00 (CHUNK_SIZE - n)).
  change (z4 ++ z4 ++ z4 ++ z4 ++ zn ++ zr)
    with ([] ++ z4 ++ (z4 ++ z4 ++ z4 ++ zn ++ zr)).
  rewrite (Buffer_writeU32_at [] z4 _ 0 1 eq_refl eq_refl eq_refl). cbn [bind].
  rewrite app_nil_l.
  rewrite (Buffer_writeU32_at (le_bytes 4 1) z4 _ 4 offset eq_refl eq_refl Ho).
  cbn [bind].
  replace (le_bytes 4 1 ++ le_bytes 4 offset ++ z4 ++ z4 ++ zn ++ zr)
    with ((le_bytes 4 1 ++ le_bytes 4 offset ++ z4 ++ z4) ++ zn ++ zr)
    by now rewrite <- !app_assoc.
  rewrite (Buffer_writeBytes_at bytes _ zn zr 16).
  2:{ now rewrite !length_app, !le_bytes_length. }
  2:{ unfold zn. now rewrite repeat_length. }
  cbn [bind].
  replace ((le_bytes 4 1 ++ le_bytes 4 offset ++ z4 ++ z4) ++ bytes ++ zr)
    with ((le_bytes 4 1 ++ le_bytes 4 offset) ++ z4 ++ (z4 ++ bytes ++ zr))
    by now rewrite <- !app_assoc.
  assert (N.of_nat n < 2 ^ 32)%N as Hn32.
  { apply N.le_lt_trans with (N.of_nat CHUNK_SIZE); [lia|]. reflexivity. }
  rewrite (Buffer_writeU32_at _ z4 _ 8 (N.of_nat n)); [|now rewrite length_app|reflexivity|exact Hn32].
  cbn [bind]. f_equal.
  rewrite (le_bytes_8_of_32 _ Hn32). fold z4.
  replace ((le_bytes 4 1 ++ le_bytes 4 offset) ++ le_bytes 4 (N.of_nat n)
           ++ z4 ++ bytes ++ zr)
    with ((le_bytes 4 1 ++ le_bytes 4 offset ++ (le_bytes 4 (N.of_nat n) ++ z4) ++ bytes)
          ++ zr)
    by now rewrite <- !app_assoc.
  rewrite firstn_app.
  replace (length (le_bytes 4 1 ++ le_bytes 4 offset
                   ++ (le_bytes 4 (N.of_nat n) ++ z4) ++ bytes))
    with (4 + (4 + 8 + n))%nat.
  2:{ rewrite !length_app, !le_bytes_length. unfold z4. rewrite repeat_length.
      fold n. lia. }
  rewrite Nat.sub_diag, firstn_O, app_nil_r.
  apply firstn_all2.
  rewrite !length_app, !le_bytes_length. unfold z4. rewrite repeat_length. fold n. lia.
Qed.

(** X18: The payload of a [Write] instruction is the tag 1 in four bytes, the
    offset in four bytes, the number of bytes in eight bytes and then the
    bytes, when the offset is below 2^32 and there are at most [CHUNK_SIZE]
    bytes; otherwise [encodeInstruction] throws a range error: the buffer it
    allocates has room for [CHUNK_SIZE] bytes only. *)
Theorem encodeInstruction_Write (offset : N) (bytes : list byte) :
  ((offset < 2 ^ 32)%N ->
   (length bytes <= CHUNK_SIZE)%nat ->
   encodeInstruction (Write offset bytes)
   = Ok (le_bytes 4 1 ++ le_bytes 4 offset
         ++ le_bytes 8 (N.of_nat (length bytes)) ++ bytes))
  /\ ((2 ^ 32 <= offset)%N \/ (CHUNK_SIZE < length bytes)%nat ->
      encodeInstruction (Write offset bytes) = Throws RangeError).
Proof.
  split; [apply encodeInstruction_Write_Ok|].
  intros H. unfold encodeInstruction.
  destruct (offset <? 2 ^ 32)%N eqn:Eo.
  - destruct H as [H|H]; [apply N.ltb_lt in Eo; lia|].
    destruct (Buffer_writeU32 _ 0 1) as [b1|] eqn:E1; [|discriminate E1].
    cbn [bind]. unfold Buffer_writeU32 in E1 |- *. rewrite Eo.
    change (1 <? 2 ^ 32)%N with true in E1.
    apply Buffer_write_length in E1.
    destruct (Buffer_write b1 4 (le_bytes 4 offset)) as [b2|e] eqn:E2; cbn [bind].
    + apply Buffer_write_length in E2.
      rewrite Buffer_writeBytes_overflow; [reflexivity| |].
      * rewrite E2, E1. unfold Buffer_alloc. rewrite repeat_length. lia.
      * rewrite E2, E1. unfold Buffer_alloc. rewrite repeat_length. lia.
    + unfold Buffer_write in E2. destruct (Nat.leb _ _); [discriminate|].
      now injection E2 as <-.
  - destruct (Buffer_writeU32 _ 0 1) as [b1|] eqn:E1; [|discriminate E1].
    cbn [bind]. unfold Buffer_writeU32 at 1. now rewrite Eo.
Qed.

Lemma ceil_div_0 (c : nat) : Loader.ceil_div 0 c = 0%nat.
Proof.
  unfold Loader.ceil_div. now rewrite Nat.Div0.div_0_l, Nat.Div0.mod_0_l.
Qed.

Lemma ceil_div_step (n c : nat) :
  (0 < c)%nat -> (0 < n)%nat ->
  Loader.ceil_div n c = S (Loader.ceil_div (n - c) c).
Proof.
  intros Hc Hn. unfold Loader.ceil_div.
  destruct (Nat.le_gt_cases c n) as [H|H].
  - replace n with ((n - c) + 1 * c)%nat at 1 2 by lia.
    rewrite Nat.div_add, Nat.Div0.mod_add by lia. lia.
  - replace (n - c)%nat with 0%nat by lia.
    rewrite Nat.div_small, Nat.mod_small by lia.
    rewrite Nat.Div0.div_0_l, Nat.Div0.mod_0_l.
    destruct (Nat.eqb_spec n 0); [lia|reflexivity].
Qed.

Section DeployWrites.

Variable connection : Connection.t.
Variables payer authority : Account.t.
Variable buffer : PublicKey.t.

Hypothesis sent :
  forall transaction signers,
    Connection.sendAndConfirmTransaction connection transaction signers = Ok tt.

Lemma deploy_writes_S (fuel : nat) (offset : N) (array : list byte) :
  array <> [] ->
  Loader.deploy_writes (S fuel) connection payer authority buffer offset array
  = match encodeInstruction (Write offset (firstn Loader.chunkSize array)) with
    | Throws e => Some (Throws e)
    | Ok data =>
        let transaction :=
          [ TransactionInstruction.mk
              [ AccountMeta.mk buffer false true;
                AccountMeta.mk (Account.publicKey authority) true false ]
              UPGRADEABLE_BPF_LOADER_PROGRAM_ID
              data ] in
        match Loader.deploy_writes fuel connection payer authority buffer
                (offset + N.of_nat Loader.chunkSize) (skipn Loader.chunkSize array) with
        | Some (Ok rest) => Some (Ok ((transaction, [payer; authority]) :: rest))
        | other => other
        end
    end.
Proof.
  destruct array; [congruence|]. intros _. cbn [Loader.deploy_writes].
  destruct (encodeInstruction _); [|reflexivity]. cbv zeta. now rewrite sent.
Qed.

Lemma deploy_writes_from (fuel : nat) :
  forall array offset,
    (length array <= fuel)%nat ->
    (offset + N.of_nat (length array) <= 2 ^ 32)%N ->
    Loader.deploy_writes fuel connection payer authority buffer offset array
    = Some (Ok (map (fun i => (write_transaction buffer (Account.publicKey authority)
                                 (offset + N.of_nat (Loader.chunkSize * i))
                                 (chunk array i),
                               [payer; authority]))
                    (seq 0 (Loader.ceil_div (length array) Loader.chunkSize)))).
Proof.
  induction fuel as [|fuel IH]; intros array offset Hf Ho.
  - destruct array; [|simpl in Hf; lia]. reflexivity.
  - destruct (length array) as [|n] eqn:En.
    { apply length_zero_iff_nil in En. now subst array. }
    assert (0 < length array)%nat as Hpos by lia.
    assert (array <> []) as Hne by (intros ->; simpl in Hpos; lia).
    rewrite <- En in *. clear n En.
    rewrite (deploy_writes_S _ _ _ Hne).
    rewrite encodeInstruction_Write_Ok.
    2:{ lia. }
    2:{ rewrite length_firstn. unfold Loader.chunkSize. lia. }
    rewrite (ceil_div_step (length array) Loader.chunkSize) by
        (assumption || (unfold Loader.chunkSize, CHUNK_SIZE; lia)).
    cbn [seq map]. cbv zeta.
    assert (write_transaction buffer (Account.publicKey authority) offset
                              (firstn Loader.chunkSize array)
            = write_transaction buffer (Account.publicKey authority)
                (offset + N.of_nat (Loader.chunkSize * 0)) (chunk array 0)) as E0.
    { unfold chunk. now rewrite Nat.mul_0_r, N.add_0_r. }
    unfold write_transaction at 1 in E0. rewrite E0. clear E0.
    destruct (Nat.le_gt_cases (length array) Loader.chunkSize) as [Hle|Hgt].
    + rewrite (skipn_all2 array) by exact Hle.
      replace (length array - Loader.chunkSize)%nat with 0%nat by lia.
      rewrite ceil_div_0. now destruct fuel.
    + rewrite IH.
      2:{ rewrite length_skipn. unfold Loader.chunkSize, CHUNK_SIZE. lia. }
      2:{ rewrite length_skipn. lia. }
      rewrite length_skipn. do 3 apply f_equal.
      rewrite <- seq_shift, map_map. apply map_ext. intros i.
      unfold chunk. rewrite skipn_skipn.
      replace (offset + N.of_nat Loader.chunkSize + N.of_nat (Loader.chunkSize * i))%N
        with (offset + N.of_nat (Loader.chunkSize * S i))%N by lia.
      replace (Loader.chunkSize * i + Loader.chunkSize)%nat
        with (Loader.chunkSize * S i)%nat by lia.
      reflexivity.
Qed.

End DeployWrites.

Lemma concat_chunks (fuel : nat) :
  forall array,
    (length array <= fuel)%nat ->
    concat (map (chunk array) (seq 0 (Loader.ceil_div (length array) Loader.chunkSize)))
    = array.
Proof.
  induction fuel as [|fuel IH]; intros array Hf.
  - destruct array; [|simpl in Hf; lia]. reflexivity.
  - destruct (length array) as [|n] eqn:En.
    { apply length_zero_iff_nil in En. now subst array. }
    assert (0 < length array)%nat as Hpos by lia.
    rewrite <- En in *. clear n En.
    rewrite (ceil_div_step (length array) Loader.chunkSize) by
        (assumption || (unfold Loader.chunkSize, CHUNK_SIZE; lia)).
    cbn [seq map concat]. rewrite <- seq_shift, map_map.
    transitivity (firstn Loader.chunkSize array ++ skipn Loader.chunkSize array);
      [|apply firstn_skipn].
    apply f_equal2.
    + unfold chunk. now rewrite Nat.mul_0_r.
    + etransitivity; [|apply (IH (skipn Loader.chunkSize array))].
      2:{ rewrite length_skipn. unfold Loader.chunkSize, CHUNK_SIZE. lia. }
      rewrite length_skipn. apply f_equal. apply map_ext. intros i.
      unfold chunk. rewrite skipn_skipn.
      replace (Loader.chunkSize * i + Loader.chunkSize)%nat
        with (Loader.chunkSize * S i)%nat by lia.
      reflexivity.
Qed.

(** X19: The write loop of [Loader.deploy] ends: for a program of at most 2^32
    bytes, on a connection that confirms what is sent, it sends
    [ceil(length / chunkSize)] transactions, each with the payer and the
    authority as signers.  The [i]-th has one [Write] instruction, which
    carries the [i]-th chunk of the program at the offset [i * chunkSize]
    and which the authority signs.  The chunks, in order, are the program.
    [getMinNumSignatures] counts two signatures for each of these
    transactions and for two more. *)
Theorem deploy_writes_spec
        (connection : Connection.t) (payer authority : Account.t) (buffer : PublicKey.t)
        (data : list byte) :
  (forall transaction signers,
      Connection.sendAndConfirmTransaction connection transaction signers = Ok tt) ->
  (N.of_nat (length data) <= 2 ^ 32)%N ->
  exists txs,
    Loader.deploy_writes (length data) connection payer authority buffer 0 data
    = Some (Ok txs)
    /\ txs = map (fun i => (write_transaction buffer (Account.publicKey authority)
                              (N.of_nat (Loader.chunkSize * i)) (chunk data i),
                            [payer; authority]))
                 (seq 0 (length txs))
    /\ concat (map (chunk data) (seq 0 (length txs))) = data
    /\ length txs = Loader.ceil_div (length data) Loader.chunkSize
    /\ Loader.getMinNumSignatures (length data) = (2 * (length txs + 2))%nat.
Proof.
  intros Hs H. eexists. split; [apply deploy_writes_from; [exact Hs|lia|lia]|].
  rewrite length_map, length_seq.
  split; [reflexivity|]. split; [apply (concat_chunks (length data)); lia|].
  split; [reflexivity|]. unfold Loader.getMinNumSignatures. lia.
Qed.

(** ** Proposals to upgrade a program *)

Lemma upgradeInstruction_inv
      (fpa : list (list byte) -> PublicKey.t -> Result (PublicKey.t * N))
      (program buffer spillAddress authority : PublicKey.t)
      (ix : TransactionInstruction.t) :
  Loader.upgradeInstruction fpa program buffer spillAddress authority = Ok ix ->
  exists programDataKey nonce,
    fpa [PublicKey.toBuffer program] UPGRADEABLE_BPF_LOADER_PROGRAM_ID
    = Ok (programDataKey, nonce)
    /\ ix = TransactionInstruction.mk
              [ AccountMeta.mk programDataKey false true;
                AccountMeta.mk program false true;
                AccountMeta.mk buffer false true;
                AccountMeta.mk spillAddress false true;
                AccountMeta.mk SYSVAR_RENT_PUBKEY false false;
                AccountMeta.mk SYSVAR_CLOCK_PUBKEY false false;
                AccountMeta.mk authority true false ]
              UPGRADEABLE_BPF_LOADER_PROGRAM_ID
              [x03; x00; x00; x00].
Proof.
  unfold Loader.upgradeInstruction. intros H.
  apply bind_Ok in H as ([programDataKey nonce] & Hf & H).
  change (encodeInstruction Upgrade) with (@Ok (list byte) [x03; x00; x00; x00]) in H.
  cbn [bind] in H. injection H as <-. eauto.
Qed.

Section UpgradeProposal.

Variable fpa : list (list byte) -> PublicKey.t -> Result (PublicKey.t * N).
Variable builders : Builders.t.
Variable connection : Connection.t.
Variable multisig : MultiSig.t.


End UpgradeProposal.

(** ** [anyNonZero] *)

(** X21: [anyNonZero] is true exactly when the buffer has a byte other than
    zero, wherever it is; in particular it is false on the empty buffer. *)
Theorem anyNonZero_true (buffer : list byte) :
  anyNonZero buffer = true <-> Exists (fun b => b <> x00) buffer.
Proof.
  induction buffer as [|b rest IH]; cbn [anyNonZero].
  - split; [discriminate|]. inversion 1.
  - destruct (Byte.to_N b =? 0)%N eqn:E; cbn [negb].
    + apply byte_to_N_zero in E. subst b. rewrite IH. split.
      * now constructor 2.
      * inversion 1; [congruence|assumption].
    + split; [|reflexivity]. intros _. constructor 1. intros ->. discriminate.
Qed.

(** ** [byteArrayToWordArray] *)

Lemma lor_disjoint (a b k : Z) :
  0 <= k -> 0 <= b < 2 ^ k -> Z.lor (a * 2 ^ k) b = a * 2 ^ k + b.
Proof.
  intros Hk Hb. rewrite <- Z.lxor_lor, <- Z.add_nocarry_lxor; trivial;
    rewrite <- Z.shiftl_mul_pow2 by lia; apply Z.bits_inj'; intros n Hn;
    rewrite Z.land_spec, Z.bits_0;
    destruct (Z.lt_ge_cases n k) as [Hlt|Hge].
  - now rewrite Z.shiftl_spec_low.
  - rewrite <- (Z.mod_small b (2 ^ k)) by lia.
    rewrite Z.mod_pow2_bits_high by lia. apply andb_false_r.
  - now rewrite Z.shiftl_spec_low.
  - rewrite <- (Z.mod_small b (2 ^ k)) by lia.
    rewrite Z.mod_pow2_bits_high by lia. apply andb_false_r.
Qed.

Lemma toUint32_or (a b : Z) :
  JS.toUint32 (JS.or a b) = Z.lor (JS.toUint32 a) (JS.toUint32 b).
Proof.
  unfold JS.or. rewrite toUint32_toInt32. unfold JS.toUint32 at 1.
  rewrite <- Z.land_ones, Z.land_lor_distr_l, !Z.land_ones by lia.
  fold (JS.toUint32 (JS.toInt32 a)). fold (JS.toUint32 (JS.toInt32 b)).
  now rewrite !toUint32_toInt32.
Qed.

Lemma toUint32_shl (a k : Z) :
  0 <= a < 256 -> 0 <= k <= 24 ->
  JS.toUint32 (JS.shl a k) = a * 2 ^ k.
Proof.
  intros Ha Hk. unfold JS.shl. rewrite toUint32_toInt32.
  assert (JS.toInt32 a = a) as ->.
  { unfold JS.toInt32, JS.toUint32. rewrite Z.mod_small by lia.
    destruct (Z.ltb_spec a (2 ^ 31)); lia. }
  change 31 with (Z.ones 5). rewrite Z.land_ones by lia.
  rewrite (Z.mod_small k) by (change (2 ^ 5) with 32; lia).
  rewrite Z.shiftl_mul_pow2 by lia. unfold JS.toUint32.
  apply Z.mod_small. split; [nia|].
  apply Z.lt_le_trans with (256 * 2 ^ k); [nia|].
  change 256 with (2 ^ 8). rewrite <- Z.pow_add_r by lia.
  apply Z.pow_le_mono_r; lia.
Qed.

Lemma word_be_uint (a b c d : Z) :
  0 <= a < 256 -> 0 <= b < 256 -> 0 <= c < 256 -> 0 <= d < 256 ->
  JS.toUint32 (word_be a b c d) = a * 2 ^ 24 + b * 2 ^ 16 + c * 2 ^ 8 + d.
Proof.
  intros Ha Hb Hc Hd. unfold word_be.
  rewrite !toUint32_or, !toUint32_shl by lia.
  change (d * 2 ^ 0) with (d * 1). rewrite Z.mul_1_r.
  rewrite (lor_disjoint a (b * 2 ^ 16) 24) by lia.
  replace (a * 2 ^ 24 + b * 2 ^ 16) with ((a * 2 ^ 8 + b) * 2 ^ 16) by lia.
  rewrite (lor_disjoint _ (c * 2 ^ 8) 16) by lia.
  replace ((a * 2 ^ 8 + b) * 2 ^ 16 + c * 2 ^ 8)
    with ((a * 2 ^ 16 + b * 2 ^ 8 + c) * 2 ^ 8) by lia.
  rewrite (lor_disjoint _ d 8) by lia. lia.
Qed.

Lemma byte_to_Z_bound (b : byte) : 0 <= byte_to_Z b < 256.
Proof. unfold byte_to_Z. pose proof (Byte.to_N_bounded b). lia. Qed.

Lemma byte_of_Z_to_Z (b : byte) : byte_of_Z (byte_to_Z b) = b.
Proof.
  unfold byte_of_Z. pose proof (byte_to_Z_bound b) as H.
  rewrite Z.mod_small by lia. unfold byte_to_Z. rewrite N2Z.id.
  apply byte_of_N_to_N.
Qed.

(** The byte at position [j] of a packed word. *)
Lemma word_byte (b0 b1 b2 b3 : byte) (j : nat) :
  (j < 4)%nat ->
  byte_of_Z
    (Z.land (JS.ushr (word_be (byte_to_Z b0) (byte_to_Z b1) (byte_to_Z b2) (byte_to_Z b3))
                     (24 - Z.of_nat j * 8)) 0xff)
  = nth j [b0; b1; b2; b3] x00.
Proof.
  intros Hj. unfold JS.ushr.
  pose proof (byte_to_Z_bound b0) as H0. pose proof (byte_to_Z_bound b1) as H1.
  pose proof (byte_to_Z_bound b2) as H2. pose proof (byte_to_Z_bound b3) as H3.
  rewrite word_be_uint by assumption.
  change 0xff with (Z.ones 8). rewrite Z.land_ones by lia.
  destruct j as [|[|[|[|j]]]]; [| | | |lia]; cbn [nth Z.of_nat];
    [ change (Z.land (24 - 0 * 8) 31) with 24
    | change (Z.land (24 - Z.pos (Pos.of_succ_nat 0) * 8) 31) with 16
    | change (Z.land (24 - Z.pos (Pos.of_succ_nat 1) * 8) 31) with 8
    | change (Z.land (24 - Z.pos (Pos.of_succ_nat 2) * 8) 31) with 0 ];
    rewrite Z.shiftr_div_pow2 by lia;
    match goal with |- byte_of_Z ?x = ?b => replace x with (byte_to_Z b) end;
    try apply byte_of_Z_to_Z;
    change (2 ^ 24) with 16777216; change (2 ^ 16) with 65536;
    change (2 ^ 8) with 256; change (2 ^ 0) with 1;
    Z.div_mod_to_equations; lia.
Qed.

Lemma byteAt_low (w : Z) (ws : list Z) (n m j : nat) :
  (j < 4)%nat ->
  CryptoJS.byteAt {| CryptoJS.words := w :: ws; CryptoJS.sigBytes := n |} j
  = CryptoJS.byteAt {| CryptoJS.words := [w]; CryptoJS.sigBytes := m |} j.
Proof.
  intros Hj. unfold CryptoJS.byteAt. cbn [CryptoJS.words].
  rewrite (Nat.div_small j 4) by lia. reflexivity.
Qed.

Lemma byteAt_high (w : Z) (ws : list Z) (n m i : nat) :
  CryptoJS.byteAt {| CryptoJS.words := w :: ws; CryptoJS.sigBytes := n |} (4 + i)
  = CryptoJS.byteAt {| CryptoJS.words := ws; CryptoJS.sigBytes := m |} i.
Proof.
  unfold CryptoJS.byteAt. cbn [CryptoJS.words].
  replace (4 + i)%nat with (i + 1 * 4)%nat by lia.
  rewrite Nat.div_add, Nat.Div0.mod_add by lia.
  replace (i / 4 + 1)%nat with (S (i / 4)) by lia. reflexivity.
Qed.

Lemma word_bytes (b0 b1 b2 b3 : byte) (n j : nat) :
  (j < 4)%nat ->
  CryptoJS.byteAt
    {| CryptoJS.words :=
         [word_be (byte_to_Z b0) (byte_to_Z b1) (byte_to_Z b2) (byte_to_Z b3)];
       CryptoJS.sigBytes := n |} j
  = nth j [b0; b1; b2; b3] x00.
Proof.
  intros Hj. unfold CryptoJS.byteAt. cbn [CryptoJS.words].
  rewrite (Nat.div_small j 4), (Nat.mod_small j 4) by lia.
  unfold JS.get. cbn [nth]. now apply word_byte.
Qed.

Lemma bytes_pack_be (ba : list byte) :
  forall n,
    map (CryptoJS.byteAt {| CryptoJS.words := pack_be ba; CryptoJS.sigBytes := n |})
        (seq 0 (length ba))
    = ba.
Proof.
  induction ba as [|b0|b0 b1|b0 b1 b2|b0 b1 b2 b3 rest IH] using list_ind4; intros n.
  - reflexivity.
  - cbn [pack_be length seq map]. change 0 with (byte_to_Z x00).
    now rewrite !word_bytes by lia.
  - cbn [pack_be length seq map]. change 0 with (byte_to_Z x00).
    now rewrite !word_bytes by lia.
  - cbn [pack_be length seq map]. change 0 with (byte_to_Z x00).
    now rewrite !word_bytes by lia.
  - cbn [pack_be length seq map].
    rewrite !(byteAt_low _ (pack_be rest) n n) by lia.
    rewrite !word_bytes by lia. cbn [nth]. do 4 f_equal.
    etransitivity; [|apply (IH n)].
    rewrite <- !seq_shift, !map_map. apply map_ext. intros i.
    apply (byteAt_high _ _ n n i).
Qed.

(** X22: The word array that [byteArrayToWordArray] makes holds exactly the
    bytes it was given: reading its significant bytes back, as CryptoJS
    does, gives the array, whatever its length (a multiple of four or
    not).  So the digest taken by [groupAccountKey] and
    [proposalAccountKey] is the digest of the serialized bytes. *)
Theorem byteArrayToWordArray_bytes (ba : list byte) :
  CryptoJS.bytes (byteArrayToWordArray ba) = ba
  /\ CryptoJS.sigBytes (byteArrayToWordArray ba) = length ba
  /\ length (CryptoJS.words (byteArrayToWordArray ba)) = Nat.div (length ba + 3) 4.
Proof.
  rewrite byteArrayToWordArray_pack. unfold CryptoJS.bytes.
  cbn [CryptoJS.sigBytes CryptoJS.words].
  split; [apply bytes_pack_be|]. split; [reflexivity|].
  induction ba as [|b0|b0 b1|b0 b1 b2|b0 b1 b2 b3 rest IH] using list_ind4;
    try reflexivity.
  cbn [pack_be length]. rewrite IH.
  replace (S (S (S (S (length rest)))) + 3)%nat with ((length rest + 3) + 1 * 4)%nat by lia.
  rewrite Nat.div_add by lia. lia.
Qed.

(** ** The size of a proposal account *)

Lemma writeFixedArray_length (n : nat) (v : list byte) :
  length v = n -> writeFixedArray n v = Ok v.
Proof. intros <-. apply writeFixedArray_same. Qed.

Lemma serialize_ProposedAccountMeta_32 (a : ProposedAccountMeta.t) :
  length (ProposedAccountMeta.pubkey a) = 32%nat ->
  serialize_ProposedAccountMeta a
  = Ok (ProposedAccountMeta.pubkey a
        ++ le_bytes 1 (boolToInt (ProposedAccountMeta.is_signer a))
        ++ le_bytes 1 (boolToInt (ProposedAccountMeta.is_writable a))).
Proof.
  intros H. unfold serialize_ProposedAccountMeta.
  rewrite (writeFixedArray_length _ _ H).
  now destruct (ProposedAccountMeta.is_signer a), (ProposedAccountMeta.is_writable a).
Qed.

Lemma serialize_ProposalConfig_wf (config : ProposalConfig.t) :
  wf_ProposalConfig config ->
  exists b,
    serialize_ProposalConfig config = Ok b
    /\ length b
       = (72 + 34 * length (ProposedInstruction.accounts (ProposalConfig.instruction config))
          + length (ProposedInstruction.data (ProposalConfig.instruction config)))%nat.
Proof.
  intros (Hg & Hp & Ha & Hna & Hnd).
  unfold serialize_ProposalConfig, serialize_ProposedInstruction, writeArray.
  rewrite (writeFixedArray_length _ _ Hg), (writeFixedArray_length _ _ Hp).
  rewrite (writeU32_Ok _ Hna), (writeU32_Ok _ Hnd). cbn [bind].
  rewrite (mapM_map _ (fun a => ProposedAccountMeta.pubkey a
                                ++ le_bytes 1 (boolToInt (ProposedAccountMeta.is_signer a))
                                ++ le_bytes 1 (boolToInt (ProposedAccountMeta.is_writable a)))).
  2:{ eapply Forall_impl; [|exact Ha]. intros a. apply serialize_ProposedAccountMeta_32. }
  cbn [bind].
  rewrite (mapM_map _ (fun b => [b])).
  2:{ apply Forall_forall. intros b _. unfold writeU8.
      pose proof (Byte.to_N_bounded b) as Hb.
      replace (Byte.to_N b <? 2 ^ 8)%N with true
        by (symmetry; apply N.ltb_lt; change (2 ^ 8)%N with 256%N; lia).
      cbn [le_bytes]. f_equal. f_equal.
      change 256%N with (2 ^ 8)%N. rewrite N.mod_small by (change (2 ^ 8)%N with 256%N; lia).
      apply byte_of_N_to_N. }
  cbn [bind]. eexists. split; [reflexivity|].
  rewrite !length_app, !le_bytes_length, Hg, Hp.
  assert (forall l : list ProposedAccountMeta.t,
             Forall (fun a => length (ProposedAccountMeta.pubkey a) = 32%nat) l ->
             length (concat (map (fun a => ProposedAccountMeta.pubkey a
                                           ++ le_bytes 1 (boolToInt (ProposedAccountMeta.is_signer a))
                                           ++ le_bytes 1 (boolToInt (ProposedAccountMeta.is_writable a))) l))
             = (34 * length l)%nat) as La.
  { induction 1 as [|a l Hl _ IH]; [reflexivity|].
    cbn [map concat length]. rewrite !length_app, IH, Hl, !le_bytes_length. lia. }
  assert (forall l : list byte, length (concat (map (fun b => [b]) l)) = length l) as Ld.
  { induction l as [|b l IH]; [reflexivity|]. cbn [map concat length app]. now rewrite IH. }
  rewrite (La _ Ha), Ld. lia.
Qed.

(** X23: A proposal account takes 89 bytes, 34 more for every account of the
    proposed instruction and one more for every byte of its data:
    [proposalAccountSpace] returns this number for every configuration with
    32-byte keys. *)
Theorem proposalAccountSpace_formula (config : ProposalConfig.t) :
  wf_ProposalConfig config ->
  proposalAccountSpace config
  = Ok (89 + 34 * length (ProposedInstruction.accounts (ProposalConfig.instruction config))
        + length (ProposedInstruction.data (ProposalConfig.instruction config)))%nat.
Proof.
  intros H. destruct (serialize_ProposalConfig_wf config H) as (b & Hb & L).
  rewrite (proposalAccountSpace_length _ _ Hb), L. f_equal. lia.
Qed.

(** ** The workflows on the scenario *)

Lemma proposeMulti_round_Ok
      (fpa : list (list byte) -> PublicKey.t -> Result (PublicKey.t * N))
      (connection : Connection.t) (multisig : MultiSig.t)
      (signerAccount : Account.t) (groupAccount : PublicKey.t)
      (instruction : TransactionInstruction.t)
      (K P : PublicKey.t) (ib : list byte) (rent : N) :
  serialize_ProposedInstruction
    (ProposalConfig.instruction (proposedConfig groupAccount instruction)) = Ok ib ->
  proposalAccountKey fpa multisig (proposedConfig groupAccount instruction) = Ok K ->
  protectedAccountKey fpa multisig groupAccount = Ok P ->
  Connection.getMinimumBalanceForRentExemption connection (32 + length ib + 17) = Ok rent ->
  (rent < 2 ^ 53)%N ->
  valid_instruction instruction ->
  proposeMulti_round fpa connection multisig signerAccount groupAccount instruction
  = Ok (TransactionInstruction.mk
          ([ AccountMeta.mk (Account.publicKey signerAccount) true true;
             AccountMeta.mk groupAccount false true;
             AccountMeta.mk K false true;
             AccountMeta.mk SystemProgram.programId false false;
             AccountMeta.mk (TransactionInstruction.programId instruction) false false ]
           ++ map (reproposed P) (TransactionInstruction.keys instruction))
          (MultiSig.programId multisig)
          (x01 :: ib ++ le_bytes 8 rent),
        K).
Proof.
  intros Hib HK HP Hrent Hlt Hv.
  unfold proposedConfig in Hib. cbn [ProposalConfig.instruction] in Hib.
  assert (serialize_ProposalConfig (proposedConfig groupAccount instruction)
          = Ok (PublicKey.toBuffer groupAccount ++ ib)) as Hcb.
  { unfold serialize_ProposalConfig, proposedConfig.
    cbn [ProposalConfig.group ProposalConfig.instruction].
    rewrite (writeFixedArray_length _ _ (toBuffer_length groupAccount)). cbn [bind].
    now rewrite Hib. }
  pose proof (proposalAccountSpace_length _ _ Hcb) as Hspace.
  rewrite length_app, toBuffer_length in Hspace.
  pose (data := ProposeInstruction.mk
                  (new_ProposedInstruction
                     (TransactionInstruction.programId instruction)
                     (map (fun key => new_ProposedAccountMeta (AccountMeta.pubkey key)
                                                              (AccountMeta.isSigner key)
                                                              (AccountMeta.isWritable key))
                          (TransactionInstruction.keys instruction))
                     (TransactionInstruction.data instruction))
                  rent).
  assert (serialize_InstructionData (InstructionData.propose data)
          = Ok (x01 :: ib ++ le_bytes 8 rent)) as Hbuf.
  { cbn. unfold serialize_ProposeInstruction.
    cbn [data ProposeInstruction.instruction ProposeInstruction.lamports].
    rewrite Hib. cbn [bind]. unfold writeU64. apply N.ltb_lt in Hlt. now rewrite Hlt. }
  pose proof (propose_Ok fpa multisig data
                groupAccount (Account.publicKey signerAccount) K P _ HK HP Hbuf) as Hp.
  assert (exists ix,
             proposeMulti_round fpa connection multisig signerAccount groupAccount
                                instruction = Ok (ix, K)
             /\ TransactionInstruction.programId ix = MultiSig.programId multisig
             /\ TransactionInstruction.data ix = x01 :: ib ++ le_bytes 8 rent)
    as (ix & Hr & Hpid & Hdata).
  { eexists. split; [|split].
    - unfold proposeMulti_round. fold (proposedConfig groupAccount instruction).
      rewrite HK. cbn [bind]. rewrite Hspace. cbn [bind]. rewrite Hrent. cbn [bind].
      fold data. rewrite Hp. reflexivity.
    - reflexivity.
    - reflexivity. }
  rewrite Hr. f_equal. f_equal.
  pose proof (proposeMulti_round_keys fpa connection multisig _ _ _ _ _ P HP Hv Hr) as Hk.
  destruct ix as [keys pid bytes]. cbn in Hk, Hpid, Hdata. now subst.
Qed.

Lemma scenario_round :
  proposeMulti_round Web3.findProgramAddress Cluster.connection Scenario.this
                     Cluster.signer Scenario.G Cluster.transfer
  = Ok (Cluster.proposeTransfer, Scenario.K).
Proof.
  refine (eq_trans
            (proposeMulti_round_Ok
               Web3.findProgramAddress Cluster.connection Scenario.this Cluster.signer
               Scenario.G Cluster.transfer Scenario.K Scenario.P
               _ Cluster.proposalRent
               _ scenario_proposal scenario_protected _ _ _) _).
  - vm_compute. reflexivity.
  - reflexivity.
  - reflexivity.
  - split; [reflexivity|]. repeat (constructor; [reflexivity|]). constructor.
  - vm_compute. reflexivity.
Qed.

Lemma scenario_proposeMulti :
  proposeMulti_transaction Web3.findProgramAddress Cluster.connection Scenario.this
                           Cluster.signer Scenario.G [Cluster.transfer]
  = Ok ([Cluster.proposeTransfer], [Scenario.K]).
Proof.
  unfold proposeMulti_transaction. cbn [proposeMulti_loop].
  rewrite scenario_round. reflexivity.
Qed.

Lemma scenario_createProposal :
  createProposal Web3.findProgramAddress Library.builders Cluster.connection Scenario.this
                 Scenario.G Scenario.P Cluster.signer
                 (PropositionKind.Transfer Scenario.C 1000000)
  = Ok [Scenario.K].
Proof.
  unfold createProposal.
  change (proposedInstructions Web3.findProgramAddress Library.builders Cluster.connection
            Scenario.this Scenario.P Cluster.signer
            (PropositionKind.Transfer Scenario.C 1000000))
    with (@Ok (list TransactionInstruction.t) [Cluster.transfer]).
  cbn [bind]. unfold proposeMulti. rewrite scenario_proposeMulti. reflexivity.
Qed.

Lemma scenario_read :
  readProposalAccountData Scenario.this Cluster.proposalAccount = Ok Cluster.proposalData.
Proof. vm_compute. reflexivity. Qed.

Lemma scenario_approve_round :
  approve_round Web3.findProgramAddress Cluster.connection Scenario.this
                Cluster.approver Scenario.K
  = Ok Cluster.approveTransfer.
Proof.
  unfold approve_round.
  change (Connection.getAccountInfo Cluster.connection Scenario.K)
    with (@Ok (option AccountInfo.t) (Some Cluster.proposalAccount)).
  cbn [bind]. rewrite scenario_read. cbn [bind].
  change (PublicKey.new (ProposalConfig.group (ProposalData.config Cluster.proposalData)))
    with (Ok Scenario.G).
  cbn [bind]. rewrite scenario_protected. cbn [bind].
  exact scenario_approve.
Qed.

Lemma scenario_multiApprove :
  createMultiApprove_transaction Web3.findProgramAddress Cluster.connection Scenario.this
                                 Cluster.approver [Scenario.K]
  = Ok [Cluster.approveTransfer].
Proof.
  unfold createMultiApprove_transaction. cbn [createMultiApprove_loop].
  rewrite scenario_approve_round. reflexivity.
Qed.

Lemma scenario_init :
  init Web3.findProgramAddress Scenario.this Run.initData Scenario.A = Ok Run.initGroup.
Proof.
  unfold init.
  destruct (serialize_InstructionData (InstructionData.init Run.initData))
    as [buffer|e] eqn:E; vm_compute in E; [|discriminate E].
  injection E as <-. cbn [bind].
  change (InitInstruction.group_data Run.initData) with Scenario.group.
  rewrite scenario_group. cbn [bind]. rewrite scenario_protected. reflexivity.
Qed.





(** ** The properties on the scenario *)

Lemma readGroupAccountData_serialized_witness :
  exists b,
    serialize_GroupData Scenario.group = Ok b
    /\ readGroupAccountData Scenario.this (account (x00 :: b)) = Ok Scenario.group.
Proof.
  eexists. split; [vm_compute; reflexivity|].
  eapply (readGroupAccountData_serialized Scenario.this _ Scenario.group);
    reflexivity.
Defined.


Lemma serialize_GroupData_injective_witness :
  exists b1 b2,
    serialize_GroupData Scenario.group = Ok b1
    /\ serialize_GroupData (groupOf 1) = Ok b2
    /\ (b1 = b2 <-> Scenario.group = groupOf 1).
Proof.
  eexists. eexists. split; [vm_compute; reflexivity|]. split; [vm_compute; reflexivity|].
  apply serialize_GroupData_injective; reflexivity.
Defined.

Lemma member_order_matters_witness :
  exists b1 b2,
    serialize_GroupData
      (GroupData.mk [new_GroupMember Scenario.A 1; new_GroupMember Scenario.B 2] 2) = Ok b1
    /\ serialize_GroupData
         (GroupData.mk [new_GroupMember Scenario.B 2; new_GroupMember Scenario.A 1] 2) = Ok b2
    /\ b1 <> b2.
Proof.
  eexists. eexists. split; [vm_compute; reflexivity|]. split; [vm_compute; reflexivity|].
  apply (member_order_matters (new_GroupMember Scenario.A 1) (new_GroupMember Scenario.B 2) 2);
    [|reflexivity|reflexivity].
  intros H. apply (f_equal GroupMember.weight) in H. discriminate H.
Defined.

Lemma serialize_ProposalConfig_injective_witness :
  exists b1 b2,
    serialize_ProposalConfig Scenario.config = Ok b1
    /\ serialize_ProposalConfig (proposedConfig Scenario.G Run.upgrade) = Ok b2
    /\ (b1 = b2 <-> Scenario.config = proposedConfig Scenario.G Run.upgrade).
Proof.
  eexists. eexists. split; [vm_compute; reflexivity|]. split; [vm_compute; reflexivity|].
  apply serialize_ProposalConfig_injective; reflexivity.
Defined.

Lemma account_data_is_empty_witness :
  readGroupAccountData Scenario.this (account []) = Throws (Throw "account data is empty").
Proof.
  apply (proj1 (account_data_is_empty Scenario.this (account []))).
  split; reflexivity.
Defined.

Lemma init_instruction_witness :
  exists group protected body,
    serialize_InitInstruction Run.initData = Ok body
    /\ Run.initGroup
       = TransactionInstruction.mk
           [ AccountMeta.mk Scenario.A true true;
             AccountMeta.mk group false true;
             AccountMeta.mk SystemProgram.programId false false;
             AccountMeta.mk protected false true ]
           (MultiSig.programId Scenario.this)
           (x00 :: body).
Proof.
  destruct (init_instruction Web3.findProgramAddress Scenario.this Run.initData Scenario.A
                             Run.initGroup scenario_init)
    as (group & protected & body & _ & _ & Hb & Hix).
  exists group, protected, body. split; assumption.
Defined.

Lemma approve_instruction_witness :
  exists group P target rest,
    PublicKey.new (ProposalConfig.group Scenario.config) = Ok group
    /\ TransactionInstruction.keys Cluster.approveTransfer
       = [ AccountMeta.mk Scenario.B true true;
           AccountMeta.mk group false true;
           AccountMeta.mk Scenario.K false true;
           AccountMeta.mk target false false ] ++ rest
    /\ Forall2 (rewritten P)
               (ProposedInstruction.accounts (ProposalConfig.instruction Scenario.config))
               rest.
Proof.
  destruct (approve_instruction Web3.findProgramAddress Scenario.this Scenario.K
                                Scenario.config Scenario.B _ scenario_approve)
    as (group & P & target & rest & Hg & _ & _ & Hr & Hix).
  exists group, P, target, rest. split; [exact Hg|]. split; [|exact Hr].
  change Cluster.approveTransfer
    with (TransactionInstruction.mk
            [ AccountMeta.mk Scenario.B true true;
              AccountMeta.mk Scenario.G false true;
              AccountMeta.mk Scenario.K false true;
              AccountMeta.mk SystemProgram.programId false false;
              AccountMeta.mk Scenario.P false true;
              AccountMeta.mk Scenario.C false true ]
            (MultiSig.programId Scenario.this)
            [x02]).
  rewrite Hix. reflexivity.
Defined.

Lemma propose_payload_witness :
  exists encoding,
    serialize_ProposedInstruction Scenario.transfer = Ok encoding
    /\ Scenario.proposeBuffer = x01 :: encoding ++ le_bytes 8 2000000.
Proof.
  destruct (propose_payload Web3.findProgramAddress Scenario.this Scenario.proposeData
                            Scenario.G Scenario.A _ (scenario_propose Scenario.A))
    as (encoding & He & Hd & _ & _).
  exists encoding. split; [exact He | exact Hd].
Defined.

Lemma approve_follows_propose_witness :
  exists ixa proposalKey target rest,
    approve Web3.findProgramAddress Scenario.this Scenario.K
            (ProposalConfig.mk (PublicKey.toBuffer Scenario.G) Scenario.transfer)
            Scenario.B = Ok ixa
    /\ TransactionInstruction.keys ixa
       = [ AccountMeta.mk Scenario.B true true;
           AccountMeta.mk Scenario.G false true;
           AccountMeta.mk Scenario.K false true;
           AccountMeta.mk target false false ] ++ rest
    /\ [ AccountMeta.mk Scenario.A true true;
         AccountMeta.mk Scenario.G false true;
         AccountMeta.mk Scenario.K false true;
         AccountMeta.mk SystemProgram.programId false false;
         AccountMeta.mk SystemProgram.programId false false;
         AccountMeta.mk Scenario.P false true;
         AccountMeta.mk Scenario.C false true ]
       = [ AccountMeta.mk Scenario.A true true;
           AccountMeta.mk Scenario.G false true;
           AccountMeta.mk proposalKey false true;
           AccountMeta.mk SystemProgram.programId false false;
           AccountMeta.mk target false false ] ++ rest.
Proof.
  destruct (approve_follows_propose Web3.findProgramAddress Scenario.this
              Scenario.proposeData Scenario.G Scenario.A Scenario.K Scenario.B _
              eq_refl (scenario_propose Scenario.A))
    as (ixa & proposalKey & target & rest & Ha & Hp & Hk).
  exists ixa, proposalKey, target, rest. split; [exact Ha|]. split; [exact Hk|exact Hp].
Defined.

Lemma proposeMulti_transaction_spec_witness :
  length [Cluster.proposeTransfer] = length [Cluster.transfer]
  /\ length [Scenario.K] = length [Cluster.transfer]
  /\ Forall2 (fun instruction ix_key =>
                proposed_for Web3.findProgramAddress Cluster.connection Scenario.this
                             Cluster.signer Scenario.G instruction
                             (fst ix_key) (snd ix_key))
             [Cluster.transfer] (combine [Cluster.proposeTransfer] [Scenario.K]).
Proof.
  exact (proposeMulti_transaction_spec
           Web3.findProgramAddress Cluster.connection Scenario.this Cluster.signer
           Scenario.G [Cluster.transfer] [Cluster.proposeTransfer] [Scenario.K]
           scenario_proposeMulti).
Defined.

Lemma scenario_valid :
  Forall valid_instruction [Cluster.transfer].
Proof.
  constructor; [|constructor]. split; [reflexivity|].
  repeat (constructor; [reflexivity|]). constructor.
Qed.

Lemma proposeMulti_keeps_accounts_witness :
  Forall2 (fun instruction ix =>
             skipn 4 (TransactionInstruction.keys ix)
             = AccountMeta.mk (TransactionInstruction.programId instruction) false false
               :: map (reproposed Scenario.P) (TransactionInstruction.keys instruction)
             /\ TransactionInstruction.programId ix = MultiSig.programId Scenario.this)
          [Cluster.transfer] [Cluster.proposeTransfer].
Proof.
  exact (proposeMulti_keeps_accounts
           Web3.findProgramAddress Cluster.connection Scenario.this Cluster.signer
           Scenario.G Scenario.P [Cluster.transfer] [Cluster.proposeTransfer] [Scenario.K]
           scenario_protected scenario_valid scenario_proposeMulti).
Defined.

Lemma proposeMulti_single_signer_witness :
  Forall (fun ix =>
            exists rest,
              TransactionInstruction.keys ix
              = AccountMeta.mk (Account.publicKey Cluster.signer) true true :: rest
              /\ Forall (fun key => AccountMeta.isSigner key = false) rest)
         [Cluster.proposeTransfer].
Proof.
  refine (proposeMulti_single_signer
            Web3.findProgramAddress Cluster.connection Scenario.this Cluster.signer
            Scenario.G Scenario.P [Cluster.transfer] [Cluster.proposeTransfer] [Scenario.K]
            scenario_protected scenario_valid _ scenario_proposeMulti).
  constructor; [|constructor].
  constructor; [reflexivity|]. constructor; [discriminate|]. constructor.
Defined.

Lemma createMultiApprove_transaction_spec_witness :
  Forall2 (approved_for Web3.findProgramAddress Cluster.connection Scenario.this
                        Cluster.approver)
          [Scenario.K] [Cluster.approveTransfer].
Proof.
  exact (createMultiApprove_transaction_spec
           Web3.findProgramAddress Cluster.connection Scenario.this Cluster.approver
           [Scenario.K] [Cluster.approveTransfer] scenario_multiApprove).
Defined.

Lemma createMultiApprove_all_or_nothing_witness :
  exists e,
    createMultiApprove_transaction Web3.findProgramAddress Cluster.connection Scenario.this
                                   Cluster.approver [Scenario.K; Cluster.closed] = Throws e
    /\ createMultiApprove Web3.findProgramAddress Cluster.connection Scenario.this
                          Cluster.approver [Scenario.K; Cluster.closed] = Throws e.
Proof.
  apply (createMultiApprove_all_or_nothing
           Web3.findProgramAddress Cluster.connection Scenario.this Cluster.approver
           [Scenario.K; Cluster.closed] Cluster.closed).
  - right. left. reflexivity.
  - right. exists Cluster.closedAccount. split; [reflexivity|]. right. reflexivity.
Defined.

Lemma createApprove_errors_witness :
  createApprove Web3.findProgramAddress Cluster.connection Scenario.this
                Cluster.approver Scenario.C
  = Throws (Throw "error: cannot find the proposal account")
  /\ createApprove Web3.findProgramAddress Cluster.connection Scenario.this
                   Cluster.approver Cluster.closed
     = Throws (Throw "data is zero (proposal may be complete)").
Proof.
  split.
  - apply (proj1 (createApprove_errors Web3.findProgramAddress Cluster.connection
                                       Scenario.this Cluster.approver Scenario.C)).
    reflexivity.
  - apply (proj2 (proj2 (createApprove_errors Web3.findProgramAddress Cluster.connection
                                              Scenario.this Cluster.approver
                                              Cluster.closed))
                 Cluster.closedAccount); reflexivity.
Defined.

Lemma createProposal_count_witness :
  length [Scenario.K] = 1%nat
  /\ exists instructions tx,
       proposeMulti_transaction Web3.findProgramAddress Cluster.connection Scenario.this
                                Cluster.signer Scenario.G instructions
       = Ok (tx, [Scenario.K])
       /\ length tx = 1%nat.
Proof.
  destruct (createProposal_count
              Web3.findProgramAddress Library.builders Cluster.connection Scenario.this
              Scenario.G Scenario.P Cluster.signer
              (PropositionKind.Transfer Scenario.C 1000000) [Scenario.K]
              scenario_createProposal)
    as (L & instructions & tx & _ & Htx & Ltx & _).
  split; [exact L|]. exists instructions, tx. split; [exact Htx | exact Ltx].
Defined.


Lemma encodeInstruction_Write_witness :
  encodeInstruction (Write 900 [x01; x02; x03])
  = Ok (le_bytes 4 1 ++ le_bytes 4 900 ++ le_bytes 8 3 ++ [x01; x02; x03])
  /\ encodeInstruction (Write 0 (repeat x00 901)) = Throws RangeError.
Proof.
  split.
  - apply (proj1 (encodeInstruction_Write 900 [x01; x02; x03])).
    + reflexivity.
    + unfold CHUNK_SIZE. simpl. lia.
  - apply (proj2 (encodeInstruction_Write 0 (repeat x00 901))).
    right. rewrite repeat_length. unfold CHUNK_SIZE. lia.
Defined.

Lemma deploy_writes_spec_witness :
  exists txs,
    Loader.deploy_writes 901 Cluster.connection Cluster.signer Cluster.approver
                         Cluster.upgradeBuffer 0 Run.program = Some (Ok txs)
    /\ length txs = 2%nat
    /\ Loader.getMinNumSignatures 901 = 8%nat.
Proof.
  destruct (deploy_writes_spec Cluster.connection Cluster.signer Cluster.approver
                               Cluster.upgradeBuffer Run.program)
    as (txs & H & _ & _ & L & S).
  - reflexivity.
  - vm_compute. discriminate.
  - exists txs. split; [exact H|]. split; [rewrite L; reflexivity|].
    change (length Run.program) with 901%nat in S. rewrite S, L. reflexivity.
Defined.

Lemma proposalAccountSpace_formula_witness :
  proposalAccountSpace Scenario.config = Ok 169%nat.
Proof.
  apply (proposalAccountSpace_formula Scenario.config).
  split; [reflexivity|]. split; [reflexivity|]. split.
  - repeat (constructor; [reflexivity|]). constructor.
  - split; reflexivity.
Defined.

Lemma anyNonZero_true_witness :
  anyNonZero [x00; x00; x01] = true.
Proof.
  apply (proj2 (anyNonZero_true [x00; x00; x01])).
  apply Exists_cons_tl, Exists_cons_tl, Exists_cons_hd. discriminate.
Defined.
